(** * 10khours: the practice timer, the metronome, the wake lock and the
      debounced slider, embedded from the TypeScript sources

    The development follows the hooks and components of the repository:

    - [Metronome]            src/hooks/useMetronome.ts
    - [DebouncedSlider]      the useDebouncedSlider hook (src/unnamed/part_006)
    - [WakeLock]             useScreenWakeLock (second file of
                             src/hooks/useKeyboardShortcuts.ts)
    - [MobilePracticeTimer]  src/components/MobilePracticeTimer.tsx
    - [MobileOptimizedTimer] src/components/MobileOptimizedTimer.tsx
    - [TimeDisplay]          the [formatTime] of the three timers
    - [PracticeTimer]        the desktop timer of
                             src/components/CreateFolderDialog.tsx
    - [TimerWithMetronome]   MobileOptimizedTimer together with the metronome
                             hook it uses

    React state and refs become record fields and the host's timer tables
    become finite maps keyed by the timer handle. In the metronome, whose
    re-entrancy guards are about calls that overlap, [start] and [toggle] are
    split at their [await]s into the part that runs at the call and the part
    that runs when the awaited promise settles, and the values a callback
    closes over (the render it was created in) are passed as an explicit
    [Closure]. The handlers of the two timers and [enableWakeLock] are taken
    as one step each: what they await (the wake lock, the insert) settles
    before the next event.

    Numbers: dates are milliseconds, as [Date.getTime] gives them (integers,
    [Z]); the metronome's clock, audio parameters and timer delays are
    rationals ([Q]) in place of doubles, which is exact for every value the
    hooks compute here except that 1.2 and the quotients 60000/bpm are taken
    as the rationals they denote. *)

From Stdlib Require Import Ascii ZArith QArith Qminmax Bool List Lia Lqa.
From stdpp Require Import base option list strings pretty gmap.

Local Open Scope Z_scope.

(** ** JavaScript arithmetic used by the sources *)

Module JS.

(** [Math.round (a / b)] for an integer [a] and a positive integer [b]:
    the nearest integer, halves going up, i.e. [floor (a/b + 1/2)]. The
    sources divide milliseconds by 60000 and seconds by 60; for dividends
    below 2^51 the double quotient lies on the same side of every half as
    the exact one, so the rounding of the double is this integer. *)
Definition round_div (a b : Z) : Z := (2 * a + b) / (2 * b).

(** [Math.max]. *)
Definition max (a b : Z) : Z := Z.max a b.

(** [a % b === 0] on non-negative integers. The remainder by zero is NaN,
    which is not [=== 0]. *)
Definition rem_is_zero (a b : nat) : bool :=
  match b with
  | O => false
  | S _ => Nat.eqb (Nat.modulo a b) 0
  end.

(** [a % b] on non-negative integers; [None] stands for NaN. *)
Definition rem (a b : nat) : option nat :=
  match b with
  | O => None
  | S _ => Some (Nat.modulo a b)
  end.

(** [60000 / bpm]; [None] stands for a non-finite quotient (bpm = 0). *)
Definition div_q (a b : Z) : option Q :=
  if Z.eqb b 0 then None else Some (inject_Z a / inject_Z b)%Q.

End JS.

(** ** useMetronome (src/hooks/useMetronome.ts)

    The hook's functions follow in the order of the source; the unmount
    effects (closing the audio context, clearing the interval) are left
    out. *)

Module Metronome.

Inductive SoundKind := click | beep | wood | digital.
Inductive OscillatorType := square | sine | sawtooth | triangle.

Record MetronomeSettings := mkSettings {
  bpm : Z;
  volume : Q;
  sound : SoundKind;
  accent : bool;
  timeSignature : nat
}.

(** The initial [useState] value of [settings]. *)
Definition defaultSettings : MetronomeSettings :=
  mkSettings 120 1 click true 4.

(** [AudioContext.state]. *)
Inductive ContextState := suspended | running | closed.

(** What [createSound] hands to the oscillator and gain nodes. *)
Record Tone := mkTone {
  tone_type : OscillatorType;
  tone_frequency : Q;
  tone_gain : Q;
  tone_duration : Q
}.

(** The values that [start], [toggle] and [updateSettings] close over:
    they are re-created by [useCallback] whenever [isPlaying] or a field of
    [settings] changes, so each of them sees the state of one render. *)
Record Closure := mkClosure {
  cl_isPlaying : bool;
  cl_settings : MetronomeSettings
}.

(** An entry of the host's [setInterval] table: the delay that was asked
    for, the time the next firing is due, and the settings the callback
    closed over. *)
Record IntervalTask := mkInterval {
  it_delay : option Q;
  it_due : Q;
  it_settings : MetronomeSettings
}.

(** An entry of the host's [setTimeout] table. Timer handles are positive
    numbers, so a handle stored in a ref is truthy. *)
Inductive TimeoutTask :=
| ResetToggleFlag                 (* toggle, line 206 *)
| RestartMetronome (cl : Closure). (* updateSettings, line 246 *)

(** A call of [start] suspended at [await audioContextRef.current.resume()];
    [sf_toggle] tells whether a [toggle] is in turn awaiting this call. *)
Record StartFrame := mkFrame {
  sf_closure : Closure;
  sf_toggle : bool
}.

Inductive Error := AudioContextNotAvailable | ConstructorError | ResumeError.

(** How a promise is settled. *)
Inductive Outcome := Fulfilled | Rejected (e : Error).

(** What a call of an [async] function has done when it returns to its
    caller. *)
Inductive CallResult := Settled (o : Outcome) | Suspended.

(** [typeof window] and [new AudioContext()] as [start] finds them when
    [audioContextRef.current] is null. *)
Inductive Window :=
| NoWindow
| ConstructorThrows
| ConstructorGives (st : ContextState).

(** The hook's state and refs, followed by the host's side: the clock, the
    timer tables, the tones handed to the audio graph (latest first, with
    the time of the call) and the suspended calls. *)
Record World := mkWorld {
  isPlaying : bool;
  settings : MetronomeSettings;
  currentBeat : option nat;
  audioContextRef : option ContextState;
  intervalRef : option nat;
  beatCountRef : nat;
  startInProgressRef : bool;
  toggleInProgressRef : bool;
  now : Q;
  intervals : gmap nat IntervalTask;
  timeouts : gmap nat TimeoutTask;
  nextTimerId : nat;
  played : list (Q * Tone);
  awaitingResume : list StartFrame;
  togglesSettling : list Outcome
}.

Definition setIsPlaying (b : bool) (w : World) : World :=
  mkWorld b (settings w) (currentBeat w) (audioContextRef w) (intervalRef w)
    (beatCountRef w) (startInProgressRef w) (toggleInProgressRef w) (now w)
    (intervals w) (timeouts w) (nextTimerId w) (played w)
    (awaitingResume w) (togglesSettling w).

Definition setSettings (s : MetronomeSettings) (w : World) : World :=
  mkWorld (isPlaying w) s (currentBeat w) (audioContextRef w) (intervalRef w)
    (beatCountRef w) (startInProgressRef w) (toggleInProgressRef w) (now w)
    (intervals w) (timeouts w) (nextTimerId w) (played w)
    (awaitingResume w) (togglesSettling w).

Definition setCurrentBeat (b : option nat) (w : World) : World :=
  mkWorld (isPlaying w) (settings w) b (audioContextRef w) (intervalRef w)
    (beatCountRef w) (startInProgressRef w) (toggleInProgressRef w) (now w)
    (intervals w) (timeouts w) (nextTimerId w) (played w)
    (awaitingResume w) (togglesSettling w).

Definition set_audioContextRef (c : option ContextState) (w : World) : World :=
  mkWorld (isPlaying w) (settings w) (currentBeat w) c (intervalRef w)
    (beatCountRef w) (startInProgressRef w) (toggleInProgressRef w) (now w)
    (intervals w) (timeouts w) (nextTimerId w) (played w)
    (awaitingResume w) (togglesSettling w).

Definition set_intervalRef (r : option nat) (w : World) : World :=
  mkWorld (isPlaying w) (settings w) (currentBeat w) (audioContextRef w) r
    (beatCountRef w) (startInProgressRef w) (toggleInProgressRef w) (now w)
    (intervals w) (timeouts w) (nextTimerId w) (played w)
    (awaitingResume w) (togglesSettling w).

Definition set_beatCountRef (n : nat) (w : World) : World :=
  mkWorld (isPlaying w) (settings w) (currentBeat w) (audioContextRef w)
    (intervalRef w) n (startInProgressRef w) (toggleInProgressRef w) (now w)
    (intervals w) (timeouts w) (nextTimerId w) (played w)
    (awaitingResume w) (togglesSettling w).

Definition set_startInProgressRef (b : bool) (w : World) : World :=
  mkWorld (isPlaying w) (settings w) (currentBeat w) (audioContextRef w)
    (intervalRef w) (beatCountRef w) b (toggleInProgressRef w) (now w)
    (intervals w) (timeouts w) (nextTimerId w) (played w)
    (awaitingResume w) (togglesSettling w).

Definition set_toggleInProgressRef (b : bool) (w : World) : World :=
  mkWorld (isPlaying w) (settings w) (currentBeat w) (audioContextRef w)
    (intervalRef w) (beatCountRef w) (startInProgressRef w) b (now w)
    (intervals w) (timeouts w) (nextTimerId w) (played w)
    (awaitingResume w) (togglesSettling w).

Definition set_now (t : Q) (w : World) : World :=
  mkWorld (isPlaying w) (settings w) (currentBeat w) (audioContextRef w)
    (intervalRef w) (beatCountRef w) (startInProgressRef w)
    (toggleInProgressRef w) t
    (intervals w) (timeouts w) (nextTimerId w) (played w)
    (awaitingResume w) (togglesSettling w).

Definition set_intervals (m : gmap nat IntervalTask) (w : World) : World :=
  mkWorld (isPlaying w) (settings w) (currentBeat w) (audioContextRef w)
    (intervalRef w) (beatCountRef w) (startInProgressRef w)
    (toggleInProgressRef w) (now w)
    m (timeouts w) (nextTimerId w) (played w)
    (awaitingResume w) (togglesSettling w).

Definition set_timeouts (m : gmap nat TimeoutTask) (w : World) : World :=
  mkWorld (isPlaying w) (settings w) (currentBeat w) (audioContextRef w)
    (intervalRef w) (beatCountRef w) (startInProgressRef w)
    (toggleInProgressRef w) (now w)
    (intervals w) m (nextTimerId w) (played w)
    (awaitingResume w) (togglesSettling w).

Definition set_nextTimerId (n : nat) (w : World) : World :=
  mkWorld (isPlaying w) (settings w) (currentBeat w) (audioContextRef w)
    (intervalRef w) (beatCountRef w) (startInProgressRef w)
    (toggleInProgressRef w) (now w)
    (intervals w) (timeouts w) n (played w)
    (awaitingResume w) (togglesSettling w).

Definition set_played (l : list (Q * Tone)) (w : World) : World :=
  mkWorld (isPlaying w) (settings w) (currentBeat w) (audioContextRef w)
    (intervalRef w) (beatCountRef w) (startInProgressRef w)
    (toggleInProgressRef w) (now w)
    (intervals w) (timeouts w) (nextTimerId w) l
    (awaitingResume w) (togglesSettling w).

Definition set_awaitingResume (l : list StartFrame) (w : World) : World :=
  mkWorld (isPlaying w) (settings w) (currentBeat w) (audioContextRef w)
    (intervalRef w) (beatCountRef w) (startInProgressRef w)
    (toggleInProgressRef w) (now w)
    (intervals w) (timeouts w) (nextTimerId w) (played w)
    l (togglesSettling w).

Definition set_togglesSettling (n : list Outcome) (w : World) : World :=
  mkWorld (isPlaying w) (settings w) (currentBeat w) (audioContextRef w)
    (intervalRef w) (beatCountRef w) (startInProgressRef w)
    (toggleInProgressRef w) (now w)
    (intervals w) (timeouts w) (nextTimerId w) (played w)
    (awaitingResume w) n.

(** The hook as it is after mounting in a browser: the mount effect has
    built the audio context, in state [st]. *)
Definition mounted (st : option ContextState) : World :=
  mkWorld false defaultSettings (Some O) st None O false false 0%Q
    ∅ ∅ 1%nat [] [] [].

(** The closure of the current render. *)
Definition currentClosure (w : World) : Closure :=
  mkClosure (isPlaying w) (settings w).

(** *** createSound (lines 41-88) *)

(** The [switch] on [settings.sound]: the waveform and the frequency the
    oscillator is given. *)
Definition soundShape (k : SoundKind) (frequency : Q) : OscillatorType * Q :=
  match k with
  | click => (square, frequency * 2)%Q
  | beep => (sine, frequency)
  | wood => (sawtooth, frequency * 0.5)%Q
  | digital => (triangle, frequency)
  end.

Definition createSound (k : SoundKind) (frequency duration vol : Q)
    (w : World) : World :=
  match audioContextRef w with
  | None => w
  | Some _ =>
      let '(ty, f) := soundShape k frequency in
      set_played ((now w, mkTone ty f vol duration) :: played w) w
  end.

(** *** playBeat (lines 90-100) *)

Definition isAccentBeat (s : MetronomeSettings) (beatCount : nat) : bool :=
  accent s && JS.rem_is_zero beatCount (timeSignature s).

Definition beatFrequency (acc : bool) : Q := if acc then 800%Q else 400%Q.

Definition beatVolume (s : MetronomeSettings) (acc : bool) : Q :=
  (volume s * (if acc then 1.2 else 1))%Q.

Definition playBeat (s : MetronomeSettings) (w : World) : World :=
  let acc := isAccentBeat s (beatCountRef w) in
  let w := createSound (sound s) (beatFrequency acc) 0.1%Q (beatVolume s acc) w in
  set_beatCountRef (S (beatCountRef w)) w.

(** *** The callback given to setInterval (lines 146-160) *)

Definition intervalCallback (s : MetronomeSettings) (w : World) : World :=
  let acc := isAccentBeat s (beatCountRef w) in
  let w := createSound (sound s) (beatFrequency acc) 0.1%Q (beatVolume s acc) w in
  let w := set_beatCountRef (S (beatCountRef w)) w in
  setCurrentBeat
    (option_map S (JS.rem (beatCountRef w) (timeSignature s))) w.

(** *** The host's timers *)

(** The delay the host waits for; a delay that is not a finite positive
    number counts as zero. *)
Definition hostDelay (d : option Q) : Q :=
  match d with
  | Some q => Qmax 0 q
  | None => 0%Q
  end.

Definition hostSetInterval (d : option Q) (s : MetronomeSettings)
    (w : World) : nat * World :=
  let id := nextTimerId w in
  let task := mkInterval d (now w + hostDelay d)%Q s in
  (id, set_nextTimerId (S id) (set_intervals (<[id := task]> (intervals w)) w)).

Definition hostClearInterval (id : nat) (w : World) : World :=
  set_intervals (delete id (intervals w)) w.

Definition hostSetTimeout (t : TimeoutTask) (w : World) : World :=
  let id := nextTimerId w in
  set_nextTimerId (S id) (set_timeouts (<[id := t]> (timeouts w)) w).

(** *** start (lines 105-170) *)

(** Lines 135-160: what [start] does once the audio context is there and
    not suspended. *)
Definition startBody (cl : Closure) (w : World) : World :=
  let s := cl_settings cl in
  let w := setIsPlaying true w in
  let w := set_beatCountRef O w in
  let interval := JS.div_q 60000 (bpm s) in
  let w := playBeat s w in
  let '(id, w) := hostSetInterval interval s w in
  set_intervalRef (Some id) w.

(** The [catch] and [finally] blocks. *)
Definition startCatch (e : Error) (w : World) : World * Outcome :=
  (set_startInProgressRef false (setIsPlaying false w), Rejected e).

Definition startFinally (w : World) : World * Outcome :=
  (set_startInProgressRef false w, Fulfilled).

(** The call of [start], up to its first suspension. [byToggle] records
    that the caller is [toggle], which awaits the result. *)
Definition startCall (cl : Closure) (win : Window) (byToggle : bool)
    (w : World) : World * CallResult :=
  if cl_isPlaying cl || startInProgressRef w then (w, Settled Fulfilled)
  else
    let w := set_startInProgressRef true w in
    let created :=
      match audioContextRef w, win with
      | None, ConstructorGives st => inr (set_audioContextRef (Some st) w)
      | None, ConstructorThrows => inl ConstructorError
      | _, _ => inr w
      end in
    match created with
    | inl e => let '(w, o) := startCatch e w in (w, Settled o)
    | inr w =>
        match audioContextRef w with
        | None =>
            let '(w, o) := startCatch AudioContextNotAvailable w in
            (w, Settled o)
        | Some suspended =>
            (set_awaitingResume
               (awaitingResume w ++ [mkFrame cl byToggle]) w, Suspended)
        | Some _ =>
            let '(w, o) := startFinally (startBody cl w) in (w, Settled o)
        end
    end.

(** The rest of [start] once [resume()] has settled; [st] is the state of
    the audio context after a successful resume. *)
Definition startResumed (cl : Closure) (resumed : option ContextState)
    (w : World) : World * Outcome :=
  match resumed with
  | Some st =>
      startFinally (startBody cl (set_audioContextRef (Some st) w))
  | None => startCatch ResumeError w
  end.

(** *** stop (lines 172-181) *)

Definition stop (w : World) : World :=
  let w :=
    match intervalRef w with
    | Some id => set_intervalRef None (hostClearInterval id w)
    | None => w
    end in
  setCurrentBeat (Some O) (setIsPlaying false w).

(** *** toggle (lines 186-211) *)

(** The [finally] block: the flag is reset by a timeout, 100ms later. *)
Definition toggleFinally (w : World) : World :=
  hostSetTimeout ResetToggleFlag w.

Definition toggleCall (cl : Closure) (win : Window) (w : World)
    : World * CallResult :=
  if toggleInProgressRef w then (w, Settled Fulfilled)
  else
    let w := set_toggleInProgressRef true w in
    if cl_isPlaying cl then (toggleFinally (stop w), Settled Fulfilled)
    else
      match startCall cl win true w with
      | (w, Settled o) =>
          (set_togglesSettling (togglesSettling w ++ [o]) w, Suspended)
      | (w, Suspended) => (w, Suspended)
      end.

(** *** updateSettings (lines 240-248) *)

(** A [Partial<MetronomeSettings>]. *)
Record PartialSettings := mkPartial {
  p_bpm : option Z;
  p_volume : option Q;
  p_sound : option SoundKind;
  p_accent : option bool;
  p_timeSignature : option nat
}.

Definition merge (prev : MetronomeSettings) (p : PartialSettings)
    : MetronomeSettings :=
  mkSettings (default (bpm prev) (p_bpm p))
             (default (volume prev) (p_volume p))
             (default (sound prev) (p_sound p))
             (default (accent prev) (p_accent p))
             (default (timeSignature prev) (p_timeSignature p)).

(** [newSettings.bpm && isPlaying]: a bpm of 0 is falsy. *)
Definition truthy_bpm (p : PartialSettings) : bool :=
  match p_bpm p with
  | Some b => negb (Z.eqb b 0)
  | None => false
  end.

Definition updateSettings (cl : Closure) (p : PartialSettings) (w : World)
    : World :=
  let w := setSettings (merge (settings w) p) w in
  if truthy_bpm p && cl_isPlaying cl
  then hostSetTimeout (RestartMetronome cl) (stop w)
  else w.

(** *** The events of a mounted hook

    A call carries the closure of the render its function was created in,
    which need not be the latest one. *)

Inductive Event :=
| CallStart (cl : Closure) (win : Window)
| CallStop
| CallToggle (cl : Closure) (win : Window)
| CallUpdateSettings (cl : Closure) (p : PartialSettings)
| ResumeSettles (i : nat) (resumed : option ContextState)
| ToggleSettles
| IntervalFires (id : nat)
| TimeoutFires (id : nat) (win : Window)
| ContextChanges (st : ContextState).

(** The interval [id] fires at the time it is due. *)
Definition fireInterval (id : nat) (w : World) : World :=
  match intervals w !! id with
  | None => w
  | Some task =>
      let w := set_now (Qmax (now w) (it_due task)) w in
      let w := intervalCallback (it_settings task) w in
      let task' := mkInterval (it_delay task)
                     (it_due task + hostDelay (it_delay task))%Q
                     (it_settings task) in
      set_intervals (<[id := task']> (intervals w)) w
  end.

Definition fireTimeout (id : nat) (win : Window) (w : World) : World :=
  match timeouts w !! id with
  | None => w
  | Some task =>
      let w := set_timeouts (delete id (timeouts w)) w in
      match task with
      | ResetToggleFlag => set_toggleInProgressRef false w
      | RestartMetronome cl => fst (startCall cl win false w)
      end
  end.

(** [resume()] of the [i]-th suspended [start] settles; a [toggle] that
    awaits that [start] then runs its [finally]. *)
Definition resumeSettles (i : nat) (resumed : option ContextState)
    (w : World) : World * option Outcome :=
  match awaitingResume w !! i with
  | None => (w, None)
  | Some fr =>
      let w := set_awaitingResume (delete i (awaitingResume w)) w in
      let '(w, o) := startResumed (sf_closure fr) resumed w in
      ((if sf_toggle fr then toggleFinally w else w), Some o)
  end.

(** A [toggle] whose [start] had settled at once resumes after its
    [await]. *)
Definition toggleSettles (w : World) : World * option Outcome :=
  match togglesSettling w with
  | [] => (w, None)
  | o :: rest => (toggleFinally (set_togglesSettling rest w), Some o)
  end.

Definition step (e : Event) (w : World) : World :=
  match e with
  | CallStart cl win => fst (startCall cl win false w)
  | CallStop => stop w
  | CallToggle cl win => fst (toggleCall cl win w)
  | CallUpdateSettings cl p => updateSettings cl p w
  | ResumeSettles i r => fst (resumeSettles i r w)
  | ToggleSettles => fst (toggleSettles w)
  | IntervalFires id => fireInterval id w
  | TimeoutFires id win => fireTimeout id win w
  | ContextChanges st =>
      match audioContextRef w with
      | Some _ => set_audioContextRef (Some st) w
      | None => w
      end
  end.

Definition run (es : list Event) (w : World) : World :=
  fold_left (fun w e => step e w) es w.

(** The [toggle] calls that have not settled yet: those awaiting a [start]
    that has settled, and those whose [start] awaits [resume()]. *)
Definition pendingToggles (w : World) : nat :=
  (length (togglesSettling w)
   + length (List.filter sf_toggle (awaitingResume w)))%nat.

Definition togglePending (w : World) : Prop := (0 < pendingToggles w)%nat.

(** The tone of the beat numbered [beatCount], as [playBeat] and the
    interval callback compute it. *)
Definition beatTone (s : MetronomeSettings) (beatCount : nat) : Tone :=
  let acc := isAccentBeat s beatCount in
  let '(ty, f) := soundShape (sound s) (beatFrequency acc) in
  mkTone ty f (beatVolume s acc) 0.1%Q.

(** A call of [start] followed, where the call suspends, by the settling
    of its [resume()]. *)
Definition startAndSettle (cl : Closure) (win : Window)
    (resumed : option ContextState) (w : World) : World * Outcome :=
  match startCall cl win false w with
  | (w', Settled o) => (w', o)
  | (w', Suspended) =>
      match resumeSettles (length (awaitingResume w)) resumed w' with
      | (w'', Some o) => (w'', o)
      | (w'', None) => (w'', Fulfilled)
      end
  end.

(** The audio context [start] works with: the one of the ref, or the one
    it constructs. *)
Definition contextFor (win : Window) (w : World) : option ContextState :=
  match audioContextRef w, win with
  | Some st, _ => Some st
  | None, ConstructorGives st => Some st
  | None, _ => None
  end.

(** Audio initialisation fails (no context and none can be built), or the
    context is suspended and [resume()] rejects. *)
Definition audioFails (win : Window) (resumed : option ContextState)
    (w : World) : Prop :=
  contextFor win w = None \/ (contextFor win w = Some suspended /\ resumed = None).

(** What [start] establishes when it goes through, from [w] to [w']: the
    interval is registered under a new handle with the delay 60000/bpm, and
    the first beat has been played at the time of the call. *)
Definition started (cl : Closure) (w w' : World) : Prop :=
  let s := cl_settings cl in
  let d := JS.div_q 60000 (bpm s) in
  isPlaying w' = true /\
  startInProgressRef w' = false /\
  intervalRef w' = Some (nextTimerId w) /\
  intervals w' =
    <[nextTimerId w := mkInterval d (now w + hostDelay d)%Q s]> (intervals w) /\
  played w' = (now w, beatTone s O) :: played w /\
  beatCountRef w' = 1%nat /\ now w' = now w /\
  is_Some (audioContextRef w').

(** The part of the world the re-entrancy guard of [toggle] lives on. *)
Definition noResets (m : gmap nat TimeoutTask) : Prop :=
  forall id, m !! id <> Some ResetToggleFlag.

Definition uniqueReset (m : gmap nat TimeoutTask) : Prop :=
  forall i j,
    m !! i = Some ResetToggleFlag -> m !! j = Some ResetToggleFlag -> i = j.

(** The guard's invariant: while the flag is down nothing of a [toggle] is
    left (no unsettled call, no reset timeout); at most one call is
    unsettled, and then no reset timeout is scheduled; at most one reset
    timeout is scheduled. *)
Definition toggleInv (w : World) : Prop :=
  (toggleInProgressRef w = false ->
     pendingToggles w = O /\ noResets (timeouts w)) /\
  (pendingToggles w <= 1)%nat /\
  (pendingToggles w = 1%nat -> noResets (timeouts w)) /\
  uniqueReset (timeouts w).

(** No interval of the host's table has been lost by the hook. *)
Definition intervalsTracked (w : World) : Prop :=
  forall id t, intervals w !! id = Some t -> intervalRef w = Some id.

(** Number of changes of the playing/stopped state along a run. *)
Fixpoint playingChanges (es : list Event) (w : World) : nat :=
  match es with
  | [] => O
  | e :: es =>
      (if Bool.eqb (isPlaying (step e w)) (isPlaying w) then 0 else 1)%nat
      + playingChanges es (step e w)
  end.

(** *** testSound (lines 214-238)

    The call is split at its [await] like that of [start]. Whatever is
    thrown inside is caught and logged, so the promise is always
    fulfilled. [createSound] is the one of the render the callback was
    created in, and with it the sound setting. *)

(** The tone of [createSound(440, 0.5, 1.0)] under the sound setting [k]. *)
Definition testTone (k : SoundKind) : Tone :=
  let '(ty, f) := soundShape k 440%Q in mkTone ty f 1%Q 0.5%Q.

(** The call of [testSound], up to its suspension at [resume()]. *)
Definition testSoundCall (cl : Closure) (win : Window) (w : World)
    : World * CallResult :=
  let created :=
    match audioContextRef w, win with
    | None, ConstructorGives st => inr (set_audioContextRef (Some st) w)
    | None, ConstructorThrows => inl ConstructorError
    | _, _ => inr w
    end in
  match created with
  | inl _ => (w, Settled Fulfilled)
  | inr w =>
      match audioContextRef w with
      | None => (w, Settled Fulfilled)
      | Some suspended => (w, Suspended)
      | Some _ =>
          (createSound (sound (cl_settings cl)) 440%Q 0.5%Q 1%Q w,
           Settled Fulfilled)
      end
  end.

(** The rest of [testSound] once [resume()] has settled. *)
Definition testSoundResumed (cl : Closure) (resumed : option ContextState)
    (w : World) : World :=
  match resumed with
  | Some st =>
      createSound (sound (cl_settings cl)) 440%Q 0.5%Q 1%Q
        (set_audioContextRef (Some st) w)
  | None => w
  end.

(** *** Predicates on the hook's state used by the theorems *)

(** Everything of the metronome but the audio context and the tones handed
    to it is the same in [w] and [w']. *)
Definition sameBeat (w w' : World) : Prop :=
  isPlaying w' = isPlaying w /\ settings w' = settings w /\
  currentBeat w' = currentBeat w /\ intervalRef w' = intervalRef w /\
  beatCountRef w' = beatCountRef w /\
  startInProgressRef w' = startInProgressRef w /\
  toggleInProgressRef w' = toggleInProgressRef w /\
  intervals w' = intervals w /\ timeouts w' = timeouts w /\
  awaitingResume w' = awaitingResume w /\ now w' = now w.

(** The six fields the guards of [start] and the interval live on. *)
Definition sameFields (w w' : World) : Prop :=
  isPlaying w' = isPlaying w /\ intervalRef w' = intervalRef w /\
  intervals w' = intervals w /\
  startInProgressRef w' = startInProgressRef w /\
  awaitingResume w' = awaitingResume w /\ timeouts w' = timeouts w.

(** The four ways a call of [start] can go. *)
Inductive StartCase (cl : Closure) (win : Window) (byT : bool) (w : World)
  : World * CallResult -> Prop :=
| start_ignored :
    cl_isPlaying cl || startInProgressRef w = true ->
    StartCase cl win byT w (w, Settled Fulfilled)
| start_no_audio e :
    cl_isPlaying cl = false -> startInProgressRef w = false ->
    contextFor win w = None ->
    StartCase cl win byT w
      (set_startInProgressRef false
         (setIsPlaying false (set_startInProgressRef true w)),
       Settled (Rejected e))
| start_suspends :
    cl_isPlaying cl = false -> startInProgressRef w = false ->
    contextFor win w = Some suspended ->
    StartCase cl win byT w
      (set_awaitingResume (awaitingResume w ++ [mkFrame cl byT])
         (set_audioContextRef (Some suspended) (set_startInProgressRef true w)),
       Suspended)
| start_goes c :
    cl_isPlaying cl = false -> startInProgressRef w = false ->
    contextFor win w = Some c -> c <> suspended ->
    StartCase cl win byT w
      (set_startInProgressRef false
         (startBody cl
            (set_audioContextRef (Some c) (set_startInProgressRef true w))),
       Settled Fulfilled).

(** [startInProgressRef] is up exactly while one call of [start] is
    suspended. *)
Definition oneStart (w : World) : Prop :=
  length (awaitingResume w) = (if startInProgressRef w then 1 else 0)%nat.

(** The restarts [updateSettings] has scheduled call a [start] created in a
    render in which the metronome was playing. *)
Definition restartsStale (w : World) : Prop :=
  forall id cl,
    timeouts w !! id = Some (RestartMetronome cl) -> cl_isPlaying cl = true.

(** The caller uses a function of a render that has seen the current
    [isPlaying]. *)
Definition seesPlaying (e : Event) (w : World) : bool :=
  match e with
  | CallStart cl _ | CallToggle cl _ | CallUpdateSettings cl _ =>
      Bool.eqb (cl_isPlaying cl) (isPlaying w)
  | _ => true
  end.

Fixpoint upToDate (es : list Event) (w : World) : bool :=
  match es with
  | [] => true
  | e :: es => seesPlaying e w && upToDate es (step e w)
  end.

(** While playing there is one interval, the one [intervalRef] holds; while
    stopped there is none. *)
Definition oneInterval (w : World) : Prop :=
  if isPlaying w
  then exists id t, intervalRef w = Some id /\ intervals w = {[ id := t ]}
  else intervals w = ∅.

(** No [start] is suspended while the metronome plays, and the interval
    table is that of [oneInterval]. *)
Definition playsOne (w : World) : Prop :=
  (awaitingResume w <> [] -> isPlaying w = false) /\ oneInterval w.

(** The hook at rest: stopped, no [start] under way, no interval, and only
    stale restarts scheduled. *)
Definition calm (w : World) : Prop :=
  isPlaying w = false /\ startInProgressRef w = false /\
  awaitingResume w = [] /\ restartsStale w /\ intervals w = ∅.

(** No [start] is under way, only stale restarts are scheduled, and the
    interval table is that of [oneInterval]. *)
Definition tame (w : World) : Prop :=
  startInProgressRef w = false /\ awaitingResume w = [] /\
  restartsStale w /\ oneInterval w.

End Metronome.

(** ** useDebouncedSlider (src/unnamed/part_006) *)

Module DebouncedSlider.

Section Hook.

Context {T : Type} `{EqDecision T}.

(** What a scheduled timeout does when it fires: [handleEnd] schedules
    [onSave(valueRef.current)], which reads the ref when it runs;
    [handleChange] schedules [onSave(newValue)], with the value of the
    call. *)
Inductive SaveTask :=
| SaveLive
| SaveCaptured (v : T).

Record Timeout := mkTimeout {
  to_due : Z;
  to_task : SaveTask
}.

(** The hook's state ([value], [isInteracting], [isPending]), its refs,
    the [initialValue] prop of the last render, and the host's side: the
    clock, the [setTimeout] table and the calls of [onSave] made so far
    (latest first). *)
Record State := mkState {
  value : T;
  isInteracting : bool;
  isPending : bool;
  isInteractingRef : bool;
  valueRef : T;
  timeoutRef : option nat;
  initialValue : T;
  now : Z;
  timeouts : gmap nat Timeout;
  nextTimerId : nat;
  saved : list T
}.

Definition setValue (v : T) (s : State) : State :=
  mkState v (isInteracting s) (isPending s) (isInteractingRef s)
    (valueRef s) (timeoutRef s) (initialValue s) (now s) (timeouts s)
    (nextTimerId s) (saved s).

Definition setIsInteracting (b : bool) (s : State) : State :=
  mkState (value s) b (isPending s) (isInteractingRef s)
    (valueRef s) (timeoutRef s) (initialValue s) (now s) (timeouts s)
    (nextTimerId s) (saved s).

Definition setIsPending (b : bool) (s : State) : State :=
  mkState (value s) (isInteracting s) b (isInteractingRef s)
    (valueRef s) (timeoutRef s) (initialValue s) (now s) (timeouts s)
    (nextTimerId s) (saved s).

Definition set_isInteractingRef (b : bool) (s : State) : State :=
  mkState (value s) (isInteracting s) (isPending s) b
    (valueRef s) (timeoutRef s) (initialValue s) (now s) (timeouts s)
    (nextTimerId s) (saved s).

Definition set_valueRef (v : T) (s : State) : State :=
  mkState (value s) (isInteracting s) (isPending s) (isInteractingRef s)
    v (timeoutRef s) (initialValue s) (now s) (timeouts s)
    (nextTimerId s) (saved s).

Definition set_timeoutRef (r : option nat) (s : State) : State :=
  mkState (value s) (isInteracting s) (isPending s) (isInteractingRef s)
    (valueRef s) r (initialValue s) (now s) (timeouts s)
    (nextTimerId s) (saved s).

Definition set_initialValue (v : T) (s : State) : State :=
  mkState (value s) (isInteracting s) (isPending s) (isInteractingRef s)
    (valueRef s) (timeoutRef s) v (now s) (timeouts s)
    (nextTimerId s) (saved s).

Definition set_now (t : Z) (s : State) : State :=
  mkState (value s) (isInteracting s) (isPending s) (isInteractingRef s)
    (valueRef s) (timeoutRef s) (initialValue s) t (timeouts s)
    (nextTimerId s) (saved s).

Definition set_timeouts (m : gmap nat Timeout) (s : State) : State :=
  mkState (value s) (isInteracting s) (isPending s) (isInteractingRef s)
    (valueRef s) (timeoutRef s) (initialValue s) (now s) m
    (nextTimerId s) (saved s).

Definition set_nextTimerId (n : nat) (s : State) : State :=
  mkState (value s) (isInteracting s) (isPending s) (isInteractingRef s)
    (valueRef s) (timeoutRef s) (initialValue s) (now s) (timeouts s)
    n (saved s).

Definition set_saved (l : list T) (s : State) : State :=
  mkState (value s) (isInteracting s) (isPending s) (isInteractingRef s)
    (valueRef s) (timeoutRef s) (initialValue s) (now s) (timeouts s)
    (nextTimerId s) l.

(** The hook after its first render with [initialValue = v]. *)
Definition mounted (v : T) : State :=
  mkState v false false false v None v 0 ∅ 1%nat [].

(** The [debounceMs] prop (1000 by default). *)
Variable debounceMs : Z.

Definition hostSetTimeout (task : SaveTask) (s : State) : nat * State :=
  let id := nextTimerId s in
  (id, set_nextTimerId (S id)
         (set_timeouts
            (<[id := mkTimeout (now s + debounceMs) task]> (timeouts s)) s)).

Definition hostClearTimeout (id : nat) (s : State) : State :=
  set_timeouts (delete id (timeouts s)) s.

(** The effect on [initialValue] (lines 44-50): it runs when the prop
    differs from that of the previous render. *)
Definition initialValueEffect (v : T) (s : State) : State :=
  if isInteractingRef s then s
  else set_valueRef v (setValue v s).

Definition renderWith (v : T) (s : State) : State :=
  if decide (v = initialValue s) then s
  else initialValueEffect v (set_initialValue v s).

(** cancelSave (lines 60-66). *)
Definition cancelSave (s : State) : State :=
  let s :=
    match timeoutRef s with
    | Some id => set_timeoutRef None (hostClearTimeout id s)
    | None => s
    end in
  setIsPending false s.

(** handleStart (lines 69-73). *)
Definition handleStart (s : State) : State :=
  cancelSave (setIsInteracting true (set_isInteractingRef true s)).

(** handleEnd (lines 76-91). *)
Definition handleEnd (s : State) : State :=
  let s := setIsInteracting false (set_isInteractingRef false s) in
  let s := setIsPending true s in
  let '(id, s) := hostSetTimeout SaveLive s in
  set_timeoutRef (Some id) s.

(** handleChange (lines 94-113). *)
Definition handleChange (newValue : T) (s : State) : State :=
  let s := setValue newValue (set_valueRef newValue s) in
  if isInteractingRef s then s
  else
    let s := setIsPending true (cancelSave s) in
    let '(id, s) := hostSetTimeout (SaveCaptured newValue) s in
    set_timeoutRef (Some id) s.

(** The body of a scheduled timeout: [onSave] is called inside a [try]
    whose [catch] only logs, and [finally] clears [isPending]; so the
    call is recorded whether or not [onSave] throws. *)
Definition runSave (task : SaveTask) (s : State) : State :=
  let v := match task with
           | SaveLive => valueRef s
           | SaveCaptured v => v
           end in
  setIsPending false (set_saved (v :: saved s) s).

(** The host runs the timeout [id] when it is due. *)
Definition fireTimeout (id : nat) (s : State) : State :=
  match timeouts s !! id with
  | None => s
  | Some t =>
      let s := set_now (Z.max (now s) (to_due t)) s in
      runSave (to_task t) (set_timeouts (delete id (timeouts s)) s)
  end.

Inductive Event :=
| OnStart
| OnEnd
| OnChange (v : T)
| Render (v : T)
| Fire (id : nat).

Definition step (e : Event) (s : State) : State :=
  match e with
  | OnStart => handleStart s
  | OnEnd => handleEnd s
  | OnChange v => handleChange v s
  | Render v => renderWith v s
  | Fire id => fireTimeout id s
  end.

Definition run (es : list Event) (s : State) : State :=
  fold_left (fun s e => step e s) es s.

(** One interaction: [onStart], the [onChange] calls, [onEnd]. *)
Definition interaction (vs : list T) (s : State) : State :=
  handleEnd (fold_left (fun s v => handleChange v s) vs (handleStart s)).

(** The events that do not write the live value. *)
Definition keepsValue (e : Event) : bool :=
  match e with
  | OnChange _ | Render _ => false
  | OnStart | OnEnd | Fire _ => true
  end.

(** [onEnd] is only called during an interaction. *)
Fixpoint bracketed (es : list Event) (s : State) : bool :=
  match es with
  | [] => true
  | e :: es =>
      match e with
      | OnEnd => isInteractingRef s
      | _ => true
      end && bracketed es (step e s)
  end.

(** Every timeout of the host's table is the one [timeoutRef] holds. *)
Definition tracked (s : State) : Prop :=
  forall id t, timeouts s !! id = Some t -> timeoutRef s = Some id.

(** Timeouts are tracked and, during an interaction, none is scheduled. *)
Definition settled (s : State) : Prop :=
  tracked s /\ (isInteractingRef s = true -> timeouts s = ∅).

(** The cleanup of the unmount effect (lines 53-57). *)
Definition unmount (s : State) : State :=
  match timeoutRef s with
  | Some id => hostClearTimeout id s
  | None => s
  end.

(** [onChange] called with each value of [vs] in turn. *)
Definition changes (vs : list T) (s : State) : State :=
  fold_left (fun s v => handleChange v s) vs s.

(** [isPending] tells whether a save is scheduled, and a scheduled save is
    the one [timeoutRef] holds. *)
Definition pendingShown (s : State) : Prop :=
  if isPending s
  then exists id t, timeoutRef s = Some id /\ timeouts s = {[ id := t ]}
  else timeouts s = ∅.

End Hook.

Arguments SaveTask : clear implicits.
Arguments Timeout : clear implicits.
Arguments State : clear implicits.
Arguments Event : clear implicits.

End DebouncedSlider.

(** ** useScreenWakeLock (src/hooks/useKeyboardShortcuts.ts, second file) *)

Module WakeLock.

(** A [WakeLockSentinel]. *)
Record Sentinel := mkSentinel { released : bool }.

(** A [NoSleep] instance; [ns_enabled] is the library's own flag. *)
Record NoSleep := mkNoSleep { ns_enabled : bool }.

Record State := mkState {
  isWakeLockActive : bool;
  isWakeLockSupported : bool;
  wakeLockRef : option Sentinel;
  noSleepRef : option NoSleep;
  hasInitializedRef : bool
}.

Definition initial : State := mkState false false None None false.

(** What the platform does during one call of [enableWakeLock]. *)
Record Platform := mkPlatform {
  hasWindow : bool;            (* typeof window !== 'undefined' *)
  noSleepConstructs : bool;    (* new NoSleep() returns *)
  noSleepEnables : bool;       (* noSleep.enable() resolves *)
  hasNativeApi : bool;         (* 'wakeLock' in navigator && navigator.wakeLock *)
  nativeGrants : bool          (* navigator.wakeLock.request('screen') resolves *)
}.

Inductive Exception := NoSleepError | EnableError | RequestError.

(** A computation on the hook's state that returns or throws. *)
Definition M (A : Type) : Type := State -> State * (Exception + A).

Definition ret {A} (a : A) : M A := fun s => (s, inr a).
Definition throw {A} (e : Exception) : M A := fun s => (s, inl e).
Definition bind {A B} (m : M A) (k : A -> M B) : M B :=
  fun s => match m s with
           | (s', inl e) => (s', inl e)
           | (s', inr a) => k a s'
           end.
(** [try { body } catch (err) { handler }]. *)
Definition try_catch {A} (body : M A) (handler : Exception -> M A) : M A :=
  fun s => match body s with
           | (s', inl e) => handler e s'
           | (s', inr a) => (s', inr a)
           end.
Definition get : M State := fun s => (s, inr s).
Definition modify (f : State -> State) : M unit := fun s => (f s, inr tt).

Notation "'let*' x ':=' m 'in' k" := (bind m (fun x => k))
  (at level 10, x name, m at level 100, k at level 200).
Notation "m '>>' k" := (bind m (fun _ => k))
  (at level 90, right associativity).

Definition setIsWakeLockActive (b : bool) : M unit :=
  modify (fun s => mkState b (isWakeLockSupported s) (wakeLockRef s)
                     (noSleepRef s) (hasInitializedRef s)).

Definition set_wakeLockRef (r : option Sentinel) : M unit :=
  modify (fun s => mkState (isWakeLockActive s) (isWakeLockSupported s) r
                     (noSleepRef s) (hasInitializedRef s)).

Definition set_noSleepRef (r : option NoSleep) : M unit :=
  modify (fun s => mkState (isWakeLockActive s) (isWakeLockSupported s)
                     (wakeLockRef s) r (hasInitializedRef s)).

(** [new NoSleep()]. *)
Definition newNoSleep (p : Platform) : M NoSleep :=
  if noSleepConstructs p then ret (mkNoSleep false) else throw NoSleepError.

(** [noSleepRef.current.enable()]. *)
Definition noSleepEnable (p : Platform) : M unit :=
  if noSleepEnables p
  then let* s := get in
       match noSleepRef s with
       | Some _ => set_noSleepRef (Some (mkNoSleep true))
       | None => ret tt
       end
  else throw EnableError.

(** [navigator.wakeLock.request('screen')]. *)
Definition nativeRequest (p : Platform) : M Sentinel :=
  if nativeGrants p then ret (mkSentinel false) else throw RequestError.

(** initNoSleep (lines 197-209). *)
Definition initNoSleep (p : Platform) : M bool :=
  let* s := get in
  if negb (bool_decide (is_Some (noSleepRef s))) && hasWindow p
  then try_catch
         (let* n := newNoSleep p in set_noSleepRef (Some n) >> ret true)
         (fun _ => ret false)
  else ret (bool_decide (is_Some (noSleepRef s))).

(** enableWakeLock (lines 230-288). The function is [async];
    its [await]s are taken in one go, the platform's answers being fixed
    by [p]. *)
Definition enableWakeLock (p : Platform) : M bool :=
  let* _ := initNoSleep p in
  let* s := get in
  let* wakeLockSuccess :=
    match noSleepRef s with
    | Some _ =>
        try_catch
          (noSleepEnable p >> setIsWakeLockActive true >> ret true)
          (fun _ => ret false)
    | None => ret false
    end in
  let* wakeLockSuccess :=
    if negb wakeLockSuccess && hasWindow p
    then
      if hasNativeApi p
      then try_catch
             (let* wakeLock := nativeRequest p in
              set_wakeLockRef (Some wakeLock) >>
              setIsWakeLockActive true >>
              ret true)
             (fun _ => ret wakeLockSuccess)
      else ret wakeLockSuccess
    else ret wakeLockSuccess in
  (if wakeLockSuccess then ret tt else setIsWakeLockActive false) >>
  ret wakeLockSuccess.

(** The two mechanisms, as the call finds them: the fallback succeeds when
    a [NoSleep] instance is there or can be built and its [enable()]
    resolves; the native lock succeeds when the API is there and grants the
    request. *)
Definition fallbackSucceeds (p : Platform) (s : State) : bool :=
  (bool_decide (is_Some (noSleepRef s)) || (hasWindow p && noSleepConstructs p))
  && noSleepEnables p.

Definition nativeSucceeds (p : Platform) : bool :=
  hasWindow p && hasNativeApi p && nativeGrants p.

(** *** The support check (the effect of lines 212-223) *)

Definition setIsWakeLockSupported (b : bool) : M unit :=
  modify (fun s => mkState (isWakeLockActive s) b (wakeLockRef s)
                     (noSleepRef s) (hasInitializedRef s)).

Definition set_hasInitializedRef (b : bool) : M unit :=
  modify (fun s => mkState (isWakeLockActive s) (isWakeLockSupported s)
                     (wakeLockRef s) (noSleepRef s) b).

(** [inNavigator] is ['wakeLock' in navigator]; [initNoSleep()] is only
    evaluated when it is false. *)
Definition supportEffect (p : Platform) (inNavigator : bool) : M unit :=
  let* s := get in
  if hasWindow p && negb (hasInitializedRef s)
  then
    let* isSupported := (if inNavigator then ret true else initNoSleep p) in
    setIsWakeLockSupported isSupported >> set_hasInitializedRef true
  else ret tt.

(** *** The listener of the sentinel's release event (lines 263-272) *)

Definition onRelease : M unit :=
  set_wakeLockRef None >>
  let* s := get in
  if bool_decide (is_Some (noSleepRef s)) then ret tt
  else setIsWakeLockActive false.

(** *** disableWakeLock (lines 293-316) *)

(** What the platform does during one call of [disableWakeLock]. *)
Record ReleasePlatform := mkReleasePlatform {
  noSleepDisables : bool;      (* noSleep.disable() returns *)
  nativeReleases : bool        (* sentinel.release() resolves *)
}.

(** [noSleepRef.current.disable()]. What it throws is only logged by the
    caller; [NoSleepError] stands for any error of the NoSleep instance. *)
Definition noSleepDisable (p : ReleasePlatform) : M unit :=
  if noSleepDisables p
  then let* s := get in
       match noSleepRef s with
       | Some _ => set_noSleepRef (Some (mkNoSleep false))
       | None => ret tt
       end
  else throw NoSleepError.

(** [wakeLockRef.current.release()]: when it resolves, the sentinel has
    been released and its release event has run the listener. A rejection
    is only logged by the caller; [RequestError] stands for any rejection
    of the native API. *)
Definition nativeRelease (p : ReleasePlatform) : M unit :=
  if nativeReleases p then onRelease else throw RequestError.

Definition disableWakeLock (p : ReleasePlatform) : M unit :=
  let* s := get in
  match noSleepRef s with
  | Some _ => try_catch (noSleepDisable p) (fun _ => ret tt)
  | None => ret tt
  end >>
  let* s := get in
  match wakeLockRef s with
  | Some lock =>
      if negb (released lock)
      then try_catch (nativeRelease p) (fun _ => ret tt) >> set_wakeLockRef None
      else ret tt
  | None => ret tt
  end >>
  setIsWakeLockActive false.

(** One of the two mechanisms holds the screen awake: the NoSleep instance
    is enabled, or a native sentinel is held that has not been released. *)
Definition engaged (s : State) : bool :=
  from_option ns_enabled false (noSleepRef s)
  || from_option (fun lock => negb (released lock)) false (wakeLockRef s).

End WakeLock.

(** ** The in-progress practice session (the [PracticeSession] interface of
       both mobile timers) *)

Module Session.

(** [{ start: Date; end?: Date }], dates as [getTime()] milliseconds. *)
Record Pause := mkPause {
  p_start : Z;
  p_end : option Z
}.

Record PracticeSession := mkSession {
  startTime : Z;
  endTime : option Z;
  duration : nat;
  notes : string;
  pauses : list Pause
}.

(** The object literal both timers initialise [sessionRef.current] with. *)
Definition freshSession (t : Z) (n : string) : PracticeSession :=
  mkSession t None O n [].

Definition set_startTime (t : Z) (s : PracticeSession) : PracticeSession :=
  mkSession t (endTime s) (duration s) (notes s) (pauses s).

Definition set_endTime (t : option Z) (s : PracticeSession) : PracticeSession :=
  mkSession (startTime s) t (duration s) (notes s) (pauses s).

Definition set_duration (d : nat) (s : PracticeSession) : PracticeSession :=
  mkSession (startTime s) (endTime s) d (notes s) (pauses s).

Definition set_notes (n : string) (s : PracticeSession) : PracticeSession :=
  mkSession (startTime s) (endTime s) (duration s) n (pauses s).

Definition set_pauses (l : list Pause) (s : PracticeSession) : PracticeSession :=
  mkSession (startTime s) (endTime s) (duration s) (notes s) l.

(** [pauses.push({ start: new Date() })]. *)
Definition pushPause (t : Z) (s : PracticeSession) : PracticeSession :=
  set_pauses (pauses s ++ [mkPause t None]) s.

(** [const lastPause = pauses[pauses.length - 1];
     if (lastPause && !lastPause.end) lastPause.end = new Date()]:
    the last element is updated in place. *)
Definition closeLastPause (t : Z) (s : PracticeSession) : PracticeSession :=
  match last (pauses s) with
  | Some p =>
      match p_end p with
      | None =>
          set_pauses
            (<[Nat.pred (length (pauses s)) := mkPause (p_start p) (Some t)]>
               (pauses s)) s
      | Some _ => s
      end
  | None => s
  end.

Definition isOpen (p : Pause) : bool :=
  match p_end p with
  | None => true
  | Some _ => false
  end.

(** Number of pause intervals whose [end] is unset. *)
Definition openPauses (l : list Pause) : nat := length (List.filter isOpen l).

(** The invariant of the spec's data model: at most one open pause, and an
    open pause exactly when the timer is paused. *)
Definition pauseInvariant (isPaused : bool) (l : list Pause) : Prop :=
  (openPauses l <= 1)%nat /\ ((0 < openPauses l)%nat <-> isPaused = true).

(** The shape the timers keep the list in: closed pauses, followed by one
    open pause exactly when the timer is paused. *)
Definition wellPaused (isPaused : bool) (l : list Pause) : Prop :=
  exists closedPart,
    Forall (fun p => isOpen p = false) closedPart /\
    if isPaused then exists t, l = closedPart ++ [mkPause t None]
    else l = closedPart.

(** Length of a pause interval, an open one being closed at [stopT]. *)
Definition pauseLength (stopT : Z) (p : Pause) : Z :=
  default stopT (p_end p) - p_start p.


(** A row of [practice_sessions] as the timers insert it. *)
Record Row := mkRow {
  user_id : nat;
  song_id : nat;
  duration_minutes : Z;
  row_notes : string
}.

(** The answer of the backend to an insert. *)
Inductive Backend := InsertOk | InsertError.

End Session.

(** ** MobilePracticeTimer (src/components/MobilePracticeTimer.tsx)

    Each handler is one step: [await enableWakeLock()], the insert and
    [await disableWakeLock()] settle before the next event. The wake lock
    itself is the subject of [WakeLock]. *)

Module MobilePracticeTimer.

Import Session.

Record State := mkState {
  seconds : nat;
  isRunning : bool;
  isPaused : bool;
  isSaving : bool;
  songNotes : string;
  sessionRef : option PracticeSession;
  user : option nat;
  song : nat;
  inserted : list Row;        (* rows of practice_sessions, latest first *)
  stopped : bool              (* onStop() has been called *)
}.

Definition setSeconds (n : nat) (s : State) : State :=
  mkState n (isRunning s) (isPaused s) (isSaving s) (songNotes s)
    (sessionRef s) (user s) (song s) (inserted s) (stopped s).

Definition setIsRunning (b : bool) (s : State) : State :=
  mkState (seconds s) b (isPaused s) (isSaving s) (songNotes s)
    (sessionRef s) (user s) (song s) (inserted s) (stopped s).

Definition setIsPaused (b : bool) (s : State) : State :=
  mkState (seconds s) (isRunning s) b (isSaving s) (songNotes s)
    (sessionRef s) (user s) (song s) (inserted s) (stopped s).

Definition setIsSaving (b : bool) (s : State) : State :=
  mkState (seconds s) (isRunning s) (isPaused s) b (songNotes s)
    (sessionRef s) (user s) (song s) (inserted s) (stopped s).

Definition set_sessionRef (r : option PracticeSession) (s : State) : State :=
  mkState (seconds s) (isRunning s) (isPaused s) (isSaving s) (songNotes s)
    r (user s) (song s) (inserted s) (stopped s).

Definition set_inserted (l : list Row) (s : State) : State :=
  mkState (seconds s) (isRunning s) (isPaused s) (isSaving s) (songNotes s)
    (sessionRef s) (user s) (song s) l (stopped s).

Definition set_stopped (b : bool) (s : State) : State :=
  mkState (seconds s) (isRunning s) (isPaused s) (isSaving s) (songNotes s)
    (sessionRef s) (user s) (song s) (inserted s) b.

(** The component once its mount effect (lines 105-119) has run at time
    [t]. *)
Definition mounted (t : Z) (u : option nat) (sg : nat) (n : string) : State :=
  mkState O false false false n (Some (freshSession t EmptyString)) u sg [] false.

(** The 1-second interval of the timer effect (lines 135-152). *)
Definition tick (s : State) : State :=
  if isRunning s && negb (isPaused s) then setSeconds (S (seconds s)) s else s.

(** handlePlayPause (lines 202-228); [t] is [new Date()]. *)
Definition handlePlayPause (t : Z) (s : State) : State :=
  if negb (isRunning s) then
    let s := setIsPaused false (setIsRunning true s) in
    set_sessionRef (set_startTime t <$> sessionRef s) s
  else if isPaused s then
    let s := setIsPaused false s in
    set_sessionRef (closeLastPause t <$> sessionRef s) s
  else
    let s := setIsPaused true s in
    set_sessionRef (pushPause t <$> sessionRef s) s.

(** Lines 263-268: the [forEach] over [session.pauses]. *)
Definition totalPauseTime (endT : Z) (l : list Pause) : Z :=
  fold_left (fun acc p => acc + (default endT (p_end p) - p_start p)) l 0.

(** Lines 270-273. *)
Definition durationMinutes (endT : Z) (session : PracticeSession) : Z :=
  let totalTime := endT - startTime session in
  let practiceTime := JS.max 0 (totalTime - totalPauseTime endT (pauses session)) in
  JS.round_div practiceTime (1000 * 60).

(** savePracticeSession (lines 254-293); [t] is the [new Date()] of
    line 261. A failed insert is caught and only reported. *)
Definition savePracticeSession (t : Z) (b : Backend) (s : State) : State :=
  match user s, sessionRef s with
  | Some u, Some session =>
      if Nat.eqb (seconds s) 0 then s
      else
        let s := setIsSaving true s in
        let row := mkRow u (song s) (durationMinutes t session) (songNotes s) in
        let s := match b with
                 | InsertOk => set_inserted (row :: inserted s) s
                 | InsertError => s
                 end in
        setIsSaving false s
  | _, _ => s
  end.

(** handleStop (lines 295-303). *)
Definition handleStop (t : Z) (b : Backend) (s : State) : State :=
  let s := savePracticeSession t b s in
  let s := setSeconds O (setIsPaused false (setIsRunning false s)) in
  set_stopped true s.

Inductive Event :=
| PressPlayPause (t : Z)             (* the play/pause button, or the space bar *)
| PressStop (t : Z) (b : Backend)    (* the stop button *)
| Tick.

(** The stop button is [disabled] while [seconds === 0 || isSaving]. *)
Definition step (e : Event) (s : State) : State :=
  match e with
  | PressPlayPause t => handlePlayPause t s
  | PressStop t b =>
      if Nat.eqb (seconds s) 0 || isSaving s then s else handleStop t b s
  | Tick => tick s
  end.

Definition run (es : list Event) (s : State) : State :=
  fold_left (fun s e => step e s) es s.

(** The pause list of the session in progress. *)
Definition pausesOf (s : State) : list Pause :=
  from_option pauses [] (sessionRef s).

(** What holds of the component as long as no stop is pressed while
    paused. *)
Definition timerInv (s : State) : Prop :=
  exists session,
    sessionRef s = Some session /\
    wellPaused (isPaused s) (pauses session) /\
    (isPaused s = true -> isRunning s = true).

(** A stop pressed while the timer is paused. *)
Definition stopsWhilePaused (e : Event) (s : State) : bool :=
  match e with
  | PressStop _ _ => isPaused s
  | _ => false
  end.

(** No event of the run is a stop pressed while paused. *)
Fixpoint neverStopsPaused (es : list Event) (s : State) : bool :=
  match es with
  | [] => true
  | e :: es => negb (stopsWhilePaused e s) && neverStopsPaused es (step e s)
  end.

(** The stop presses of a run whose insert the backend accepts. *)
Definition acceptedStops (es : list Event) : nat :=
  length (List.filter (fun e => match e with
                                | PressStop _ InsertOk => true
                                | _ => false
                                end) es).

(** What every row the component inserts satisfies. *)
Definition rowOk (u : option nat) (sg : nat) (r : Row) : Prop :=
  0 <= duration_minutes r /\ song_id r = sg /\ u = Some (user_id r).

End MobilePracticeTimer.

(** ** MobileOptimizedTimer (src/components/MobileOptimizedTimer.tsx)

    Each handler is one step: the insert awaited by [handleStop] settles
    before the next event. The events are the three buttons and the tick.
    The metronome hook is left out, and with it the calls of [stopMetronome]
    and the renders in which the effect of lines 82-94 runs again (it
    re-initialises the session when the song or the identity of the
    metronome's [updateSettings] changes). *)

Module MobileOptimizedTimer.

Import Session.

Record State := mkState {
  time : nat;
  isRunning : bool;
  isPaused : bool;
  isSaving : bool;
  songNotes : string;
  sessionRef : option PracticeSession;
  intervalRef : option nat;
  nextTimerId : nat;
  user : option nat;
  song : nat;
  inserted : list Row
}.

Definition setTime (n : nat) (s : State) : State :=
  mkState n (isRunning s) (isPaused s) (isSaving s) (songNotes s)
    (sessionRef s) (intervalRef s) (nextTimerId s) (user s) (song s)
    (inserted s).

Definition setIsRunning (b : bool) (s : State) : State :=
  mkState (time s) b (isPaused s) (isSaving s) (songNotes s)
    (sessionRef s) (intervalRef s) (nextTimerId s) (user s) (song s)
    (inserted s).

Definition setIsPaused (b : bool) (s : State) : State :=
  mkState (time s) (isRunning s) b (isSaving s) (songNotes s)
    (sessionRef s) (intervalRef s) (nextTimerId s) (user s) (song s)
    (inserted s).

Definition setIsSaving (b : bool) (s : State) : State :=
  mkState (time s) (isRunning s) (isPaused s) b (songNotes s)
    (sessionRef s) (intervalRef s) (nextTimerId s) (user s) (song s)
    (inserted s).

Definition set_sessionRef (r : option PracticeSession) (s : State) : State :=
  mkState (time s) (isRunning s) (isPaused s) (isSaving s) (songNotes s)
    r (intervalRef s) (nextTimerId s) (user s) (song s) (inserted s).

Definition set_intervalRef (r : option nat) (s : State) : State :=
  mkState (time s) (isRunning s) (isPaused s) (isSaving s) (songNotes s)
    (sessionRef s) r (nextTimerId s) (user s) (song s) (inserted s).

Definition set_nextTimerId (n : nat) (s : State) : State :=
  mkState (time s) (isRunning s) (isPaused s) (isSaving s) (songNotes s)
    (sessionRef s) (intervalRef s) n (user s) (song s) (inserted s).

Definition set_inserted (l : list Row) (s : State) : State :=
  mkState (time s) (isRunning s) (isPaused s) (isSaving s) (songNotes s)
    (sessionRef s) (intervalRef s) (nextTimerId s) (user s) (song s) l.

(** The component once its first effect (lines 82-94) has run at time
    [t]. *)
Definition mounted (t : Z) (u : option nat) (sg : nat) (n : string) : State :=
  mkState O false false false n (Some (freshSession t EmptyString)) None 1%nat u sg [].

(** The interval callback of lines 246-254: it exists while
    [intervalRef.current] holds its handle. *)
Definition tick (s : State) : State :=
  match intervalRef s with
  | Some _ =>
      let newTime := S (time s) in
      setTime newTime
        (set_sessionRef (set_duration newTime <$> sessionRef s) s)
  | None => s
  end.

(** [if (intervalRef.current) { clearInterval(...); intervalRef.current = null }] *)
Definition clearTick (s : State) : State := set_intervalRef None s.

(** savePracticeSession (lines 183-213). *)
Definition durationMinutes (session : PracticeSession) : Z :=
  JS.round_div (Z.of_nat (duration session)) 60.

Definition savePracticeSession (b : Backend) (s : State) : State :=
  match user s, sessionRef s with
  | Some u, Some session =>
      let s := setIsSaving true s in
      let m := durationMinutes session in
      let s :=
        if 0 <? m then
          match b with
          | InsertOk => set_inserted (mkRow u (song s) m (songNotes s) :: inserted s) s
          | InsertError => s
          end
        else s in
      setIsSaving false s
  | _, _ => s
  end.

(** handleStart (lines 215-257). *)
Definition handleStart (t : Z) (s : State) : State :=
  let s :=
    if isPaused s then
      let s := setIsPaused false s in
      set_sessionRef (closeLastPause t <$> sessionRef s) s
    else
      let s := setTime O s in
      set_sessionRef (Some (freshSession t (songNotes s))) s in
  let s := setIsRunning true s in
  let s := clearTick s in
  set_nextTimerId (S (nextTimerId s)) (set_intervalRef (Some (nextTimerId s)) s).

(** handlePause (lines 259-274). *)
Definition handlePause (t : Z) (s : State) : State :=
  let s := setIsPaused true (setIsRunning false s) in
  let s := clearTick s in
  set_sessionRef (pushPause t <$> sessionRef s) s.

(** handleStop (lines 276-313); [t] is the [new Date()] of line 289 and
    [t'] that of line 304. *)
Definition handleStop (t t' : Z) (b : Backend) (s : State) : State :=
  if Nat.eqb (time s) 0 || isSaving s then s
  else
    let s := setIsPaused false (setIsRunning false s) in
    let s := clearTick s in
    let s :=
      set_sessionRef
        (set_notes (songNotes s) <$> (set_endTime (Some t) <$> sessionRef s)) s in
    let s := savePracticeSession b s in
    let s := setTime O s in
    set_sessionRef (Some (freshSession t' (songNotes s))) s.

Inductive Event :=
| PressStart (t : Z)
| PressPause (t : Z)
| PressStop (t t' : Z) (b : Backend)
| Tick.

(** Lines 410-424 render the start button while [!isRunning] and the pause
    button otherwise; the stop button is [disabled] while
    [time === 0 || isSaving]. *)
Definition step (e : Event) (s : State) : State :=
  match e with
  | PressStart t => if isRunning s then s else handleStart t s
  | PressPause t => if isRunning s then handlePause t s else s
  | PressStop t t' b => handleStop t t' b s
  | Tick => tick s
  end.

Definition run (es : list Event) (s : State) : State :=
  fold_left (fun s e => step e s) es s.

Definition pausesOf (s : State) : list Pause :=
  from_option pauses [] (sessionRef s).

(** What holds of the component in every state it reaches: the pause list
    is well formed, a running timer is not paused, the session's
    [duration] is the tick counter, and no save is under way between two
    events. *)
Definition timerInv (s : State) : Prop :=
  exists session,
    sessionRef s = Some session /\
    wellPaused (isPaused s) (pauses session) /\
    (isRunning s = true -> isPaused s = false) /\
    duration session = time s /\
    isSaving s = false.

(** The stop presses of a run whose insert the backend accepts. *)
Definition acceptedStops (es : list Event) : nat :=
  length (List.filter (fun e => match e with
                                | PressStop _ _ InsertOk => true
                                | _ => false
                                end) es).

(** What every row the component inserts satisfies. *)
Definition rowOk (u : option nat) (sg : nat) (r : Row) : Prop :=
  1 <= duration_minutes r /\ song_id r = sg /\ u = Some (user_id r).

(** The tick interval exists exactly while the timer runs. *)
Definition ticksWhileRunning (s : State) : Prop :=
  if isRunning s then is_Some (intervalRef s) else intervalRef s = None.

Definition setSongNotes (n : string) (s : State) : State :=
  mkState (time s) (isRunning s) (isPaused s) (isSaving s) n
    (sessionRef s) (intervalRef s) (nextTimerId s) (user s) (song s)
    (inserted s).

(** What the timer keeps whatever the metronome's renders do to the
    session: the tick interval exists exactly while running, a paused timer
    is not running, and no save is under way between two events. *)
Definition steady (s : State) : Prop :=
  ticksWhileRunning s /\ (isPaused s = true -> isRunning s = false) /\
  isSaving s = false.


End MobileOptimizedTimer.

(** ** formatTime (MobilePracticeTimer.tsx lines 191-200 and
       MobileOptimizedTimer.tsx lines 171-180, the same function)

    Strings are sequences of characters; the ones built here are ASCII. *)

Module TimeDisplay.

Local Open Scope string_scope.

(** [Number.prototype.toString] on a non-negative integer: its decimal
    digits, without leading zeros. *)
Definition toString (n : nat) : string := pretty n.

Fixpoint zeros (k : nat) : string :=
  match k with
  | O => EmptyString
  | S k => String "0"%char (zeros k)
  end.

(** [s.padStart(targetLength, '0')]. *)
Definition padStart (targetLength : nat) (s : string) : string :=
  zeros (targetLength - String.length s) +:+ s.

Definition formatTime (totalSeconds : nat) : string :=
  let hours := (totalSeconds / 3600)%nat in
  let minutes := ((totalSeconds mod 3600) / 60)%nat in
  let secs := (totalSeconds mod 60)%nat in
  if (0 <? hours)%nat
  then toString hours +:+ ":" +:+ padStart 2 (toString minutes)
       +:+ ":" +:+ padStart 2 (toString secs)
  else toString minutes +:+ ":" +:+ padStart 2 (toString secs).

(** Reading a formatted time: whether a string holds a colon, and the
    parts before and after the first one. *)
Fixpoint hasColon (s : string) : bool :=
  match s with
  | EmptyString => false
  | String c r => Ascii.eqb c ":"%char || hasColon r
  end.

Fixpoint beforeColon (s : string) : string :=
  match s with
  | EmptyString => EmptyString
  | String c r => if Ascii.eqb c ":"%char then EmptyString else String c (beforeColon r)
  end.

Fixpoint afterColon (s : string) : string :=
  match s with
  | EmptyString => EmptyString
  | String c r => if Ascii.eqb c ":"%char then r else afterColon r
  end.

(** The two digits of a number below 100. *)
Definition twoDigits (x : nat) : string :=
  String (pretty_N_char (N.of_nat (x / 10)))
    (String (pretty_N_char (N.of_nat (x mod 10))) EmptyString).

End TimeDisplay.

(** ** PracticeTimer, the desktop timer (the third file of
       src/components/CreateFolderDialog.tsx, lines 638-1077)

    Each handler is one step, as for the mobile timers. The session is
    the same [PracticeSession]; the duration saved is taken from the tick
    counter and is at least one minute. *)

Module PracticeTimer.

Import Session.

(** A row as this component inserts it: [notes] is
    [songNotes.trim() || null]. *)
Record NotedRow := mkNotedRow {
  nr_user_id : nat;
  nr_song_id : nat;
  nr_duration_minutes : Z;
  nr_notes : option string
}.

Record State := mkState {
  seconds : nat;
  isRunning : bool;
  isPaused : bool;
  isSaving : bool;
  songNotes : string;
  sessionRef : option PracticeSession;
  user : option nat;
  song : nat;
  inserted : list NotedRow
}.

Definition setSeconds (n : nat) (s : State) : State :=
  mkState n (isRunning s) (isPaused s) (isSaving s) (songNotes s)
    (sessionRef s) (user s) (song s) (inserted s).

Definition setIsRunning (b : bool) (s : State) : State :=
  mkState (seconds s) b (isPaused s) (isSaving s) (songNotes s)
    (sessionRef s) (user s) (song s) (inserted s).

Definition setIsPaused (b : bool) (s : State) : State :=
  mkState (seconds s) (isRunning s) b (isSaving s) (songNotes s)
    (sessionRef s) (user s) (song s) (inserted s).

Definition setIsSaving (b : bool) (s : State) : State :=
  mkState (seconds s) (isRunning s) (isPaused s) b (songNotes s)
    (sessionRef s) (user s) (song s) (inserted s).

Definition set_sessionRef (r : option PracticeSession) (s : State) : State :=
  mkState (seconds s) (isRunning s) (isPaused s) (isSaving s) (songNotes s)
    r (user s) (song s) (inserted s).

Definition set_inserted (l : list NotedRow) (s : State) : State :=
  mkState (seconds s) (isRunning s) (isPaused s) (isSaving s) (songNotes s)
    (sessionRef s) (user s) (song s) l.

(** The component once its mount effect (lines 699-714) has run at time
    [t]. *)
Definition mounted (t : Z) (u : option nat) (sg : nat) (n : string) : State :=
  mkState O false false false n (Some (freshSession t EmptyString)) u sg [].

(** The 1-second interval of the timer effect (lines 736-757); the effect
    runs again after every change of [seconds], so the callback sees the
    current value. *)
Definition tick (s : State) : State :=
  if isRunning s && negb (isPaused s) then
    let newSeconds := S (seconds s) in
    setSeconds newSeconds
      (set_sessionRef (set_duration newSeconds <$> sessionRef s) s)
  else s.

(** handlePlayPause (lines 782-812); [t] is [new Date()]. *)
Definition handlePlayPause (t : Z) (s : State) : State :=
  if negb (isRunning s) then
    let s := setIsPaused false (setIsRunning true s) in
    set_sessionRef
      ((fun session =>
          if (0 <? length (pauses session))%nat
          then closeLastPause t session else session) <$> sessionRef s) s
  else if negb (isPaused s) then
    let s := setIsPaused true s in
    set_sessionRef (pushPause t <$> sessionRef s) s
  else
    let s := setIsPaused false s in
    set_sessionRef (closeLastPause t <$> sessionRef s) s.

Section Component.

(** [String.prototype.trim], taken as given. *)
Variable trim : string -> string.

(** [songNotes.trim() || null]: the empty string is falsy. *)
Definition notesOrNull (songNotes : string) : option string :=
  match trim songNotes with
  | EmptyString => None
  | trimmed => Some trimmed
  end.

(** Line 820: [Math.max(1, Math.round(seconds / 60))]. *)
Definition durationMinutes (seconds : nat) : Z :=
  JS.max 1 (JS.round_div (Z.of_nat seconds) 60).

(** savePracticeSession (lines 814-847). An error of the insert is only
    logged. *)
Definition savePracticeSession (b : Backend) (s : State) : State :=
  match user s, sessionRef s with
  | Some u, Some _ =>
      if Nat.eqb (seconds s) 0 then s
      else
        let s := setIsSaving true s in
        let row := mkNotedRow u (song s) (durationMinutes (seconds s))
                     (notesOrNull (songNotes s)) in
        let s := match b with
                 | InsertOk => set_inserted (row :: inserted s) s
                 | InsertError => s
                 end in
        setIsSaving false s
  | _, _ => s
  end.

(** handleStop (lines 849-881); [t] is the [new Date()] of the end time and
    [t'] that of the new session. *)
Definition handleStop (t t' : Z) (b : Backend) (s : State) : State :=
  let s := setIsPaused false (setIsRunning false s) in
  let s :=
    set_sessionRef
      (set_notes (songNotes s) <$> (set_endTime (Some t) <$> sessionRef s)) s in
  let s := savePracticeSession b s in
  let s := setSeconds O s in
  set_sessionRef (Some (freshSession t' (songNotes s))) s.

Inductive Event :=
| PressPlayPause (t : Z)             (* the play/pause button, or the space bar *)
| PressStop (t t' : Z) (b : Backend) (* the stop button *)
| Tick.

(** The stop button is [disabled] while [seconds === 0 || isSaving]. *)
Definition step (e : Event) (s : State) : State :=
  match e with
  | PressPlayPause t => handlePlayPause t s
  | PressStop t t' b =>
      if Nat.eqb (seconds s) 0 || isSaving s then s else handleStop t t' b s
  | Tick => tick s
  end.

Definition run (es : list Event) (s : State) : State :=
  fold_left (fun s e => step e s) es s.

End Component.

Definition pausesOf (s : State) : list Pause :=
  from_option pauses [] (sessionRef s).

(** What holds of the component in every state it reaches. *)
Definition timerInv (u : option nat) (sg : nat) (s : State) : Prop :=
  exists session,
    sessionRef s = Some session /\
    wellPaused (isPaused s) (pauses session) /\
    (isPaused s = true -> isRunning s = true) /\
    (isRunning s = false -> pauses session = []) /\
    isSaving s = false /\ user s = u /\ song s = sg /\
    Forall (fun r => 1 <= nr_duration_minutes r /\ nr_song_id r = sg /\
                     u = Some (nr_user_id r)) (inserted s).

End PracticeTimer.

(** ** MobileOptimizedTimer together with its metronome
       (src/components/MobileOptimizedTimer.tsx lines 70-94, 259-313 and
       450-465, over src/hooks/useMetronome.ts)

    The component calls [useMetronome] and lists the hook's
    [updateSettings] among the dependencies of its first effect. React runs
    that effect again after every render in which [updateSettings] is a new
    function, that is, in which [isPlaying] or a field of [settings] differs
    from the render before (the dependency lists of [updateSettings],
    [start], [playBeat] and [createSound]). Here a handler runs to its end,
    and then the renders it causes are committed, effect included, before
    the next event. *)

Module TimerWithMetronome.

Import Session.

(** The props of the song the first effect reads: [song.notes || ''] and
    [song.metronome_bpm] ([None] for null). *)
Record Song := mkSong {
  song_notes : string;
  metronome_bpm : option Z
}.

(** The timer's state, the hook's world, the song, and the values the
    hook's callbacks closed over in the last render whose effects have
    run. *)
Record Component := mkComponent {
  timer : MobileOptimizedTimer.State;
  metronome : Metronome.World;
  song : Song;
  rendered : Metronome.Closure
}.

Definition set_timer (tm : MobileOptimizedTimer.State) (c : Component)
    : Component :=
  mkComponent tm (metronome c) (song c) (rendered c).

Definition set_metronome (w : Metronome.World) (c : Component) : Component :=
  mkComponent (timer c) w (song c) (rendered c).

Definition set_rendered (cl : Metronome.Closure) (c : Component) : Component :=
  mkComponent (timer c) (metronome c) (song c) cl.

Definition sameSound (a b : Metronome.SoundKind) : bool :=
  match a, b with
  | Metronome.click, Metronome.click | Metronome.beep, Metronome.beep
  | Metronome.wood, Metronome.wood | Metronome.digital, Metronome.digital => true
  | _, _ => false
  end.

(** React's comparison of the dependencies, value by value. *)
Definition sameRender (a b : Metronome.Closure) : bool :=
  let sa := Metronome.cl_settings a in
  let sb := Metronome.cl_settings b in
  Bool.eqb (Metronome.cl_isPlaying a) (Metronome.cl_isPlaying b)
  && Z.eqb (Metronome.bpm sa) (Metronome.bpm sb)
  && Qeq_bool (Metronome.volume sa) (Metronome.volume sb)
  && sameSound (Metronome.sound sa) (Metronome.sound sb)
  && Bool.eqb (Metronome.accent sa) (Metronome.accent sb)
  && Nat.eqb (Metronome.timeSignature sa) (Metronome.timeSignature sb).

(** [{ bpm: b }]. *)
Definition bpmOnly (b : Z) : Metronome.PartialSettings :=
  Metronome.mkPartial (Some b) None None None None.

(** [song.metronome_bpm] when it is truthy. *)
Definition songBpm (sg : Song) : option Z :=
  match metronome_bpm sg with
  | Some b => if Z.eqb b 0 then None else Some b
  | None => None
  end.

(** The first effect (lines 82-94), run at time [t] in a render whose
    callbacks are those of the current state. *)
Definition sessionEffect (t : Z) (c : Component) : Component :=
  let cl := Metronome.currentClosure (metronome c) in
  let tm :=
    MobileOptimizedTimer.set_sessionRef (Some (freshSession t EmptyString))
      (MobileOptimizedTimer.setSongNotes (song_notes (song c)) (timer c)) in
  let w :=
    match songBpm (song c) with
    | Some b => Metronome.updateSettings cl (bpmOnly b) (metronome c)
    | None => metronome c
    end in
  mkComponent tm w (song c) cl.

(** One render: the effect runs when [updateSettings] is a new function. *)
Definition commit (t : Z) (c : Component) : Component :=
  if sameRender (Metronome.currentClosure (metronome c)) (rendered c) then c
  else sessionEffect t c.

(** The renders that follow an event. The effect changes the hook's state
    at most once more, so the third render finds nothing to do (lemma
    [settle_tame]). *)
Definition settle (t : Z) (c : Component) : Component :=
  commit t (commit t (commit t c)).

(** The component after mounting at time [t]: the first render runs the
    effect whatever the dependencies. *)
Definition mounted (t : Z) (u : option nat) (songId : nat) (sg : Song)
    (st : option Metronome.ContextState) : Component :=
  settle t
    (sessionEffect t
       (mkComponent
          (MobileOptimizedTimer.mounted t u songId (song_notes sg))
          (Metronome.mounted st) sg
          (Metronome.currentClosure (Metronome.mounted st)))).

Inductive Event :=
| TimerEvent (e : MobileOptimizedTimer.Event)
| MetronomeClick (win : Metronome.Window)
                 (resumed : option Metronome.ContextState)
| IntervalFires (id : nat)
| TimeoutFires (id : nat) (win : Metronome.Window).

(** handlePause (line 273) and handleStop (line 295) call
    [stopMetronome()] when they run. *)
Definition callsStop (e : MobileOptimizedTimer.Event)
    (tm : MobileOptimizedTimer.State) : bool :=
  match e with
  | MobileOptimizedTimer.PressPause _ => MobileOptimizedTimer.isRunning tm
  | MobileOptimizedTimer.PressStop _ _ _ =>
      negb (Nat.eqb (MobileOptimizedTimer.time tm) 0
            || MobileOptimizedTimer.isSaving tm)
  | _ => false
  end.

(** The metronome button (lines 447-465), rendered when
    [song.metronome_bpm] is truthy; [start] is awaited, and its [resume()]
    settles before the renders. *)
Definition metronomeClick (win : Metronome.Window)
    (resumed : option Metronome.ContextState) (c : Component) : Component :=
  match songBpm (song c) with
  | Some _ =>
      if Metronome.cl_isPlaying (rendered c)
      then set_metronome (Metronome.stop (metronome c)) c
      else set_metronome
             (fst (Metronome.startAndSettle (rendered c) win resumed
                     (metronome c))) c
  | None => c
  end.

Definition handle (e : Event) (c : Component) : Component :=
  match e with
  | TimerEvent e =>
      let w := if callsStop e (timer c) then Metronome.stop (metronome c)
               else metronome c in
      mkComponent (MobileOptimizedTimer.step e (timer c)) w (song c) (rendered c)
  | MetronomeClick win resumed => metronomeClick win resumed c
  | IntervalFires id => set_metronome (Metronome.fireInterval id (metronome c)) c
  | TimeoutFires id win =>
      set_metronome (Metronome.fireTimeout id win (metronome c)) c
  end.

(** An event at time [t], with the renders that follow it. *)
Definition step (te : Z * Event) (c : Component) : Component :=
  settle (fst te) (handle (snd te) c).

Definition run (es : list (Z * Event)) (c : Component) : Component :=
  fold_left (fun c te => step te c) es c.




(** What the effect does to the timer: the notes are those of the song
    again and the session is a fresh one. *)
Definition resetSession (t : Z) (c : Component) : MobileOptimizedTimer.State :=
  MobileOptimizedTimer.set_sessionRef (Some (freshSession t EmptyString))
    (MobileOptimizedTimer.setSongNotes (song_notes (song c)) (timer c)).

(** The component between two events: the last render has seen the hook's
    state, and the hook is at rest. *)
Definition quiet (c : Component) : Prop :=
  sameRender (Metronome.currentClosure (metronome c)) (rendered c) = true /\
  Metronome.calm (metronome c).

End TimerWithMetronome.

(** ** Concrete states the theorems are instantiated at *)

Module Examples.

(** The hook mounted with a running audio context. *)
Definition hook : Metronome.World := Metronome.mounted (Some Metronome.running).

(** The hook after [start] from the first render. *)
Definition playing : Metronome.World :=
  fst (Metronome.startAndSettle (Metronome.currentClosure hook)
         Metronome.NoWindow None hook).

(** The interval that [start] scheduled. *)
Definition firstTask : Metronome.IntervalTask :=
  default (Metronome.mkInterval None 0 Metronome.defaultSettings)
    (Metronome.intervals playing !! 1%nat).

(** [{ bpm: 90 }] and [{ volume: 0.5 }]. *)
Definition slower : Metronome.PartialSettings :=
  Metronome.mkPartial (Some 90) None None None None.

Definition softer : Metronome.PartialSettings :=
  Metronome.mkPartial None (Some 0.5%Q) None None None.

(** A song with a bpm, and a practice of 40 seconds that is then paused. *)
Definition scales : TimerWithMetronome.Song :=
  TimerWithMetronome.mkSong "scales" (Some 90).

Definition practiceThenPause : list (Z * TimerWithMetronome.Event) :=
  (0, TimerWithMetronome.TimerEvent (MobileOptimizedTimer.PressStart 0))
  :: replicate 40 (1000, TimerWithMetronome.TimerEvent MobileOptimizedTimer.Tick)
  ++ [(40000, TimerWithMetronome.TimerEvent (MobileOptimizedTimer.PressPause 40000))].

Definition pausedTimer : TimerWithMetronome.Component :=
  TimerWithMetronome.run practiceThenPause
    (TimerWithMetronome.mounted 0 (Some 7%nat) 3%nat scales
       (Some Metronome.running)).

End Examples.

(** * Proofs *)

(** ** JavaScript arithmetic *)



(** ** The metronome *)

Section MetronomeFacts.
Import Metronome.


Lemma rem_is_zero_spec (a b : nat) :
  JS.rem_is_zero a b = true <-> JS.rem a b = Some O.
Proof.
  destruct b as [|b]; simpl.
  - split; discriminate.
  - rewrite Nat.eqb_eq. split; [intros ->; reflexivity | intros [= ->]; reflexivity].
Qed.

Lemma playBeat_played s w c :
  audioContextRef w = Some c ->
  played (playBeat s w) = (now w, beatTone s (beatCountRef w)) :: played w.
Proof.
  intros Hc. unfold playBeat, createSound, beatTone. rewrite Hc.
  destruct (soundShape _ _). reflexivity.
Qed.

Lemma intervalCallback_played s w c :
  audioContextRef w = Some c ->
  played (intervalCallback s w) = (now w, beatTone s (beatCountRef w)) :: played w.
Proof.
  intros Hc. unfold intervalCallback, createSound, beatTone. rewrite Hc.
  destruct (soundShape _ _). reflexivity.
Qed.

Lemma beatTone_frequency s n :
  tone_frequency (beatTone s n)
  = snd (soundShape (sound s) (beatFrequency (isAccentBeat s n))).
Proof. unfold beatTone. destruct (soundShape _ _). reflexivity. Qed.

Lemma beatTone_gain s n :
  tone_gain (beatTone s n) = beatVolume s (isAccentBeat s n).
Proof. unfold beatTone. destruct (soundShape _ _). reflexivity. Qed.

(** C3 (as amended). [s] are the settings [playBeat] and the interval
    callback close over. Both play the tone [beatTone s n] of the current
    beat count n; the beat is accented iff [s.accent] holds and
    [n % s.timeSignature === 0]; against a plain beat of the same settings an
    accented beat has twice the frequency, hence a strictly higher one, and
    1.2 times the gain, which is strictly higher exactly when the volume is
    positive. *)
Theorem accent_pulse s w c :
  audioContextRef w = Some c ->
  let n := beatCountRef w in
  played (playBeat s w) = (now w, beatTone s n) :: played w /\
  played (intervalCallback s w) = (now w, beatTone s n) :: played w /\
  (isAccentBeat s n = true <->
     accent s = true /\ JS.rem n (timeSignature s) = Some O) /\
  forall m,
    isAccentBeat s n = true -> isAccentBeat s m = false ->
    (tone_frequency (beatTone s n) == 2 * tone_frequency (beatTone s m))%Q /\
    (tone_frequency (beatTone s m) < tone_frequency (beatTone s n))%Q /\
    (tone_gain (beatTone s n) == 1.2 * tone_gain (beatTone s m))%Q /\
    ((tone_gain (beatTone s m) < tone_gain (beatTone s n))%Q <-> (0 < volume s)%Q).
Proof.
  intros Hc n. split; [|split; [|split]].
  - by eapply playBeat_played.
  - by eapply intervalCallback_played.
  - unfold isAccentBeat. rewrite andb_true_iff, rem_is_zero_spec. reflexivity.
  - intros m Hn Hm.
    rewrite !beatTone_frequency, !beatTone_gain, Hn, Hm.
    unfold beatVolume, beatFrequency.
    destruct (sound s); simpl; repeat split; try reflexivity; try ring;
      try (intros H; nra); try lra.
Qed.

(** *** start *)

Lemma startCall_guarded cl win byT w :
  cl_isPlaying cl || startInProgressRef w = true ->
  startCall cl win byT w = (w, Settled Fulfilled).
Proof. intros H. unfold startCall. rewrite H. reflexivity. Qed.

Lemma startCall_eq cl win byT w c :
  cl_isPlaying cl = false ->
  startInProgressRef w = false ->
  contextFor win w = Some c ->
  startCall cl win byT w =
    let w0 := set_audioContextRef (Some c) (set_startInProgressRef true w) in
    match c with
    | suspended =>
        (set_awaitingResume (awaitingResume w ++ [mkFrame cl byT]) w0, Suspended)
    | _ => (set_startInProgressRef false (startBody cl w0), Settled Fulfilled)
    end.
Proof.
  intros Hcl Hs Hctx. unfold startCall, contextFor in *. rewrite Hcl, Hs.
  cbn -[startBody].
  destruct (audioContextRef w) as [c0|] eqn:Ha.
  - injection Hctx as ->. cbn -[startBody]. rewrite Ha.
    assert (E : set_startInProgressRef true w
                = set_audioContextRef (Some c) (set_startInProgressRef true w)).
    { unfold set_audioContextRef, set_startInProgressRef. cbn. rewrite Ha. reflexivity. }
    rewrite <- E. destruct c; reflexivity.
  - destruct win as [| |st]; try discriminate. injection Hctx as ->.
    cbn -[startBody]. destruct c; reflexivity.
Qed.

Lemma startCall_no_context cl win byT w :
  cl_isPlaying cl = false ->
  startInProgressRef w = false ->
  contextFor win w = None ->
  exists e,
    startCall cl win byT w =
      (set_startInProgressRef false
         (setIsPlaying false (set_startInProgressRef true w)),
       Settled (Rejected e)).
Proof.
  intros Hcl Hs Hctx. unfold startCall, contextFor in *. rewrite Hcl, Hs.
  cbn. destruct (audioContextRef w) as [c0|] eqn:Ha; [discriminate|].
  destruct win as [| |st]; try discriminate; cbn; rewrite ?Ha; eauto.
Qed.

Lemma startBody_facts cl w c :
  audioContextRef w = Some c ->
  let s := cl_settings cl in
  let d := JS.div_q 60000 (bpm s) in
  let w' := startBody cl w in
  isPlaying w' = true /\
  intervalRef w' = Some (nextTimerId w) /\
  intervals w' =
    <[nextTimerId w := mkInterval d (now w + hostDelay d)%Q s]> (intervals w) /\
  played w' = (now w, beatTone s O) :: played w /\
  beatCountRef w' = 1%nat /\ now w' = now w /\
  audioContextRef w' = Some c /\
  startInProgressRef w' = startInProgressRef w.
Proof.
  intros Hc s d w'. subst w'. unfold startBody, playBeat, createSound, hostSetInterval.
  cbn. rewrite Hc. fold s. destruct (soundShape _ _) eqn:Hs. cbn.
  repeat split; try assumption.
  unfold beatTone. cbn. rewrite Hs. reflexivity.
Qed.

Lemma fireInterval_facts id w d due s c :
  intervals w !! id = Some (mkInterval d due s) ->
  audioContextRef w = Some c ->
  let w' := fireInterval id w in
  now w' = Qmax (now w) due /\
  played w' = (Qmax (now w) due, beatTone s (beatCountRef w)) :: played w /\
  beatCountRef w' = S (beatCountRef w) /\
  intervals w' = <[id := mkInterval d (due + hostDelay d)%Q s]> (intervals w) /\
  audioContextRef w' = Some c.
Proof.
  intros Hi Hc w'. subst w'. unfold fireInterval. rewrite Hi. cbn.
  unfold intervalCallback, createSound. cbn. rewrite Hc.
  destruct (soundShape _ _) eqn:Hs. cbn.
  repeat split; try assumption.
  unfold beatTone. rewrite Hs. reflexivity.
Qed.

Lemma hostDelay_nonneg (p : Q) : (0 <= p)%Q -> (hostDelay (Some p) == p)%Q.
Proof. intros Hp. unfold hostDelay. apply Q.max_r. exact Hp. Qed.

Lemma Q_next_multiple (t0 a p : Q) :
  (0 <= p)%Q -> (t0 + a * p <= t0 + (a + 1) * p)%Q.
Proof.
  intros Hp. assert (E : ((a + 1) * p == a * p + p)%Q) by ring.
  rewrite E. rewrite <- (Qplus_0_r (t0 + a * p)) at 1.
  rewrite Qplus_assoc. apply Qplus_le_r. exact Hp.
Qed.

Lemma inject_Z_succ_nat (n : nat) :
  (inject_Z (Z.of_nat (S n)) == inject_Z (Z.of_nat n) + 1)%Q.
Proof. rewrite Nat2Z.inj_succ. unfold Z.succ. rewrite inject_Z_plus. reflexivity. Qed.

(** Firing the interval [n] times after a start at [t0]. *)
Lemma fire_iter id s c p t0 w1 :
  (0 <= p)%Q ->
  audioContextRef w1 = Some c ->
  beatCountRef w1 = 1%nat ->
  (now w1 == t0)%Q ->
  (exists due, intervals w1 !! id = Some (mkInterval (Some p) due s) /\
               (due == t0 + p)%Q) ->
  forall n,
    let wn := Nat.iter n (fireInterval id) w1 in
    audioContextRef wn = Some c /\
    beatCountRef wn = S n /\
    (now wn == t0 + inject_Z (Z.of_nat n) * p)%Q /\
    exists due, intervals wn !! id = Some (mkInterval (Some p) due s) /\
                (due == t0 + inject_Z (Z.of_nat (S n)) * p)%Q.
Proof.
  intros Hp Hc Hb Hnow [due1 [Hi1 Hd1]] n. induction n as [|n IH].
  - cbn. split; [|split; [|split]]; try assumption.
    + rewrite Hnow. ring.
    + exists due1. split; [assumption|]. rewrite Hd1. cbn. ring.
  - cbv zeta in *. rewrite Nat.iter_succ. destruct IH as (IHc & IHb & IHnow & due & IHi & IHd).
    destruct (fireInterval_facts id _ _ _ _ _ IHi IHc) as (Fn & _ & Fb & Fi & Fc).
    cbv zeta in *.
    split; [|split; [|split]].
    + exact Fc.
    + rewrite Fb, IHb. reflexivity.
    + rewrite Fn. rewrite Q.max_r.
      * rewrite IHd. reflexivity.
      * rewrite IHnow, IHd, inject_Z_succ_nat. by apply Q_next_multiple.
    + exists (due + hostDelay (Some p))%Q. split.
      * rewrite Fi. apply lookup_insert_eq.
      * rewrite hostDelay_nonneg by assumption. rewrite IHd.
        rewrite (inject_Z_succ_nat (S n)). ring.
Qed.

Lemma started_after_body cl w0 w c :
  audioContextRef w0 = Some c ->
  nextTimerId w0 = nextTimerId w -> intervals w0 = intervals w ->
  now w0 = now w -> played w0 = played w ->
  started cl w (set_startInProgressRef false (startBody cl w0)).
Proof.
  intros Hc Hn Hi Ht Hp.
  destruct (startBody_facts cl w0 c Hc) as (F1 & F2 & F3 & F4 & F5 & F6 & F7 & _).
  cbv zeta in *. revert F1 F2 F3 F4 F5 F6 F7.
  generalize (startBody cl w0). intros wb F1 F2 F3 F4 F5 F6 F7.
  unfold started. cbn.
  rewrite F1, F2, F3, F4, F5, F6, F7, Hn, Hi, Ht, Hp. eauto 10.
Qed.

Lemma startAndSettle_ok cl win resumed w c :
  cl_isPlaying cl = false ->
  startInProgressRef w = false ->
  contextFor win w = Some c ->
  (c = suspended -> is_Some resumed) ->
  snd (startAndSettle cl win resumed w) = Fulfilled /\
  started cl w (fst (startAndSettle cl win resumed w)).
Proof.
  intros Hcl Hs Hctx Hres. unfold startAndSettle.
  rewrite (startCall_eq cl win false w c Hcl Hs Hctx). cbv zeta.
  destruct c.
  - destruct (Hres eq_refl) as [c' ->]. unfold resumeSettles.
    cbn -[startBody]. rewrite lookup_app_r by lia. rewrite Nat.sub_diag.
    cbn -[startBody].
    split; [reflexivity|]. eapply started_after_body; reflexivity.
  - split; [reflexivity|]. eapply started_after_body; reflexivity.
  - split; [reflexivity|]. eapply started_after_body; reflexivity.
Qed.

Lemma not_audioFails win resumed w :
  ~ audioFails win resumed w ->
  exists c, contextFor win w = Some c /\ (c = suspended -> is_Some resumed).
Proof.
  intros Hn. unfold audioFails in Hn.
  destruct (contextFor win w) as [c|] eqn:Hc.
  - exists c. split; [reflexivity|]. intros ->.
    destruct resumed; [by eexists|]. exfalso. apply Hn. right. by split.
  - exfalso. apply Hn. by left.
Qed.

Lemma period_facts (b : Z) :
  40 <= b <= 200 ->
  let p := (60000 / inject_Z b)%Q in
  JS.div_q 60000 b = Some p /\ (0 <= p)%Q /\ (p * inject_Z b == 60000)%Q.
Proof.
  intros Hb p. subst p. split; [|split].
  - unfold JS.div_q. destruct (Z.eqb_spec b 0); [lia|reflexivity].
  - apply Qle_shift_div_l.
    + replace 0%Q with (inject_Z 0) by reflexivity. rewrite <- Zlt_Qlt. lia.
    + rewrite Qmult_0_l. discriminate.
  - field. replace 0%Q with (inject_Z 0) by reflexivity.
    rewrite inject_Z_injective. lia.
Qed.

(** C2. With a bpm in [40,200], a call of [start] that is not ignored and
    whose audio context is there (resumed if need be) plays the first beat
    at the time of the call, before any period has elapsed, and registers
    the interval with the delay p = 60000/bpm milliseconds (p * bpm = 60000):
    under a host that honours the delay, the (n+1)-th firing plays beat n+1
    at the time of the call plus (n+1) * p. *)
Theorem start_schedules_period (w : World) (win : Window)
    (resumed : option ContextState) :
  let s := settings w in
  let p := (60000 / inject_Z (bpm s))%Q in
  40 <= bpm s <= 200 ->
  isPlaying w = false ->
  startInProgressRef w = false ->
  ~ audioFails win resumed w ->
  let w' := fst (startAndSettle (currentClosure w) win resumed w) in
  isPlaying w' = true /\
  played w' = (now w, beatTone s O) :: played w /\
  exists id task,
    intervalRef w' = Some id /\
    intervals w' !! id = Some task /\
    it_delay task = Some p /\
    (p * inject_Z (bpm s) == 60000)%Q /\
    (it_due task == now w + p)%Q /\
    forall n, exists t,
      played (Nat.iter (S n) (fireInterval id) w')
      = (t, beatTone s (S n)) :: played (Nat.iter n (fireInterval id) w') /\
      (t == now w + inject_Z (Z.of_nat (S n)) * p)%Q.
Proof.
  intros s p Hb Hplay Hprog Haudio w'.
  destruct (not_audioFails _ _ _ Haudio) as (c & Hc & Hres).
  destruct (startAndSettle_ok (currentClosure w) win resumed w c
              Hplay Hprog Hc Hres) as [_ Hst].
  fold w' in Hst. unfold started in Hst. cbn [currentClosure cl_settings] in Hst.
  fold s in Hst.
  destruct (period_facts (bpm s) Hb) as (Hd & Hp0 & Hpb). fold p in Hd, Hp0, Hpb.
  rewrite Hd in Hst.
  destruct Hst as (S1 & S2 & S3 & S4 & S5 & S6 & S7 & [c' S8]).
  split; [exact S1|]. split; [exact S5|].
  exists (nextTimerId w), (mkInterval (Some p) (now w + hostDelay (Some p))%Q s).
  assert (Hlook : intervals w' !! nextTimerId w
                  = Some (mkInterval (Some p) (now w + hostDelay (Some p))%Q s)).
  { rewrite S4. apply lookup_insert_eq. }
  assert (Hdue : (now w + hostDelay (Some p) == now w + p)%Q).
  { rewrite hostDelay_nonneg by assumption. reflexivity. }
  split; [exact S3|]. split; [exact Hlook|]. split; [reflexivity|].
  split; [exact Hpb|]. split; [exact Hdue|].
  intros n.
  assert (Hnow : (now w' == now w)%Q) by (rewrite S7; reflexivity).
  destruct (fire_iter (nextTimerId w) s c' p (now w) w' Hp0 S8 S6 Hnow
              (ex_intro _ _ (conj Hlook Hdue)) n)
    as (Ic & Ib & Inow & due & Ii & Id).
  cbv zeta in *.
  destruct (fireInterval_facts _ _ _ _ _ _ Ii Ic) as (_ & Fp & _).
  cbv zeta in Fp. rewrite Nat.iter_succ, Fp, Ib.
  eexists. split; [reflexivity|].
  rewrite Q.max_r.
  - exact Id.
  - rewrite Inow, Id, inject_Z_succ_nat. by apply Q_next_multiple.
Qed.

(** *** Frame facts: what the operations leave alone *)

Ltac conj_refl := cbv zeta; repeat split; reflexivity.

Lemma createSound_frame k f d v w :
  let w' := createSound k f d v w in
  isPlaying w' = isPlaying w /\ toggleInProgressRef w' = toggleInProgressRef w /\
  togglesSettling w' = togglesSettling w /\ awaitingResume w' = awaitingResume w /\
  timeouts w' = timeouts w /\ intervals w' = intervals w /\
  beatCountRef w' = beatCountRef w /\ intervalRef w' = intervalRef w /\
  startInProgressRef w' = startInProgressRef w.
Proof.
  unfold createSound. destruct (audioContextRef w); [|conj_refl].
  destruct (soundShape k f). conj_refl.
Qed.

Lemma startBody_frame cl w :
  let w' := startBody cl w in
  toggleInProgressRef w' = toggleInProgressRef w /\
  togglesSettling w' = togglesSettling w /\
  awaitingResume w' = awaitingResume w /\
  timeouts w' = timeouts w /\
  startInProgressRef w' = startInProgressRef w /\
  isPlaying w' = true.
Proof.
  unfold startBody, playBeat, hostSetInterval. cbn -[createSound].
  match goal with |- context [createSound ?k ?f ?d ?v ?x] =>
    destruct (createSound_frame k f d v x) as (F1 & F2 & F3 & F4 & F5 & _ & _ & _ & F9);
    revert F1 F2 F3 F4 F5 F9; generalize (createSound k f d v x)
  end.
  intros wb F1 F2 F3 F4 F5 F9. cbn in F1, F2, F3, F4, F5, F9.
  rewrite F1, F2, F3, F4, F5, F9. conj_refl.
Qed.

Lemma stop_frame w :
  let w' := stop w in
  toggleInProgressRef w' = toggleInProgressRef w /\
  togglesSettling w' = togglesSettling w /\
  awaitingResume w' = awaitingResume w /\
  timeouts w' = timeouts w /\
  nextTimerId w' = nextTimerId w /\
  isPlaying w' = false.
Proof. unfold stop. destruct (intervalRef w); conj_refl. Qed.

Lemma fireInterval_frame id w :
  let w' := fireInterval id w in
  toggleInProgressRef w' = toggleInProgressRef w /\
  togglesSettling w' = togglesSettling w /\
  awaitingResume w' = awaitingResume w /\
  timeouts w' = timeouts w /\
  isPlaying w' = isPlaying w.
Proof.
  unfold fireInterval. destruct (intervals w !! id) as [t|]; [|conj_refl].
  unfold intervalCallback. cbn -[createSound].
  match goal with |- context [createSound ?k ?f ?d ?v ?x] =>
    destruct (createSound_frame k f d v x) as (F1 & F2 & F3 & F4 & F5 & _);
    revert F1 F2 F3 F4 F5; generalize (createSound k f d v x)
  end.
  intros wb F1 F2 F3 F4 F5. cbn in F1, F2, F3, F4, F5.
  rewrite F1, F2, F3, F4, F5. conj_refl.
Qed.

(** What a call of [start] does to the guard's part of the world. *)
Lemma startCall_frame cl win byT w :
  let r := startCall cl win byT w in
  toggleInProgressRef (fst r) = toggleInProgressRef w /\
  togglesSettling (fst r) = togglesSettling w /\
  timeouts (fst r) = timeouts w /\
  match snd r with
  | Settled _ => awaitingResume (fst r) = awaitingResume w
  | Suspended => awaitingResume (fst r) = awaitingResume w ++ [mkFrame cl byT]
  end.
Proof.
  destruct (cl_isPlaying cl || startInProgressRef w) eqn:Hg.
  - rewrite (startCall_guarded _ _ _ _ Hg). conj_refl.
  - apply orb_false_iff in Hg as [Hcl Hs].
    destruct (contextFor win w) as [c|] eqn:Hc.
    + rewrite (startCall_eq _ _ _ _ _ Hcl Hs Hc). cbv zeta.
      match goal with |- context [startBody ?c ?x] =>
        destruct (startBody_frame c x) as (F1 & F2 & F3 & F4 & _);
        revert F1 F2 F3 F4; generalize (startBody c x) end.
      intros wb F1 F2 F3 F4. cbn in F1, F2, F3, F4.
      destruct c; cbn; rewrite ?F1, ?F2, ?F3, ?F4; conj_refl.
    + destruct (startCall_no_context _ _ byT _ Hcl Hs Hc) as [e ->]. conj_refl.
Qed.

(** *** The re-entrancy guard of toggle *)

Lemma noResets_insert m k cl :
  noResets m -> noResets (<[k := RestartMetronome cl]> m).
Proof.
  intros H id. destruct (decide (k = id)) as [->|Hne].
  - rewrite lookup_insert_eq. discriminate.
  - rewrite lookup_insert_ne by exact Hne. apply H.
Qed.

Lemma uniqueReset_insert m k cl :
  uniqueReset m -> uniqueReset (<[k := RestartMetronome cl]> m).
Proof.
  intros H i j Hi Hj.
  destruct (decide (k = i)) as [->|Hi']; [rewrite lookup_insert_eq in Hi; discriminate|].
  destruct (decide (k = j)) as [->|Hj']; [rewrite lookup_insert_eq in Hj; discriminate|].
  rewrite lookup_insert_ne in Hi by exact Hi'.
  rewrite lookup_insert_ne in Hj by exact Hj'. by apply H.
Qed.

Lemma uniqueReset_fresh m k :
  noResets m -> uniqueReset (<[k := ResetToggleFlag]> m).
Proof.
  intros H i j Hi Hj.
  destruct (decide (k = i)) as [<-|Hi'].
  - destruct (decide (k = j)) as [<-|Hj']; [reflexivity|].
    rewrite lookup_insert_ne in Hj by exact Hj'. by destruct (H j).
  - rewrite lookup_insert_ne in Hi by exact Hi'. by destruct (H i).
Qed.

Lemma noResets_delete m k : noResets m -> noResets (delete k m).
Proof.
  intros H id Hid. apply lookup_delete_Some in Hid as [_ Hid]. by destruct (H id).
Qed.

Lemma uniqueReset_delete m k : uniqueReset m -> uniqueReset (delete k m).
Proof.
  intros H i j Hi Hj.
  apply lookup_delete_Some in Hi as [_ Hi].
  apply lookup_delete_Some in Hj as [_ Hj]. by apply H.
Qed.

Lemma noResets_delete_unique m k :
  uniqueReset m -> m !! k = Some ResetToggleFlag -> noResets (delete k m).
Proof.
  intros H Hk id Hid. apply lookup_delete_Some in Hid as [Hne Hid].
  apply Hne. by apply H.
Qed.

Lemma filter_toggle_snoc l fr :
  length (List.filter sf_toggle (l ++ [fr]))
  = (length (List.filter sf_toggle l) + (if sf_toggle fr then 1 else 0))%nat.
Proof.
  rewrite List.filter_app, length_app. cbn. destruct (sf_toggle fr); reflexivity.
Qed.

Lemma filter_toggle_delete (l : list StartFrame) i fr :
  l !! i = Some fr ->
  (length (List.filter sf_toggle (delete i l)) + (if sf_toggle fr then 1 else 0))%nat
  = length (List.filter sf_toggle l).
Proof.
  revert i. induction l as [|a l IH]; intros [|i] Hi; try discriminate.
  - injection Hi as ->. cbn. destruct (sf_toggle fr); cbn; lia.
  - cbn in Hi. specialize (IH i Hi). cbn.
    destruct (sf_toggle a); cbn; [f_equal|]; exact IH.
Qed.

(** Worlds that agree on the guard's part satisfy the invariant together. *)
Lemma toggleInv_frame w w' :
  toggleInProgressRef w' = toggleInProgressRef w ->
  pendingToggles w' = pendingToggles w ->
  timeouts w' = timeouts w ->
  toggleInv w -> toggleInv w'.
Proof. unfold toggleInv. intros H1 H2 H3. rewrite H1, H2, H3. trivial. Qed.

Lemma toggleInv_mounted st : toggleInv (mounted st).
Proof.
  assert (He : noResets (∅ : gmap nat TimeoutTask)).
  { intros id. rewrite lookup_empty. discriminate. }
  unfold toggleInv, pendingToggles. cbn.
  split; [intros _; split; [reflexivity | exact He]|].
  split; [lia|]. split; [intros _; exact He|].
  intros i j Hi. rewrite lookup_empty in Hi. discriminate.
Qed.

Lemma startCall_direct_pending cl win w :
  pendingToggles (fst (startCall cl win false w)) = pendingToggles w.
Proof.
  destruct (startCall_frame cl win false w) as (_ & F2 & _ & F4).
  cbv zeta in *. unfold pendingToggles. rewrite F2.
  destruct (snd (startCall cl win false w)); rewrite F4; [reflexivity|].
  rewrite filter_toggle_snoc. cbn. lia.
Qed.

Lemma toggleInv_startCall cl win w :
  toggleInv w -> toggleInv (fst (startCall cl win false w)).
Proof.
  destruct (startCall_frame cl win false w) as (F1 & _ & F3 & _).
  apply toggleInv_frame; [exact F1 | apply startCall_direct_pending | exact F3].
Qed.

Lemma toggleCall_ignored cl win w :
  toggleInProgressRef w = true -> toggleCall cl win w = (w, Settled Fulfilled).
Proof. intros H. unfold toggleCall. rewrite H. reflexivity. Qed.

(** A world whose flag is up, with nothing unsettled and at most the one
    reset timeout just scheduled. *)
Lemma toggleInv_reset_scheduled w' m k :
  toggleInProgressRef w' = true ->
  pendingToggles w' = O ->
  timeouts w' = <[k := ResetToggleFlag]> m ->
  noResets m ->
  toggleInv w'.
Proof.
  intros Hf Hp Ht Hm. unfold toggleInv. rewrite Hf, Hp, Ht.
  split; [discriminate|]. split; [lia|]. split; [discriminate|].
  by apply uniqueReset_fresh.
Qed.

(** A world whose flag is up, with one unsettled call and no reset
    timeout. *)
Lemma toggleInv_one_pending w' :
  toggleInProgressRef w' = true ->
  pendingToggles w' = 1%nat ->
  noResets (timeouts w') ->
  toggleInv w'.
Proof.
  intros Hf Hp Hm. unfold toggleInv. rewrite Hf, Hp.
  split; [discriminate|]. split; [lia|]. split; [intros _; exact Hm|].
  intros i j Hi. by destruct (Hm i).
Qed.

Lemma toggleCall_start_branch cl win w :
  toggleInProgressRef w = false ->
  cl_isPlaying cl = false ->
  let w' := fst (toggleCall cl win w) in
  toggleInProgressRef w' = true /\
  pendingToggles w' = S (pendingToggles w) /\
  timeouts w' = timeouts w /\
  snd (toggleCall cl win w) = Suspended.
Proof.
  intros Hf Hcl. unfold toggleCall. rewrite Hf, Hcl.
  destruct (startCall_frame cl win true (set_toggleInProgressRef true w))
    as (F1 & F2 & F3 & F4).
  cbv zeta in F1, F2, F3, F4. revert F1 F2 F3 F4.
  generalize (startCall cl win true (set_toggleInProgressRef true w)).
  intros [w1 [o|]] F1 F2 F3 F4; cbn in F1, F2, F3, F4 |- *; unfold pendingToggles; cbn.
  - rewrite F1, F2, F3, F4, length_app. cbn. repeat split; lia.
  - rewrite F1, F2, F3, F4, filter_toggle_snoc. cbn. repeat split; lia.
Qed.

Lemma toggleCall_stop_branch cl win w :
  toggleInProgressRef w = false ->
  cl_isPlaying cl = true ->
  let w' := fst (toggleCall cl win w) in
  toggleInProgressRef w' = true /\
  pendingToggles w' = pendingToggles w /\
  (exists k, timeouts w' = <[k := ResetToggleFlag]> (timeouts w)) /\
  isPlaying w' = false /\
  snd (toggleCall cl win w) = Settled Fulfilled.
Proof.
  intros Hf Hcl. unfold toggleCall. rewrite Hf, Hcl.
  destruct (stop_frame (set_toggleInProgressRef true w))
    as (F1 & F2 & F3 & F4 & F5 & F6).
  cbv zeta in F1, F2, F3, F4, F5, F6. revert F1 F2 F3 F4 F5 F6.
  generalize (stop (set_toggleInProgressRef true w)).
  intros w1 F1 F2 F3 F4 F5 F6. cbn in F1, F2, F3, F4, F5, F6 |- *.
  unfold pendingToggles. cbn. rewrite F1, F2, F3, F4, F6.
  repeat split. eauto.
Qed.

Lemma toggleInv_toggleCall cl win w :
  toggleInv w -> toggleInv (fst (toggleCall cl win w)).
Proof.
  intros Hinv. destruct (toggleInProgressRef w) eqn:Hf.
  - by rewrite toggleCall_ignored.
  - destruct Hinv as (H0 & _). destruct (H0 Hf) as [Hp Hm].
    destruct (cl_isPlaying cl) eqn:Hcl.
    + destruct (toggleCall_stop_branch cl win w Hf Hcl) as (F1 & F2 & [k F3] & _).
      eapply toggleInv_reset_scheduled; eauto. by rewrite F2.
    + destruct (toggleCall_start_branch cl win w Hf Hcl) as (F1 & F2 & F3 & _).
      apply toggleInv_one_pending; [exact F1| by rewrite F2, Hp | by rewrite F3].
Qed.

Lemma toggleInv_updateSettings cl p w :
  toggleInv w -> toggleInv (updateSettings cl p w).
Proof.
  intros Hinv. unfold updateSettings.
  destruct (truthy_bpm p && cl_isPlaying cl).
  - destruct (stop_frame (setSettings (merge (settings w) p) w))
      as (F1 & F2 & F3 & F4 & _).
    cbv zeta in F1, F2, F3, F4. revert F1 F2 F3 F4.
    generalize (stop (setSettings (merge (settings w) p) w)).
    intros w1 F1 F2 F3 F4. cbn in F1, F2, F3, F4.
    destruct Hinv as (H0 & H1 & H2 & H3).
    unfold toggleInv, pendingToggles in *. cbn. rewrite F1, F2, F3, F4.
    split; [|split; [exact H1|split]].
    + intros Hf. destruct (H0 Hf) as [Hp Hm]. split; [exact Hp|].
      by apply noResets_insert.
    + intros Hp. by apply noResets_insert, H2.
    + by apply uniqueReset_insert.
  - revert Hinv. by apply toggleInv_frame.
Qed.

Lemma startResumed_frame cl r w :
  let w' := fst (startResumed cl r w) in
  toggleInProgressRef w' = toggleInProgressRef w /\
  togglesSettling w' = togglesSettling w /\
  awaitingResume w' = awaitingResume w /\
  timeouts w' = timeouts w.
Proof.
  unfold startResumed, startFinally, startCatch. destruct r as [st|].
  - destruct (startBody_frame cl (set_audioContextRef (Some st) w))
      as (F1 & F2 & F3 & F4 & _).
    cbv zeta in F1, F2, F3, F4. revert F1 F2 F3 F4.
    generalize (startBody cl (set_audioContextRef (Some st) w)).
    intros wb F1 F2 F3 F4. cbn in F1, F2, F3, F4 |- *.
    rewrite F1, F2, F3, F4. repeat split; reflexivity.
  - cbn. repeat split; reflexivity.
Qed.

(** A pending toggle settles: the flag stays up and the reset timeout is
    scheduled. *)
Lemma toggleInv_settled w w' k :
  toggleInv w ->
  (0 < pendingToggles w)%nat ->
  toggleInProgressRef w' = toggleInProgressRef w ->
  S (pendingToggles w') = pendingToggles w ->
  timeouts w' = <[k := ResetToggleFlag]> (timeouts w) ->
  toggleInv w'.
Proof.
  intros (H0 & H1 & H2 & H3) Hpos Hf Hp Ht.
  assert (Hone : pendingToggles w = 1%nat) by lia.
  assert (Hflag : toggleInProgressRef w = true).
  { destruct (toggleInProgressRef w); [reflexivity|].
    destruct (H0 eq_refl) as [Hz _]. lia. }
  eapply toggleInv_reset_scheduled.
  - by rewrite Hf.
  - lia.
  - exact Ht.
  - by apply H2.
Qed.

Lemma toggleInv_resumeSettles i r w :
  toggleInv w -> toggleInv (fst (resumeSettles i r w)).
Proof.
  intros Hinv. unfold resumeSettles.
  destruct (awaitingResume w !! i) as [fr|] eqn:Hi; [|exact Hinv].
  pose proof (filter_toggle_delete _ _ _ Hi) as Hdel.
  destruct (startResumed_frame (sf_closure fr) r
              (set_awaitingResume (delete i (awaitingResume w)) w))
    as (F1 & F2 & F3 & F4).
  cbv zeta in F1, F2, F3, F4. revert F1 F2 F3 F4.
  generalize (startResumed (sf_closure fr) r
                (set_awaitingResume (delete i (awaitingResume w)) w)).
  intros [w1 o] F1 F2 F3 F4. cbn in F1, F2, F3, F4 |- *.
  destruct (sf_toggle fr) eqn:Hfr.
  - eapply (toggleInv_settled w _ (nextTimerId w1) Hinv).
    + unfold pendingToggles. lia.
    + cbn. exact F1.
    + unfold pendingToggles. cbn. rewrite F2, F3. lia.
    + cbn. by rewrite F4.
  - revert Hinv. apply toggleInv_frame; [exact F1| |exact F4].
    unfold pendingToggles. rewrite F2, F3. lia.
Qed.

Lemma toggleInv_toggleSettles w :
  toggleInv w -> toggleInv (fst (toggleSettles w)).
Proof.
  intros Hinv. unfold toggleSettles.
  destruct (togglesSettling w) as [|o rest] eqn:Hs; [exact Hinv|].
  cbn. eapply (toggleInv_settled w _ (nextTimerId w) Hinv).
  - unfold pendingToggles. rewrite Hs. cbn. lia.
  - reflexivity.
  - unfold pendingToggles. rewrite Hs. cbn. lia.
  - reflexivity.
Qed.

Lemma toggleInv_fireTimeout id win w :
  toggleInv w -> toggleInv (fireTimeout id win w).
Proof.
  intros Hinv. unfold fireTimeout.
  destruct (timeouts w !! id) as [[|cl]|] eqn:Hid; [| |exact Hinv].
  - destruct Hinv as (H0 & H1 & H2 & H3).
    assert (Hp : pendingToggles w = O).
    { destruct (pendingToggles w) as [|[|n]] eqn:E; [reflexivity| |lia].
      by destruct (H2 eq_refl id). }
    unfold toggleInv, pendingToggles in *. cbn.
    split; [|split; [exact H1|split]].
    + intros _. split; [exact Hp|]. by apply noResets_delete_unique.
    + intros _. by apply noResets_delete_unique.
    + by apply uniqueReset_delete.
  - apply toggleInv_startCall.
    destruct Hinv as (H0 & H1 & H2 & H3).
    unfold toggleInv, pendingToggles in *. cbn.
    split; [|split; [exact H1|split]].
    + intros Hf. destruct (H0 Hf) as [Hp Hm]. split; [exact Hp|].
      by apply noResets_delete.
    + intros Hp. by apply noResets_delete, H2.
    + by apply uniqueReset_delete.
Qed.

Lemma toggleInv_step e w : toggleInv w -> toggleInv (step e w).
Proof.
  intros Hinv. destruct e as [cl win| |cl win|cl p|i r| |id|id win|st]; cbn [step].
  - by apply toggleInv_startCall.
  - destruct (stop_frame w) as (F1 & F2 & F3 & F4 & _).
    revert Hinv. apply toggleInv_frame; [exact F1| |exact F4].
    unfold pendingToggles. cbv zeta in F2, F3. by rewrite F2, F3.
  - by apply toggleInv_toggleCall.
  - by apply toggleInv_updateSettings.
  - by apply toggleInv_resumeSettles.
  - by apply toggleInv_toggleSettles.
  - destruct (fireInterval_frame id w) as (F1 & F2 & F3 & F4 & _).
    revert Hinv. apply toggleInv_frame; [exact F1| |exact F4].
    unfold pendingToggles. cbv zeta in F2, F3. by rewrite F2, F3.
  - by apply toggleInv_fireTimeout.
  - destruct (audioContextRef w); [|exact Hinv].
    revert Hinv. by apply toggleInv_frame.
Qed.

Lemma toggleInv_run es w : toggleInv w -> toggleInv (run es w).
Proof.
  revert w. induction es as [|e es IH]; intros w Hinv; [exact Hinv|].
  cbn. apply IH. by apply toggleInv_step.
Qed.

(** In every reachable world an unsettled [toggle] keeps the flag up. *)
Lemma pending_flag es st :
  togglePending (run es (mounted st)) ->
  toggleInProgressRef (run es (mounted st)) = true.
Proof.
  intros Hp. destruct (toggleInv_run es _ (toggleInv_mounted st)) as (H0 & _).
  destruct (toggleInProgressRef _); [reflexivity|].
  destruct (H0 eq_refl) as [Hz _]. unfold togglePending in Hp. lia.
Qed.

Lemma run_app es es' w : run (es ++ es') w = run es' (run es w).
Proof. unfold run. apply fold_left_app. Qed.

Lemma toggleCall_first cl win w c :
  toggleInProgressRef w = false ->
  cl_isPlaying cl = false ->
  startInProgressRef w = false ->
  contextFor win w = Some c ->
  let w1 := fst (toggleCall cl win w) in
  toggleInProgressRef w1 = true /\
  match c with
  | suspended =>
      isPlaying w1 = isPlaying w /\
      awaitingResume w1 = awaitingResume w ++ [mkFrame cl true] /\
      togglesSettling w1 = togglesSettling w
  | _ =>
      isPlaying w1 = true /\
      awaitingResume w1 = awaitingResume w /\
      togglesSettling w1 = togglesSettling w ++ [Fulfilled]
  end.
Proof.
  intros Hf Hcl Hs Hc. unfold toggleCall. rewrite Hf, Hcl.
  rewrite (startCall_eq cl win true (set_toggleInProgressRef true w) c Hcl Hs Hc).
  cbv zeta.
  match goal with |- context [startBody ?c ?x] =>
    destruct (startBody_frame c x) as (F1 & F2 & F3 & F4 & F5 & F6);
    revert F1 F2 F3 F4 F5 F6; generalize (startBody c x) end.
  intros wb F1 F2 F3 F4 F5 F6. cbn in F1, F2, F3, F4, F5, F6.
  destruct c; cbn; rewrite ?F1, ?F2, ?F3, ?F6; repeat split; reflexivity.
Qed.

Lemma resumeSettles_none i r w :
  awaitingResume w !! i = None -> resumeSettles i r w = (w, None).
Proof. intros H. unfold resumeSettles. rewrite H. reflexivity. Qed.

Lemma resumeSettles_playing i c' w fr :
  awaitingResume w !! i = Some fr ->
  isPlaying (fst (resumeSettles i (Some c') w)) = true.
Proof.
  intros H. unfold resumeSettles. rewrite H. unfold startResumed, startFinally.
  match goal with |- context [startBody ?c ?x] =>
    destruct (startBody_frame c x) as (_ & _ & _ & _ & _ & F6);
    revert F6; generalize (startBody c x) end.
  intros wb F6. cbn in F6. destruct (sf_toggle fr); cbn; exact F6.
Qed.

Lemma toggleSettles_playing w :
  isPlaying (fst (toggleSettles w)) = isPlaying w.
Proof. unfold toggleSettles. destruct (togglesSettling w); reflexivity. Qed.

Lemma toggleCall_no_context cl win w :
  toggleInProgressRef w = false ->
  cl_isPlaying cl = false ->
  startInProgressRef w = false ->
  contextFor win w = None ->
  let w1 := fst (toggleCall cl win w) in
  isPlaying w1 = false /\ awaitingResume w1 = awaitingResume w.
Proof.
  intros Hf Hcl Hs Hc. unfold toggleCall. rewrite Hf, Hcl.
  destruct (startCall_no_context cl win true (set_toggleInProgressRef true w)
              Hcl Hs Hc) as [e ->].
  cbn. split; reflexivity.
Qed.

Lemma resumeSettles_rejected i w fr :
  awaitingResume w !! i = Some fr ->
  isPlaying (fst (resumeSettles i None w)) = false.
Proof.
  intros H. unfold resumeSettles. rewrite H. cbn.
  destruct (sf_toggle fr); reflexivity.
Qed.

(** C4 (as amended). [w] is any state the hook reaches from mounting. After
    a first [toggle] and whatever events follow it, as long as a [toggle]
    call is still unsettled a further call changes nothing and returns at
    once. When the first call finds the hook stopped and no [start] under
    way, the two calls and the settling of the first change the
    playing/stopped state exactly once, to playing, if the audio context
    can be used; and not at all, the hook staying stopped, if no audio
    context can be built or [resume()] rejects. When the first call finds
    the hook playing it stops it at once, and a second call made before the
    flag is reset changes nothing: one change. *)
Theorem toggle_reentrancy (es mid : list Event) (st : option ContextState)
    (cl2 : Closure) (win win2 : Window) (c' : ContextState)
    (resumed : option ContextState) :
  let w := run es (mounted st) in
  let first := CallToggle (currentClosure w) win in
  let second := CallToggle cl2 win2 in
  (togglePending (run (first :: mid) w) ->
     toggleCall cl2 win2 (run (first :: mid) w)
     = (run (first :: mid) w, Settled Fulfilled)) /\
  (toggleInProgressRef w = false ->
   isPlaying w = false ->
   startInProgressRef w = false ->
   ~ audioFails win (Some c') w ->
   let settle :=
     [ResumeSettles (length (awaitingResume w)) (Some c'); ToggleSettles] in
   togglePending (step first w) /\
   step second (step first w) = step first w /\
   playingChanges (first :: second :: settle) w = 1%nat /\
   isPlaying (run (first :: second :: settle) w) = true) /\
  (toggleInProgressRef w = false ->
   isPlaying w = false ->
   startInProgressRef w = false ->
   audioFails win resumed w ->
   let settle :=
     [ResumeSettles (length (awaitingResume w)) resumed; ToggleSettles] in
   togglePending (step first w) /\
   step second (step first w) = step first w /\
   playingChanges (first :: second :: settle) w = 0%nat /\
   isPlaying (run (first :: second :: settle) w) = false) /\
  (toggleInProgressRef w = false ->
   isPlaying w = true ->
   step second (step first w) = step first w /\
   playingChanges [first; second] w = 1%nat /\
   isPlaying (run [first; second] w) = false).
Proof.
  intros w first second. split; [|split; [|split]].
  - intros Hp. apply toggleCall_ignored.
    subst w. rewrite <- run_app in Hp |- *. by apply pending_flag.
  - intros Hf Hplay Hs Haudio settle.
    destruct (not_audioFails _ _ _ Haudio) as (c & Hc & _).
    destruct (toggleCall_first (currentClosure w) win w c Hf Hplay Hs Hc)
      as [G1 G2].
    destruct (toggleCall_start_branch (currentClosure w) win w Hf Hplay)
      as (_ & P1 & _).
    cbv zeta in G1, G2, P1.
    assert (Hsecond : step second (step first w) = step first w).
    { subst first second. cbn [step]. by rewrite toggleCall_ignored. }
    split; [unfold togglePending; subst first; cbn [step]; lia|].
    split; [exact Hsecond|].
    subst settle. cbn [playingChanges run fold_left]. rewrite !Hsecond.
    rewrite Bool.eqb_reflx.
    subst first. cbn [step] in *.
    set (w1 := fst (toggleCall (currentClosure w) win w)) in *.
    rewrite toggleSettles_playing, Bool.eqb_reflx, Hplay.
    destruct c.
    + destruct G2 as (G2 & G3 & G4). rewrite G2, Hplay in *.
      assert (Hl : awaitingResume w1 !! length (awaitingResume w)
                   = Some (mkFrame (currentClosure w) true)).
      { rewrite G3, lookup_app_r by lia. by rewrite Nat.sub_diag. }
      rewrite (resumeSettles_playing _ _ _ _ Hl). cbn. split; reflexivity.
    + destruct G2 as (G2 & G3 & G4). rewrite G2.
      rewrite resumeSettles_none by (rewrite G3; apply lookup_ge_None; lia).
      cbn. rewrite G2. cbn. split; reflexivity.
    + destruct G2 as (G2 & G3 & G4). rewrite G2.
      rewrite resumeSettles_none by (rewrite G3; apply lookup_ge_None; lia).
      cbn. rewrite G2. cbn. split; reflexivity.
  - intros Hf Hplay Hs Haudio settle.
    destruct (toggleCall_start_branch (currentClosure w) win w Hf Hplay)
      as (G1 & P1 & _).
    cbv zeta in G1, P1.
    assert (Hsecond : step second (step first w) = step first w).
    { subst first second. cbn [step]. by rewrite toggleCall_ignored. }
    split; [unfold togglePending; subst first; cbn [step]; lia|].
    split; [exact Hsecond|].
    subst settle. cbn [playingChanges run fold_left]. rewrite !Hsecond.
    rewrite Bool.eqb_reflx.
    subst first. cbn [step] in *.
    set (w1 := fst (toggleCall (currentClosure w) win w)) in *.
    rewrite toggleSettles_playing, Bool.eqb_reflx, Hplay.
    destruct Haudio as [Hc|[Hc ->]].
    + destruct (toggleCall_no_context (currentClosure w) win w Hf Hplay Hs Hc)
        as [N1 N2].
      fold w1 in N1, N2. rewrite N1.
      rewrite resumeSettles_none by (rewrite N2; apply lookup_ge_None; lia).
      cbn. rewrite N1. cbn. split; reflexivity.
    + destruct (toggleCall_first (currentClosure w) win w suspended
                  Hf Hplay Hs Hc) as (_ & G2 & G3 & _).
      fold w1 in G2, G3. rewrite G2, Hplay.
      assert (Hl : awaitingResume w1 !! length (awaitingResume w)
                   = Some (mkFrame (currentClosure w) true)).
      { rewrite G3, lookup_app_r by lia. by rewrite Nat.sub_diag. }
      rewrite (resumeSettles_rejected _ _ _ Hl). cbn. split; reflexivity.
  - intros Hf Hplay.
    destruct (toggleCall_stop_branch (currentClosure w) win w Hf Hplay)
      as (G1 & _ & _ & G4 & _).
    cbv zeta in G1, G4.
    assert (Hsecond : step second (step first w) = step first w).
    { subst first second. cbn [step]. by rewrite toggleCall_ignored. }
    split; [exact Hsecond|].
    cbn [playingChanges run fold_left]. rewrite !Hsecond.
    rewrite Bool.eqb_reflx.
    subst first. cbn [step] in *. rewrite G4, Hplay. cbn. split; reflexivity.
Qed.

(** C5. When a call of [start] that is not ignored finds no audio context
    and cannot build one, or finds it suspended and [resume()] rejects, the
    promise of [start] is rejected, [isPlaying] is false afterwards, the
    in-progress flag is down again, and nothing was scheduled or played. *)
Theorem start_failure_rejects (cl : Closure) (win : Window)
    (resumed : option ContextState) (w : World) :
  cl_isPlaying cl = false ->
  startInProgressRef w = false ->
  audioFails win resumed w ->
  let r := startAndSettle cl win resumed w in
  (exists e, snd r = Rejected e) /\
  isPlaying (fst r) = false /\
  startInProgressRef (fst r) = false /\
  intervalRef (fst r) = intervalRef w /\
  intervals (fst r) = intervals w /\
  played (fst r) = played w.
Proof.
  intros Hcl Hs [Hnone|[Hsusp ->]] r; subst r; unfold startAndSettle.
  - destruct (startCall_no_context cl win false w Hcl Hs Hnone) as [e ->].
    cbn. repeat split; eauto.
  - rewrite (startCall_eq cl win false w suspended Hcl Hs Hsusp). cbv zeta.
    unfold resumeSettles. cbn.
    rewrite lookup_app_r by lia. rewrite Nat.sub_diag. cbn.
    repeat split; eauto.
Qed.

Lemma tracked_stop_empty w : intervalsTracked w -> intervals (stop w) = ∅.
Proof.
  intros Ht. unfold stop. apply map_eq. intros i. rewrite lookup_empty.
  destruct (intervalRef w) as [id|] eqn:Hr; cbn.
  - destruct (decide (id = i)) as [->|Hne]; [apply lookup_delete_eq|].
    rewrite lookup_delete_ne by exact Hne.
    destruct (intervals w !! i) as [t|] eqn:Hi; [|reflexivity].
    specialize (Ht i t Hi). congruence.
  - destruct (intervals w !! i) as [t|] eqn:Hi; [|reflexivity].
    specialize (Ht i t Hi). congruence.
Qed.



(** C4, the claim as stated fails: when [resume()] rejects, two rapid calls
    of [toggle] (the second while the first is unsettled) change the
    playing/stopped state not at all, and the hook stays stopped. *)
Lemma toggle_twice_changes_nothing :
  let w := mounted (Some suspended) in
  let first := CallToggle (currentClosure w) NoWindow in
  (0 < pendingToggles (step first w))%nat /\
  step first (step first w) = step first w /\
  playingChanges [first; first; ResumeSettles O None; ToggleSettles] w = O /\
  isPlaying (run [first; first; ResumeSettles O None; ToggleSettles] w) = false.
Proof. vm_compute. repeat split. lia. Qed.

(** C3, the claim as stated fails at volume 0 (the volume slider starts at
    0): the accented first beat and the plain second beat are both played
    with gain 0. *)
Lemma accent_gain_not_higher_at_volume_zero :
  let s := mkSettings 120 0 click true 4 in
  let w := fireInterval 1 (startBody (mkClosure false s) (mounted (Some running))) in
  exists t0 t1 accented plain,
    played w = [(t1, plain); (t0, accented)] /\
    isAccentBeat s 0 = true /\ isAccentBeat s 1 = false /\
    accented = beatTone s 0 /\ plain = beatTone s 1 /\
    ~ (tone_gain plain < tone_gain accented)%Q.
Proof.
  do 4 eexists. split; [vm_compute; reflexivity|].
  repeat split; try (vm_compute; reflexivity).
  vm_compute. intros H. discriminate H.
Qed.
End MetronomeFacts.

(** ** The debounced slider *)

Section SliderFacts.
Import DebouncedSlider.
Context {T : Type} `{EqDecision T}.
Variable debounceMs : Z.
Implicit Types (s : State T) (v : T).

Lemma tracked_cancel s : tracked s -> timeouts (cancelSave s) = ∅.
Proof.
  intros Ht. unfold cancelSave. apply map_eq. intros i. rewrite lookup_empty.
  destruct (timeoutRef s) as [id|] eqn:Hr; cbn.
  - destruct (decide (id = i)) as [->|Hne]; [apply lookup_delete_eq|].
    rewrite lookup_delete_ne by exact Hne.
    destruct (timeouts s !! i) as [t|] eqn:Hi; [|reflexivity].
    specialize (Ht i t Hi). congruence.
  - destruct (timeouts s !! i) as [t|] eqn:Hi; [|reflexivity].
    specialize (Ht i t Hi). congruence.
Qed.

Lemma cancelSave_frame s :
  let s' := cancelSave s in
  value s' = value s /\ valueRef s' = valueRef s /\
  isInteracting s' = isInteracting s /\
  isInteractingRef s' = isInteractingRef s /\
  timeoutRef s' = None /\ isPending s' = false /\
  saved s' = saved s /\ now s' = now s /\ nextTimerId s' = nextTimerId s /\
  initialValue s' = initialValue s.
Proof.
  unfold cancelSave. destruct (timeoutRef s) eqn:E; cbn;
    repeat split; try reflexivity. exact E.
Qed.

Lemma handleStart_facts s :
  tracked s ->
  let s' := handleStart s in
  timeouts s' = ∅ /\ timeoutRef s' = None /\
  isInteractingRef s' = true /\ isInteracting s' = true /\
  valueRef s' = valueRef s /\ value s' = value s /\
  saved s' = saved s /\ now s' = now s /\ nextTimerId s' = nextTimerId s.
Proof.
  intros Ht. unfold handleStart.
  set (s0 := setIsInteracting true (set_isInteractingRef true s)).
  assert (Ht0 : tracked s0) by exact Ht.
  pose proof (tracked_cancel s0 Ht0) as He.
  destruct (cancelSave_frame s0) as (F1 & F2 & F3 & F4 & F5 & F6 & F7 & F8 & F9 & _).
  cbv zeta in *. rewrite He, F1, F2, F3, F4, F5, F7, F8, F9.
  repeat split; reflexivity.
Qed.

(** During an interaction [onChange] only writes the live value. *)
Lemma handleChange_interacting v s :
  isInteractingRef s = true ->
  handleChange debounceMs v s = setValue v (set_valueRef v s).
Proof. intros Hi. unfold handleChange. cbn. rewrite Hi. reflexivity. Qed.

Lemma changes_facts vs s :
  isInteractingRef s = true ->
  let s' := fold_left (fun s v => handleChange debounceMs v s) vs s in
  timeouts s' = timeouts s /\ timeoutRef s' = timeoutRef s /\
  isInteractingRef s' = true /\
  valueRef s' = default (valueRef s) (last vs) /\
  value s' = default (value s) (last vs) /\
  saved s' = saved s /\ now s' = now s /\ nextTimerId s' = nextTimerId s.
Proof.
  revert s. induction vs as [|v vs IH]; intros s Hi.
  - cbn. repeat split; try reflexivity. exact Hi.
  - cbn [fold_left]. rewrite (handleChange_interacting v s Hi).
    destruct (IH (setValue v (set_valueRef v s)) Hi)
      as (F1 & F2 & F3 & F4 & F5 & F6 & F7 & F8).
    cbv zeta in *. rewrite F1, F2, F3, F4, F5, F6, F7, F8. cbn.
    rewrite last_cons. destruct (last vs); repeat split; reflexivity.
Qed.

Lemma fireTimeout_none id s : timeouts s !! id = None -> fireTimeout id s = s.
Proof. intros Hn. unfold fireTimeout. rewrite Hn. reflexivity. Qed.

Lemma interaction_outcome (s : State T) (vs : list T) (vn : T) :
  tracked s ->
  last vs = Some vn ->
  let s' := interaction debounceMs vs s in
  let id := nextTimerId s in
  let fired := fireTimeout id s' in
  timeouts s' = {[ id := mkTimeout (now s + debounceMs) SaveLive ]} /\
  timeoutRef s' = Some id /\
  isPending s' = true /\
  isInteracting s' = false /\
  value s' = vn /\
  saved s' = saved s /\
  saved fired = vn :: saved s /\
  now fired = Z.max (now s) (now s + debounceMs) /\
  isPending fired = false /\
  timeouts fired = ∅ /\
  forall j, saved (fireTimeout j fired) = vn :: saved s.
Proof.
  intros Ht Hl s' id fired.
  destruct (handleStart_facts s Ht) as (A1 & A2 & A3 & A4 & A5 & A6 & A7 & A8 & A9).
  destruct (changes_facts vs (handleStart s) A3)
    as (B1 & B2 & B3 & B4 & B5 & B6 & B7 & B8).
  cbv zeta in *.
  assert (Hs' : s' = handleEnd debounceMs
                       (fold_left (fun s v => handleChange debounceMs v s) vs
                          (handleStart s))) by reflexivity.
  clearbody s'. revert B1 B2 B3 B4 B5 B6 B7 B8 Hs'.
  generalize (fold_left (fun s v => handleChange debounceMs v s) vs (handleStart s)).
  intros s2 B1 B2 B3 B4 B5 B6 B7 B8 Hs'.
  rewrite Hl in B4, B5. cbn in B4, B5.
  assert (Ht' : timeouts s'
                = {[ id := mkTimeout (now s + debounceMs) SaveLive ]}).
  { rewrite Hs'. unfold handleEnd, hostSetTimeout. cbn.
    rewrite B1, A1, B7, A8, B8, A9. apply insert_empty. }
  assert (Hv : valueRef s' = vn) by (rewrite Hs'; cbn; exact B4).
  assert (Hsv : saved s' = saved s) by (rewrite Hs'; cbn; congruence).
  assert (Hnow : now s' = now s) by (rewrite Hs'; cbn; congruence).
  assert (Hf : fired = runSave SaveLive
                 (set_timeouts (delete id (timeouts s'))
                    (set_now (Z.max (now s') (now s + debounceMs)) s'))).
  { subst fired. unfold fireTimeout. rewrite Ht', lookup_singleton_eq. cbn.
    rewrite ?Ht'. reflexivity. }
  clearbody fired.
  split; [exact Ht'|].
  split; [rewrite Hs'; cbn; by rewrite B8, A9|].
  split; [rewrite Hs'; reflexivity|].
  split; [rewrite Hs'; reflexivity|].
  split; [rewrite Hs'; cbn; exact B5|].
  split; [exact Hsv|].
  assert (Hfs : saved fired = vn :: saved s).
  { rewrite Hf. cbn. by rewrite Hv, Hsv. }
  assert (Hft : timeouts fired = ∅).
  { rewrite Hf. cbn. rewrite Ht'. apply delete_singleton_eq. }
  split; [exact Hfs|].
  split; [rewrite Hf; cbn; by rewrite Hnow|].
  split; [rewrite Hf; reflexivity|].
  split; [exact Hft|].
  intros j. rewrite fireTimeout_none; [exact Hfs|].
  rewrite Hft. apply lookup_empty.
Qed.

(** C7. From a state whose scheduled timeout, if any, is the one
    [timeoutRef] holds, one interaction [onStart], [onChange v1 .. vn]
    (n >= 1), [onEnd] leaves exactly one timeout scheduled, due
    [debounceMs] after [onEnd], which reads the live value when it fires:
    firing it calls [onSave] once, with vn, and leaves no timeout behind, so
    that no later firing saves again. *)
Theorem interaction_saves_last_value (s : State T) (vs : list T) (vn : T) :
  tracked s ->
  last vs = Some vn ->
  let s' := interaction debounceMs vs s in
  let id := nextTimerId s in
  let fired := fireTimeout id s' in
  timeouts s' = {[ id := mkTimeout (now s + debounceMs) SaveLive ]} /\
  timeoutRef s' = Some id /\
  isPending s' = true /\
  isInteracting s' = false /\
  value s' = vn /\
  saved s' = saved s /\
  saved fired = vn :: saved s /\
  now fired = Z.max (now s) (now s + debounceMs) /\
  isPending fired = false /\
  timeouts fired = ∅ /\
  forall j, saved (fireTimeout j fired) = vn :: saved s.
Proof. exact (interaction_outcome s vs vn). Qed.

(** *** What each handler does to the flags and to the live value *)

Lemma hostSetTimeout_frame (task : SaveTask T) s :
  let s' := snd (hostSetTimeout debounceMs task s) in
  value s' = value s /\ valueRef s' = valueRef s /\
  isInteracting s' = isInteracting s /\
  isInteractingRef s' = isInteractingRef s /\
  saved s' = saved s /\ initialValue s' = initialValue s.
Proof. cbn. repeat split; reflexivity. Qed.

Lemma handleEnd_frame s :
  let s' := handleEnd debounceMs s in
  value s' = value s /\ valueRef s' = valueRef s /\
  isInteracting s' = false /\ isInteractingRef s' = false /\
  saved s' = saved s.
Proof. cbn. repeat split; reflexivity. Qed.

Lemma handleStart_frame s :
  let s' := handleStart s in
  value s' = value s /\ valueRef s' = valueRef s /\
  isInteracting s' = true /\ isInteractingRef s' = true /\
  saved s' = saved s.
Proof.
  unfold handleStart.
  destruct (cancelSave_frame (setIsInteracting true (set_isInteractingRef true s)))
    as (F1 & F2 & F3 & F4 & _ & _ & F7 & _).
  cbv zeta in *. rewrite F1, F2, F3, F4, F7. repeat split; reflexivity.
Qed.

Lemma handleChange_flags v s :
  let s' := handleChange debounceMs v s in
  isInteracting s' = isInteracting s /\
  isInteractingRef s' = isInteractingRef s /\
  value s' = v /\ valueRef s' = v.
Proof.
  destruct (isInteractingRef s) eqn:Hi.
  - rewrite handleChange_interacting by exact Hi. cbn.
    repeat split; try reflexivity. exact Hi.
  - unfold handleChange.
    change (isInteractingRef (setValue v (set_valueRef v s)))
      with (isInteractingRef s).
    rewrite Hi.
    destruct (cancelSave_frame (setValue v (set_valueRef v s)))
      as (F1 & F2 & F3 & F4 & _).
    cbv zeta in F1, F2, F3, F4. revert F1 F2 F3 F4.
    generalize (cancelSave (setValue v (set_valueRef v s))).
    intros sc F1 F2 F3 F4. cbn in F1, F2, F3, F4 |- *.
    rewrite F1, F2, F3, F4. repeat split; try reflexivity. exact Hi.
Qed.

Lemma fireTimeout_frame id s :
  let s' := fireTimeout id s in
  value s' = value s /\ valueRef s' = valueRef s /\
  isInteracting s' = isInteracting s /\
  isInteractingRef s' = isInteractingRef s.
Proof.
  unfold fireTimeout. destruct (timeouts s !! id); cbn; repeat split; reflexivity.
Qed.

Lemma renderWith_flags u s :
  let s' := renderWith u s in
  isInteracting s' = isInteracting s /\
  isInteractingRef s' = isInteractingRef s.
Proof.
  unfold renderWith, initialValueEffect. destruct (decide (u = initialValue s)).
  - split; reflexivity.
  - change (isInteractingRef (set_initialValue u s)) with (isInteractingRef s).
    destruct (isInteractingRef s) eqn:Hi; cbn; split; try reflexivity; exact Hi.
Qed.

(** The state [isInteracting] and the ref [isInteractingRef] go together. *)
Lemma interacting_sync_step e s :
  isInteracting s = isInteractingRef s ->
  isInteracting (step debounceMs e s) = isInteractingRef (step debounceMs e s).
Proof.
  intros Hs. destruct e as [| |v|u|id]; cbn [step].
  - destruct (handleStart_frame s) as (_ & _ & F3 & F4 & _). congruence.
  - reflexivity.
  - destruct (handleChange_flags v s) as (F1 & F2 & _). congruence.
  - destruct (renderWith_flags u s) as (F1 & F2). congruence.
  - destruct (fireTimeout_frame id s) as (_ & _ & F3 & F4). congruence.
Qed.

Lemma interacting_sync es s :
  isInteracting s = isInteractingRef s ->
  isInteracting (run debounceMs es s) = isInteractingRef (run debounceMs es s).
Proof.
  revert s. induction es as [|e es IH]; intros s Hs; [exact Hs|].
  change (run debounceMs (e :: es) s) with (run debounceMs es (step debounceMs e s)).
  apply IH. by apply interacting_sync_step.
Qed.

Lemma keepsValue_step e s :
  keepsValue e = true ->
  value (step debounceMs e s) = value s /\
  valueRef (step debounceMs e s) = valueRef s.
Proof.
  destruct e as [| |v|u|id]; cbn [step keepsValue]; try discriminate; intros _.
  - destruct (handleStart_frame s) as (F1 & F2 & _). by split.
  - split; reflexivity.
  - destruct (fireTimeout_frame id s) as (F1 & F2 & _). by split.
Qed.

Lemma keepsValue_run es s :
  forallb keepsValue es = true ->
  value (run debounceMs es s) = value s /\
  valueRef (run debounceMs es s) = valueRef s.
Proof.
  revert s. induction es as [|e es IH]; intros s Hk; [by split|].
  cbn in Hk. apply andb_true_iff in Hk as [He Hes].
  destruct (keepsValue_step e s He) as [E1 E2].
  destruct (IH (step debounceMs e s) Hes) as [I1 I2].
  change (run debounceMs (e :: es) s) with (run debounceMs es (step debounceMs e s)).
  split; congruence.
Qed.

(** C10. In every state the hook reaches, a render with a new
    [initialValue] while interacting leaves the live value (state and ref)
    as it was, and no later [onStart], [onEnd] or firing brings the new
    value in; while not interacting a changed [initialValue] overwrites the
    live value, and an unchanged one does nothing. *)
Theorem initialValue_dropped_while_interacting (v0 u : T) (es : list (Event T)) :
  let s := run debounceMs es (mounted v0) in
  let s' := renderWith u s in
  (isInteracting s = true ->
     value s' = value s /\ valueRef s' = valueRef s /\
     timeouts s' = timeouts s /\ saved s' = saved s /\
     forall es', forallb keepsValue es' = true ->
       value (run debounceMs es' s') = value s /\
       valueRef (run debounceMs es' s') = valueRef s) /\
  (isInteracting s = false -> u <> initialValue s ->
     value s' = u /\ valueRef s' = u) /\
  (u = initialValue s -> s' = s).
Proof.
  intros s s'.
  assert (Hsync : isInteracting s = isInteractingRef s)
    by (apply interacting_sync; reflexivity).
  split; [|split].
  - intros Hi. rewrite Hsync in Hi.
    assert (Hv : value s' = value s /\ valueRef s' = valueRef s /\
                 timeouts s' = timeouts s /\ saved s' = saved s).
    { subst s'. unfold renderWith, initialValueEffect.
      destruct (decide (u = initialValue s)); [repeat split; reflexivity|].
      change (isInteractingRef (set_initialValue u s)) with (isInteractingRef s).
      rewrite Hi. cbn. repeat split; reflexivity. }
    destruct Hv as (V1 & V2 & V3 & V4).
    split; [exact V1|]. split; [exact V2|]. split; [exact V3|].
    split; [exact V4|]. intros es' Hk.
    destruct (keepsValue_run es' s' Hk) as [K1 K2]. split; congruence.
  - intros Hi Hne. rewrite Hsync in Hi. subst s'.
    unfold renderWith, initialValueEffect.
    destruct (decide (u = initialValue s)); [contradiction|].
    change (isInteractingRef (set_initialValue u s)) with (isInteractingRef s).
    rewrite Hi. cbn. split; reflexivity.
  - intros He. subst s'. unfold renderWith.
    destruct (decide (u = initialValue s)); [reflexivity|contradiction].
Qed.

(** *** Timeouts stay tracked when [onEnd] only ends interactions *)

Lemma tracked_singleton s id t :
  timeouts s = {[ id := t ]} -> timeoutRef s = Some id -> tracked s.
Proof.
  intros Ht Hr j t' Hj. rewrite Ht in Hj.
  apply lookup_singleton_Some in Hj as [<- _]. exact Hr.
Qed.

Lemma tracked_empty s : timeouts s = ∅ -> tracked s.
Proof. intros Ht j t Hj. rewrite Ht, lookup_empty in Hj. discriminate. Qed.

Lemma settled_step e s :
  settled s ->
  (e = OnEnd -> isInteractingRef s = true) ->
  settled (step debounceMs e s).
Proof.
  intros [Ht He] Hb. destruct e as [| |v|u|id]; cbn [step].
  - destruct (handleStart_facts s Ht) as (A1 & _).
    split; [by apply tracked_empty | intros _; exact A1].
  - specialize (He (Hb eq_refl)). split; [|discriminate].
    apply (tracked_singleton _ (nextTimerId s)
             (mkTimeout (now s + debounceMs) SaveLive)); [|reflexivity].
    cbn. rewrite He. apply insert_empty.
  - destruct (isInteractingRef s) eqn:Hi.
    + rewrite handleChange_interacting by exact Hi. split; [exact Ht|].
      intros _. by apply He.
    + unfold handleChange.
      change (isInteractingRef (setValue v (set_valueRef v s)))
        with (isInteractingRef s).
      rewrite Hi.
      assert (Ht0 : tracked (setValue v (set_valueRef v s))) by exact Ht.
      pose proof (tracked_cancel _ Ht0) as Hc.
      destruct (cancelSave_frame (setValue v (set_valueRef v s)))
        as (_ & _ & _ & F4 & _).
      cbv zeta in F4. revert Hc F4.
      generalize (cancelSave (setValue v (set_valueRef v s))).
      intros sc Hc F4. cbn in F4. split.
      * apply (tracked_singleton _ (nextTimerId sc)
                 (mkTimeout (now sc + debounceMs) (SaveCaptured v))); [|reflexivity].
        cbn. rewrite Hc. apply insert_empty.
      * cbn. rewrite F4, Hi. discriminate.
  - unfold renderWith, initialValueEffect.
    destruct (decide (u = initialValue s)); [by split|].
    change (isInteractingRef (set_initialValue u s)) with (isInteractingRef s).
    destruct (isInteractingRef s) eqn:Hi.
    + split; [exact Ht | intros _; exact (He eq_refl)].
    + split; [exact Ht|]. cbn. intros Hi'. rewrite Hi in Hi'. discriminate.
  - unfold fireTimeout. destruct (timeouts s !! id) as [t|] eqn:Hid; [|by split].
    split.
    + intros j t' Hj. cbn in Hj. apply lookup_delete_Some in Hj as [_ Hj].
      exact (Ht j t' Hj).
    + cbn. intros Hi. rewrite (He Hi), lookup_empty in Hid. discriminate.
Qed.

Lemma settled_run es s :
  settled s -> bracketed debounceMs es s = true ->
  settled (run debounceMs es s).
Proof.
  revert s. induction es as [|e es IH]; intros s Hs Hb; [exact Hs|].
  change (run debounceMs (e :: es) s) with (run debounceMs es (step debounceMs e s)).
  cbn [bracketed] in Hb. apply andb_true_iff in Hb as [He Hes].
  apply IH; [|exact Hes]. apply settled_step; [exact Hs|].
  intros ->. exact He.
Qed.

(** Every state reached from the mounted hook by runs in which [onEnd]
    only ends interactions has its timeouts tracked. *)
Lemma tracked_reachable v0 es :
  bracketed debounceMs es (mounted v0) = true ->
  tracked (run debounceMs es (mounted v0)).
Proof.
  intros Hb. apply (settled_run es (mounted v0)); [|exact Hb].
  split; [by apply tracked_empty | reflexivity].
Qed.

(** X29. The save scheduled by [onEnd] reads the live value when it
    fires: a new [initialValue] that arrives in between is what gets saved,
    and the value the user left the slider at is not. *)
Lemma save_reads_live_value (s : State T) (vs : list T) (vn u : T) :
  tracked s ->
  last vs = Some vn ->
  u <> initialValue s ->
  saved (fireTimeout (nextTimerId s)
           (renderWith u (interaction debounceMs vs s)))
  = u :: saved s.
Proof.
  intros Ht Hl Hu.
  destruct (interaction_outcome s vs vn Ht Hl)
    as (I1 & _ & _ & I4 & _ & I6 & _).
  cbv zeta in I1, I4, I6.
  assert (Hi : isInteractingRef (interaction debounceMs vs s) = false) by reflexivity.
  assert (Hiv : initialValue (interaction debounceMs vs s) = initialValue s).
  { unfold interaction. cbn.
    destruct (handleStart_facts s Ht) as (_ & _ & A3 & _).
    clear I1 I4 I6 Hi. revert A3.
    assert (Hs : initialValue (handleStart s) = initialValue s).
    { unfold handleStart.
      destruct (cancelSave_frame (setIsInteracting true (set_isInteractingRef true s)))
        as (_ & _ & _ & _ & _ & _ & _ & _ & _ & F). exact F. }
    rewrite <- Hs. generalize (handleStart s). clear.
    induction vs as [|v vs IH]; intros s0 A3; [reflexivity|].
    cbn [fold_left]. rewrite handleChange_interacting by exact A3.
    rewrite IH by exact A3. reflexivity. }
  revert I1 I6 Hi Hiv. generalize (interaction debounceMs vs s).
  intros s' I1 I6 Hi Hiv.
  unfold renderWith, initialValueEffect. rewrite Hiv.
  destruct (decide (u = initialValue s)); [contradiction|].
  change (isInteractingRef (set_initialValue u s')) with (isInteractingRef s').
  rewrite Hi. unfold fireTimeout. cbn. rewrite I1, lookup_singleton_eq. cbn.
  by rewrite I6.
Qed.
End SliderFacts.

(** ** The wake lock *)

Section WakeLockFacts.
Import WakeLock.

(** The call never throws, and its result and the state it leaves are
    those of the two mechanisms. *)
Lemma enableWakeLock_eval (p : Platform) (s : State) :
  snd (enableWakeLock p s) = inr (fallbackSucceeds p s || nativeSucceeds p) /\
  isWakeLockActive (fst (enableWakeLock p s))
  = fallbackSucceeds p s || nativeSucceeds p.
Proof.
  destruct s as [a b c [n|] d];
    destruct p as [[] [] [] [] []]; split; reflexivity.
Qed.

(** C9. [enableWakeLock] never throws. If both the NoSleep fallback and the
    native lock fail it resolves to false and leaves [isWakeLockActive]
    false; if either succeeds it resolves to true (and [isWakeLockActive] is
    true). *)
Theorem enableWakeLock_both_fail_or_either (p : Platform) (s : State) :
  let r := enableWakeLock p s in
  (exists b, snd r = inr b) /\
  (fallbackSucceeds p s = false -> nativeSucceeds p = false ->
     snd r = inr false /\ isWakeLockActive (fst r) = false) /\
  (fallbackSucceeds p s = true \/ nativeSucceeds p = true ->
     snd r = inr true /\ isWakeLockActive (fst r) = true).
Proof.
  intros r. subst r. destruct (enableWakeLock_eval p s) as [E1 E2].
  rewrite E1, E2. split; [eauto|]. split.
  - intros -> ->. split; reflexivity.
  - intros [-> | ->]; rewrite ?orb_true_r; split; reflexivity.
Qed.
End WakeLockFacts.

(** ** The practice timers *)

Section SessionFacts.
Import Session.

Lemma openPauses_app l l' : openPauses (l ++ l') = (openPauses l + openPauses l')%nat.
Proof. unfold openPauses. rewrite List.filter_app, length_app. reflexivity. Qed.

Lemma openPauses_closed l :
  Forall (fun p => isOpen p = false) l -> openPauses l = O.
Proof.
  unfold openPauses. induction 1 as [|p l Hp _ IH]; [reflexivity|].
  cbn. rewrite Hp. exact IH.
Qed.

Lemma wellPaused_invariant b l : wellPaused b l -> pauseInvariant b l.
Proof.
  intros (cp & Hc & Hl). pose proof (openPauses_closed cp Hc) as H0.
  unfold pauseInvariant. destruct b.
  - destruct Hl as [t ->]. rewrite openPauses_app, H0. cbn.
    split; [lia|]. split; [reflexivity | lia].
  - subst l. rewrite H0. split; [lia|]. split; [lia | discriminate].
Qed.

Lemma wellPaused_nil : wellPaused false [].
Proof. exists []. split; [constructor | reflexivity]. Qed.

Lemma wellPaused_push t l :
  wellPaused false l -> wellPaused true (l ++ [mkPause t None]).
Proof. intros (cp & Hc & ->). exists cp. split; [exact Hc|]. by exists t. Qed.

Lemma last_snoc_insert (l : list Pause) (x y : Pause) :
  <[Nat.pred (length (l ++ [x])) := y]> (l ++ [x]) = l ++ [y].
Proof.
  rewrite length_app. cbn. rewrite Nat.add_1_r. cbn.
  rewrite insert_app_r_alt by lia. rewrite Nat.sub_diag. reflexivity.
Qed.

Lemma closeLastPause_open t s cp t0 :
  pauses s = cp ++ [mkPause t0 None] ->
  pauses (closeLastPause t s) = cp ++ [mkPause t0 (Some t)].
Proof.
  intros Hp. unfold closeLastPause. rewrite Hp, last_snoc. cbn.
  apply last_snoc_insert.
Qed.

Lemma wellPaused_close t s :
  wellPaused true (pauses s) -> wellPaused false (pauses (closeLastPause t s)).
Proof.
  intros (cp & Hc & [t0 Hp]). rewrite (closeLastPause_open t s cp t0 Hp).
  exists (cp ++ [mkPause t0 (Some t)]). split; [|reflexivity].
  apply Forall_app. split; [exact Hc|]. constructor; [reflexivity | constructor].
Qed.

(** The [forEach] of lines 263-268 adds up the pause lengths. *)
Lemma fold_pause_time endT l acc :
  fold_left (fun a p => a + (default endT (p_end p) - p_start p)) l acc
  = acc + foldr (fun p a => pauseLength endT p + a) 0 l.
Proof.
  revert acc. induction l as [|p l IH]; intros acc; cbn; [lia|].
  rewrite IH. unfold pauseLength. lia.
Qed.
End SessionFacts.

Section OptimizedTimerFacts.
Import Session MobileOptimizedTimer.

Lemma timerInv_mounted t u sg n : timerInv (mounted t u sg n).
Proof.
  eexists. split; [reflexivity|]. split; [apply wellPaused_nil|].
  repeat split; reflexivity.
Qed.

Lemma savePracticeSession_frame b s :
  let s' := savePracticeSession b s in
  sessionRef s' = sessionRef s /\ isPaused s' = isPaused s /\
  isRunning s' = isRunning s /\ time s' = time s /\
  songNotes s' = songNotes s /\ (isSaving s = false -> isSaving s' = false).
Proof.
  unfold savePracticeSession.
  destruct (user s); [|repeat split; try reflexivity; trivial].
  destruct (sessionRef s) eqn:E; [|repeat split; try reflexivity; trivial].
  destruct (0 <? durationMinutes p); destruct b; cbn;
    repeat split; try reflexivity; trivial.
Qed.

Lemma timerInv_step e s : timerInv s -> timerInv (step e s).
Proof.
  intros Hinv. pose proof Hinv as (session & Hs & Hw & Hr & Hd & Hsv).
  destruct e as [t|t|t t' b|]; cbn [step].
  - destruct (isRunning s) eqn:Hrun; [exact Hinv|].
    unfold handleStart. destruct (isPaused s) eqn:Hp.
    + exists (closeLastPause t session). cbn. rewrite Hs. cbn.
      split; [reflexivity|]. split; [by apply wellPaused_close|].
      split; [reflexivity|]. split; [|exact Hsv].
      rewrite <- Hd. unfold closeLastPause.
      destruct (last (pauses session)) as [p|]; [|reflexivity].
      destruct (p_end p); reflexivity.
    + eexists. cbn. split; [reflexivity|]. rewrite Hp.
      split; [apply wellPaused_nil|]. split; [reflexivity|].
      split; [reflexivity | exact Hsv].
  - destruct (isRunning s) eqn:Hrun; [|exact Hinv].
    specialize (Hr eq_refl). rewrite Hr in Hw.
    unfold handlePause. exists (pushPause t session). cbn. rewrite Hs. cbn.
    split; [reflexivity|]. split; [by apply wellPaused_push|].
    split; [discriminate|]. split; [exact Hd | exact Hsv].
  - unfold handleStop.
    destruct (Nat.eqb (time s) 0 || isSaving s); [exact Hinv|].
    match goal with |- context [savePracticeSession b ?x] =>
      destruct (savePracticeSession_frame b x) as (F1 & F2 & F3 & F4 & F5 & F6);
      revert F1 F2 F3 F4 F5 F6; generalize (savePracticeSession b x) end.
    intros s1 F1 F2 F3 F4 F5 F6. cbn in F1, F2, F3, F4, F5, F6.
    eexists. cbn. split; [reflexivity|]. rewrite F2, F3.
    split; [apply wellPaused_nil|]. split; [reflexivity|].
    split; [reflexivity | exact (F6 Hsv)].
  - unfold tick. destruct (intervalRef s); [|exact Hinv].
    exists (set_duration (S (time s)) session). cbn. rewrite Hs. cbn.
    split; [reflexivity|]. split; [exact Hw|]. split; [exact Hr|].
    split; [reflexivity | exact Hsv].
Qed.

Lemma timerInv_run es s : timerInv s -> timerInv (run es s).
Proof.
  revert s. induction es as [|e es IH]; intros s Hs; [exact Hs|].
  change (run (e :: es) s) with (run es (step e s)).
  apply IH. by apply timerInv_step.
Qed.
End OptimizedTimerFacts.

Section PracticeTimerFacts.
Import Session MobilePracticeTimer.

Lemma mob_timerInv_mounted t u sg n : timerInv (mounted t u sg n).
Proof.
  eexists. split; [reflexivity|]. split; [apply wellPaused_nil|]. discriminate.
Qed.

Lemma mob_savePracticeSession_frame t b s :
  let s' := savePracticeSession t b s in
  sessionRef s' = sessionRef s /\ isPaused s' = isPaused s /\
  isRunning s' = isRunning s /\ seconds s' = seconds s.
Proof.
  unfold savePracticeSession.
  destruct (user s); [|repeat split; reflexivity].
  destruct (sessionRef s) eqn:E; [|repeat split; try reflexivity; exact E].
  destruct (Nat.eqb (seconds s) 0); [repeat split; try reflexivity; exact E|].
  destruct b; cbn; repeat split; try reflexivity; exact E.
Qed.

Lemma mob_timerInv_step e s :
  timerInv s -> stopsWhilePaused e s = false -> timerInv (step e s).
Proof.
  intros Hinv Hstop. pose proof Hinv as (session & Hs & Hw & Hr).
  destruct e as [t|t b|]; cbn [step].
  - unfold handlePlayPause. destruct (isRunning s) eqn:Hrun; cbn [negb].
    + destruct (isPaused s) eqn:Hp.
      * exists (closeLastPause t session). cbn. rewrite Hs. cbn.
        split; [reflexivity|]. split; [by apply wellPaused_close|]. discriminate.
      * exists (pushPause t session). cbn. rewrite Hs. cbn.
        split; [reflexivity|]. split; [by apply wellPaused_push|].
        intros _. exact Hrun.
    + assert (Hp : isPaused s = false).
      { destruct (isPaused s); [|reflexivity]. specialize (Hr eq_refl). congruence. }
      rewrite Hp in Hw.
      exists (set_startTime t session). cbn. rewrite Hs. cbn.
      split; [reflexivity|]. split; [exact Hw|]. discriminate.
  - cbn in Hstop.
    destruct (Nat.eqb (seconds s) 0 || isSaving s); [exact Hinv|].
    unfold handleStop.
    destruct (mob_savePracticeSession_frame t b s) as (F1 & F2 & F3 & F4).
    cbv zeta in F1, F2, F3, F4. revert F1 F2 F3 F4.
    generalize (savePracticeSession t b s). intros s1 F1 F2 F3 F4.
    exists session. cbn. rewrite F1. split; [exact Hs|].
    rewrite Hstop in Hw. split; [exact Hw | discriminate].
  - unfold tick. destruct (isRunning s && negb (isPaused s)); [|exact Hinv].
    exists session. cbn. split; [exact Hs|]. split; [exact Hw | exact Hr].
Qed.

Lemma mob_timerInv_run es s :
  timerInv s -> neverStopsPaused es s = true -> timerInv (run es s).
Proof.
  revert s. induction es as [|e es IH]; intros s Hs Hn; [exact Hs|].
  change (run (e :: es) s) with (run es (step e s)).
  cbn [neverStopsPaused] in Hn. apply andb_true_iff in Hn as [He Hes].
  apply negb_true_iff in He.
  apply IH; [by apply mob_timerInv_step | exact Hes].
Qed.
End PracticeTimerFacts.

Section TimerTheorems.
Import Session.

(** C8 (as amended). Transitions are taken one at a time, each handler
    running to its end. MobileOptimizedTimer: in every state reached by
    start, pause, resume, stop and ticks, the pause list has at most one open
    pause, and has one exactly when the timer is paused. MobilePracticeTimer:
    the same holds in every state reached by runs in which stop is not
    pressed while paused. *)
Theorem pause_invariant_reachable
    (t : Z) (u : option nat) (sg : nat) (n : string)
    (es : list MobileOptimizedTimer.Event)
    (es' : list MobilePracticeTimer.Event) :
  (let s := MobileOptimizedTimer.run es (MobileOptimizedTimer.mounted t u sg n) in
   pauseInvariant (MobileOptimizedTimer.isPaused s)
     (MobileOptimizedTimer.pausesOf s)) /\
  (MobilePracticeTimer.neverStopsPaused es'
     (MobilePracticeTimer.mounted t u sg n) = true ->
   let s := MobilePracticeTimer.run es' (MobilePracticeTimer.mounted t u sg n) in
   pauseInvariant (MobilePracticeTimer.isPaused s)
     (MobilePracticeTimer.pausesOf s)).
Proof.
  split.
  - destruct (timerInv_run es _ (timerInv_mounted t u sg n))
      as (session & Hs & Hw & _).
    cbv zeta. unfold MobileOptimizedTimer.pausesOf. rewrite Hs. cbn.
    by apply wellPaused_invariant.
  - intros Hn.
    destruct (mob_timerInv_run es' _ (mob_timerInv_mounted t u sg n) Hn)
      as (session & Hs & Hw & _).
    cbv zeta. unfold MobilePracticeTimer.pausesOf. rewrite Hs. cbn.
    by apply wellPaused_invariant.
Qed.

(** C8, the claim as stated fails in MobilePracticeTimer: stop pressed
    while paused leaves the open pause in the list and clears [isPaused]. *)
Lemma stop_while_paused_leaves_open_pause :
  let s := MobilePracticeTimer.run
             [MobilePracticeTimer.PressPlayPause 0;
              MobilePracticeTimer.Tick;
              MobilePracticeTimer.PressPlayPause 1000;
              MobilePracticeTimer.PressStop 2000 InsertOk]
             (MobilePracticeTimer.mounted 0 (Some 1%nat) 1%nat EmptyString) in
  MobilePracticeTimer.isPaused s = false /\
  MobilePracticeTimer.pausesOf s = [mkPause 1000 None] /\
  ~ pauseInvariant (MobilePracticeTimer.isPaused s)
      (MobilePracticeTimer.pausesOf s).
Proof.
  cbv zeta. split; [reflexivity|]. split; [reflexivity|].
  intros [_ [Hopen _]]. cbn in Hopen. specialize (Hopen ltac:(lia)).
  discriminate Hopen.
Qed.
End TimerTheorems.

Section DurationTheorems.
Import Session.

Lemma mobile_durationMinutes t session :
  MobilePracticeTimer.durationMinutes t session
  = JS.round_div
      (Z.max 0 (t - startTime session
                - foldr (fun p a => pauseLength t p + a) 0 (pauses session)))
      60000.
Proof.
  unfold MobilePracticeTimer.durationMinutes, MobilePracticeTimer.totalPauseTime,
    JS.max.
  rewrite fold_pause_time. reflexivity.
Qed.



End DurationTheorems.

(** ** The theorems at concrete inputs *)

Section Witnesses.
Import Metronome.

Lemma mounted_audio_works :
  ~ audioFails NoWindow None (mounted (Some running)).
Proof. intros [H|[H _]]; discriminate H. Qed.

(** C2 at the mounted hook (120 bpm, audio context running): the first beat
    is played at time 0. *)
Lemma start_schedules_period_witness :
  40 <= bpm (settings (mounted (Some running))) <= 200 /\
  played (fst (startAndSettle (currentClosure (mounted (Some running)))
                 NoWindow None (mounted (Some running))))
  = [(0%Q, beatTone defaultSettings O)].
Proof.
  split; [cbn; lia|].
  exact (proj1 (proj2 (start_schedules_period (mounted (Some running))
                         NoWindow None ltac:(cbn; lia) eq_refl eq_refl
                         mounted_audio_works))).
Defined.

(** C3 at the mounted hook: beat 0 of a 4/4 measure is accented. *)
Lemma accent_pulse_witness :
  audioContextRef (mounted (Some running)) = Some running /\
  (isAccentBeat defaultSettings O = true <->
     accent defaultSettings = true /\ JS.rem O 4 = Some O).
Proof.
  split; [reflexivity|].
  exact (proj1 (proj2 (proj2 (accent_pulse defaultSettings
                                (mounted (Some running)) running eq_refl)))).
Defined.

(** C4 at the mounted hook with a suspended audio context: the first call
    is unsettled when the second comes, and the state changes once. *)
Lemma toggle_reentrancy_witness :
  togglePending (step (CallToggle (currentClosure (mounted (Some suspended)))
                         NoWindow) (mounted (Some suspended))) /\
  playingChanges
    [CallToggle (currentClosure (mounted (Some suspended))) NoWindow;
     CallToggle (currentClosure (mounted (Some suspended))) NoWindow;
     ResumeSettles O (Some running); ToggleSettles]
    (mounted (Some suspended)) = 1%nat.
Proof.
  pose proof (proj1 (proj2 (toggle_reentrancy [] [] (Some suspended)
                              (currentClosure (mounted (Some suspended)))
                              NoWindow NoWindow running None))
                eq_refl eq_refl eq_refl
                ltac:(intros [H|[_ H]]; discriminate H)) as T.
  exact (conj (proj1 T) (proj1 (proj2 (proj2 T)))).
Defined.

(** C5 at a hook mounted without [window]: [start] rejects and [isPlaying]
    stays false. *)
Lemma start_failure_rejects_witness :
  audioFails NoWindow None (mounted None) /\
  isPlaying (fst (startAndSettle (currentClosure (mounted None)) NoWindow None
                    (mounted None))) = false.
Proof.
  assert (H : audioFails NoWindow None (mounted None)) by (left; reflexivity).
  split; [exact H|].
  exact (proj1 (proj2 (start_failure_rejects (currentClosure (mounted None))
                         NoWindow None (mounted None) eq_refl eq_refl H))).
Defined.



(** C7 at the mounted hook: after [onChange] 6, 7, 8 and [onEnd], the save
    receives 8. *)
Lemma interaction_saves_last_value_witness :
  DebouncedSlider.tracked (DebouncedSlider.mounted 5%nat) /\
  DebouncedSlider.saved
    (DebouncedSlider.fireTimeout 1
       (DebouncedSlider.interaction 1000 [6%nat; 7%nat; 8%nat]
          (DebouncedSlider.mounted 5%nat)))
  = [8%nat].
Proof.
  assert (H : DebouncedSlider.tracked (DebouncedSlider.mounted 5%nat))
    by (by apply tracked_empty).
  split; [exact H|].
  exact (proj1 (proj2 (proj2 (proj2 (proj2 (proj2 (proj2
           (interaction_saves_last_value 1000 (DebouncedSlider.mounted 5%nat)
              [6%nat; 7%nat; 8%nat] 8%nat H eq_refl)))))))).
Defined.

(** C10 after [onStart]: a render with [initialValue = 2] leaves the live
    value 1. *)
Lemma initialValue_dropped_witness :
  DebouncedSlider.isInteracting
    (DebouncedSlider.run 1000 [DebouncedSlider.OnStart]
       (DebouncedSlider.mounted 1%nat)) = true /\
  DebouncedSlider.value
    (DebouncedSlider.renderWith 2%nat
       (DebouncedSlider.run 1000 [DebouncedSlider.OnStart]
          (DebouncedSlider.mounted 1%nat))) = 1%nat.
Proof.
  split; [reflexivity|].
  exact (proj1 (proj1 (initialValue_dropped_while_interacting 1000 1%nat 2%nat
                         [DebouncedSlider.OnStart]) eq_refl)).
Defined.

(** C9 on a platform where [NoSleep.enable()] and the native request both
    reject. *)
Lemma enableWakeLock_both_fail_witness :
  WakeLock.fallbackSucceeds
    (WakeLock.mkPlatform true true false true false) WakeLock.initial = false /\
  WakeLock.nativeSucceeds (WakeLock.mkPlatform true true false true false) = false /\
  snd (WakeLock.enableWakeLock (WakeLock.mkPlatform true true false true false)
         WakeLock.initial) = inr false.
Proof.
  split; [reflexivity|]. split; [reflexivity|].
  exact (proj1 (proj1 (proj2 (enableWakeLock_both_fail_or_either
                                (WakeLock.mkPlatform true true false true false)
                                WakeLock.initial)) eq_refl eq_refl)).
Defined.

(** C8 at a run of MobilePracticeTimer that starts and pauses: one open
    pause, and the timer is paused. *)
Lemma pause_invariant_witness :
  MobilePracticeTimer.neverStopsPaused
    [MobilePracticeTimer.PressPlayPause 0; MobilePracticeTimer.Tick;
     MobilePracticeTimer.PressPlayPause 1000]
    (MobilePracticeTimer.mounted 0 (Some 7%nat) 3%nat EmptyString) = true /\
  Session.pauseInvariant true [Session.mkPause 1000 None].
Proof.
  split; [reflexivity|].
  exact (proj2 (pause_invariant_reachable 0 (Some 7%nat) 3%nat EmptyString []
                  [MobilePracticeTimer.PressPlayPause 0; MobilePracticeTimer.Tick;
                   MobilePracticeTimer.PressPlayPause 1000]) eq_refl).
Defined.
End Witnesses.

(** * Further properties of the hooks and components *)

(** ** The metronome: what the calls leave alone *)

Ltac fields := cbv zeta; repeat split; reflexivity.

Section MetronomeFields.
Import Metronome.

Lemma createSound_fields k f d v w :
  let w' := createSound k f d v w in
  sameFields w w' /\ nextTimerId w' = nextTimerId w /\
  audioContextRef w' = audioContextRef w /\ settings w' = settings w /\
  currentBeat w' = currentBeat w /\ beatCountRef w' = beatCountRef w /\
  toggleInProgressRef w' = toggleInProgressRef w /\ now w' = now w /\
  togglesSettling w' = togglesSettling w.
Proof.
  unfold createSound, sameFields.
  destruct (audioContextRef w) eqn:E; [|cbv zeta; rewrite E; repeat split; reflexivity].
  destruct (soundShape k f). cbv zeta. cbn. rewrite E. repeat split; reflexivity.
Qed.

Lemma startBody_fields cl w :
  let w' := startBody cl w in
  exists t,
    isPlaying w' = true /\ intervalRef w' = Some (nextTimerId w) /\
    intervals w' = <[nextTimerId w := t]> (intervals w) /\
    startInProgressRef w' = startInProgressRef w /\
    awaitingResume w' = awaitingResume w /\ timeouts w' = timeouts w /\
    nextTimerId w' = S (nextTimerId w) /\
    settings w' = settings w /\
    toggleInProgressRef w' = toggleInProgressRef w /\
    audioContextRef w' = audioContextRef w.
Proof.
  unfold startBody, playBeat, hostSetInterval. cbn -[createSound].
  match goal with |- context [createSound ?k ?f ?d ?v ?x] =>
    destruct (createSound_fields k f d v x)
      as ((F1 & F2 & F3 & F4 & F5 & F6) & F7 & F8 & F9 & _ & _ & F10 & _);
    revert F1 F2 F3 F4 F5 F6 F7 F8 F9 F10; generalize (createSound k f d v x)
  end.
  intros wb F1 F2 F3 F4 F5 F6 F7 F8 F9 F10.
  cbn in F1, F2, F3, F4, F5, F6, F7, F8, F9, F10.
  eexists. rewrite ?F1, ?F2, ?F3, ?F4, ?F5, ?F6, ?F7, ?F8, ?F9, ?F10. fields.
Qed.

Lemma stop_fields w :
  let w' := stop w in
  isPlaying w' = false /\ intervalRef w' = None /\
  intervals w' = match intervalRef w with
                 | Some id => delete id (intervals w)
                 | None => intervals w
                 end /\
  startInProgressRef w' = startInProgressRef w /\
  awaitingResume w' = awaitingResume w /\ timeouts w' = timeouts w /\
  nextTimerId w' = nextTimerId w /\ settings w' = settings w /\
  played w' = played w.
Proof. unfold stop. destruct (intervalRef w) eqn:E; cbv zeta; cbn; rewrite ?E; repeat split; reflexivity. Qed.

Lemma fireInterval_fields id w :
  let w' := fireInterval id w in
  isPlaying w' = isPlaying w /\ intervalRef w' = intervalRef w /\
  intervals w' = match intervals w !! id with
                 | Some task =>
                     <[id := mkInterval (it_delay task)
                               (it_due task + hostDelay (it_delay task))%Q
                               (it_settings task)]> (intervals w)
                 | None => intervals w
                 end /\
  startInProgressRef w' = startInProgressRef w /\
  awaitingResume w' = awaitingResume w /\ timeouts w' = timeouts w.
Proof.
  unfold fireInterval. destruct (intervals w !! id) as [t|]; [|fields].
  unfold intervalCallback. cbn -[createSound].
  match goal with |- context [createSound ?k ?f ?d ?v ?x] =>
    destruct (createSound_fields k f d v x)
      as ((F1 & F2 & F3 & F4 & F5 & F6) & _);
    revert F1 F2 F3 F4 F5 F6; generalize (createSound k f d v x)
  end.
  intros wb F1 F2 F3 F4 F5 F6. cbn in F1, F2, F3, F4, F5, F6.
  rewrite F1, F2, F3, F4, F5, F6. fields.
Qed.

Lemma startCall_case cl win byT w :
  StartCase cl win byT w (startCall cl win byT w).
Proof.
  destruct (cl_isPlaying cl || startInProgressRef w) eqn:Hg.
  - rewrite (startCall_guarded _ _ _ _ Hg). by constructor.
  - apply orb_false_iff in Hg as [Hcl Hs].
    destruct (contextFor win w) as [c|] eqn:Hc.
    + rewrite (startCall_eq _ _ _ _ _ Hcl Hs Hc). cbv zeta.
      destruct c; first [by apply start_suspends | by apply start_goes].
    + destruct (startCall_no_context _ _ byT _ Hcl Hs Hc) as [e ->].
      by apply start_no_audio.
Qed.


Lemma startCall_fields cl win byT w :
  let r := startCall cl win byT w in
  timeouts (fst r) = timeouts w /\ settings (fst r) = settings w /\
  toggleInProgressRef (fst r) = toggleInProgressRef w.
Proof.
  generalize (startCall_case cl win byT w). generalize (startCall cl win byT w).
  intros r Hc. destruct Hc as [Hg|e Hcl Hs Hctx|Hcl Hs Hctx|c Hcl Hs Hctx Hne];
    [fields | fields | fields |].
  match goal with |- context [startBody ?c ?x] =>
    destruct (startBody_fields c x) as (t & _ & _ & _ & _ & _ & F6 & _ & F8 & F9 & _);
    revert F6 F8 F9; generalize (startBody c x)
  end.
  intros wb F6 F8 F9. cbn in F6, F8, F9. cbn. rewrite F6, F8, F9. fields.
Qed.

(** *** At most one call of start is suspended *)

Lemma oneStart_eq w w' :
  awaitingResume w' = awaitingResume w ->
  startInProgressRef w' = startInProgressRef w ->
  oneStart w -> oneStart w'.
Proof. unfold oneStart. intros -> ->. trivial. Qed.

Lemma oneStart_startCall cl win byT w :
  oneStart w -> oneStart (fst (startCall cl win byT w)).
Proof.
  intros Ho. generalize (startCall_case cl win byT w).
  generalize (startCall cl win byT w).
  intros r Hc. destruct Hc as [Hg|e Hcl Hs Hctx|Hcl Hs Hctx|c Hcl Hs Hctx Hne].
  - exact Ho.
  - unfold oneStart in *. rewrite Hs in Ho. exact Ho.
  - unfold oneStart in *. rewrite Hs in Ho. cbn.
    rewrite length_app, Ho. reflexivity.
  - destruct (startBody_fields cl
                (set_audioContextRef (Some c) (set_startInProgressRef true w)))
      as (t & _ & _ & _ & _ & F5 & _).
    cbv zeta in F5. revert F5. generalize (startBody cl
                (set_audioContextRef (Some c) (set_startInProgressRef true w))).
    intros wb F5. cbn in F5. unfold oneStart in *. cbn. rewrite F5.
    rewrite Hs in Ho. exact Ho.
Qed.

Lemma oneStart_stop w : oneStart w -> oneStart (stop w).
Proof.
  destruct (stop_fields w) as (_ & _ & _ & F4 & F5 & _).
  apply oneStart_eq; assumption.
Qed.

Lemma oneStart_hostSetTimeout t w : oneStart w -> oneStart (hostSetTimeout t w).
Proof. apply oneStart_eq; reflexivity. Qed.

Lemma oneStart_startResumed cl r w :
  awaitingResume w = [] -> oneStart (fst (startResumed cl r w)).
Proof.
  intros He. destruct r as [st|]; cbn -[startBody].
  - destruct (startBody_fields cl (set_audioContextRef (Some st) w))
      as (t & _ & _ & _ & _ & F5 & _).
    cbv zeta in F5. revert F5.
    generalize (startBody cl (set_audioContextRef (Some st) w)).
    intros wb F5. cbn in F5. unfold oneStart. cbn. rewrite F5, He. reflexivity.
  - unfold oneStart. cbn. rewrite He. reflexivity.
Qed.

Lemma oneStart_lookup w i fr :
  oneStart w -> awaitingResume w !! i = Some fr ->
  startInProgressRef w = true /\ delete i (awaitingResume w) = [].
Proof.
  unfold oneStart. intros Ho Hi.
  destruct (awaitingResume w) as [|x [|y l]]; [discriminate| |].
  - destruct i; [|discriminate]. split; [|reflexivity].
    destruct (startInProgressRef w); [reflexivity|discriminate].
  - destruct (startInProgressRef w); discriminate.
Qed.

Lemma oneStart_step e w : oneStart w -> oneStart (step e w).
Proof.
  intros Ho. destruct e as [cl win| |cl win|cl p|i r| |id|id win|st]; cbn [step].
  - by apply oneStart_startCall.
  - by apply oneStart_stop.
  - unfold toggleCall. destruct (toggleInProgressRef w); [exact Ho|].
    destruct (cl_isPlaying cl).
    + cbn [fst]. apply oneStart_hostSetTimeout, oneStart_stop. exact Ho.
    + pose proof (oneStart_startCall cl win true (set_toggleInProgressRef true w) Ho)
        as H1. revert H1.
      generalize (startCall cl win true (set_toggleInProgressRef true w)).
      intros [w1 [o|]] H1; cbn in *; exact H1.
  - unfold updateSettings. destruct (truthy_bpm p && cl_isPlaying cl).
    + apply oneStart_hostSetTimeout, oneStart_stop. exact Ho.
    + exact Ho.
  - unfold resumeSettles. destruct (awaitingResume w !! i) as [fr|] eqn:Hi; [|exact Ho].
    destruct (oneStart_lookup w i fr Ho Hi) as [_ Hd].
    pose proof (oneStart_startResumed (sf_closure fr) r
                  (set_awaitingResume (delete i (awaitingResume w)) w) Hd) as H1.
    revert H1.
    generalize (startResumed (sf_closure fr) r
                  (set_awaitingResume (delete i (awaitingResume w)) w)).
    intros [w1 o] H1. cbn in *. destruct (sf_toggle fr); [|exact H1].
    by apply oneStart_hostSetTimeout.
  - unfold toggleSettles. destruct (togglesSettling w); [exact Ho|].
    cbn [fst]. by apply oneStart_hostSetTimeout.
  - destruct (fireInterval_fields id w) as (_ & _ & _ & F4 & F5 & _).
    revert Ho. apply oneStart_eq; assumption.
  - unfold fireTimeout. destruct (timeouts w !! id) as [[|cl]|]; [exact Ho| |exact Ho].
    by apply oneStart_startCall.
  - destruct (audioContextRef w); exact Ho.
Qed.

Lemma oneStart_run es w : oneStart w -> oneStart (run es w).
Proof.
  revert w. induction es as [|e es IH]; intros w Ho; [exact Ho|].
  change (run (e :: es) w) with (run es (step e w)).
  apply IH. by apply oneStart_step.
Qed.

End MetronomeFields.

(** ** The metronome: restarts, and the interval of a playing metronome *)

Section MetronomeRestart.
Import Metronome.

Lemma restartsStale_eq w w' :
  timeouts w' = timeouts w -> restartsStale w -> restartsStale w'.
Proof. unfold restartsStale. intros ->. trivial. Qed.

Lemma restartsStale_insert_reset w m :
  restartsStale w -> timeouts m = <[nextTimerId w := ResetToggleFlag]> (timeouts w) ->
  restartsStale m.
Proof.
  intros Hr Hm id cl Hi. rewrite Hm in Hi.
  apply lookup_insert_Some in Hi as [[_ Hi]|[_ Hi]]; [discriminate|].
  exact (Hr id cl Hi).
Qed.

Lemma restartsStale_toggleFinally w :
  restartsStale w -> restartsStale (toggleFinally w).
Proof. intros Hr. by apply (restartsStale_insert_reset w). Qed.

Lemma restartsStale_startCall cl win byT w :
  restartsStale w -> restartsStale (fst (startCall cl win byT w)).
Proof.
  destruct (startCall_fields cl win byT w) as (F & _). by apply restartsStale_eq.
Qed.

Lemma restartsStale_stop w : restartsStale w -> restartsStale (stop w).
Proof.
  destruct (stop_fields w) as (_ & _ & _ & _ & _ & F & _). by apply restartsStale_eq.
Qed.

Lemma restartsStale_delete w id :
  restartsStale w -> restartsStale (set_timeouts (delete id (timeouts w)) w).
Proof.
  intros Hr j cl Hj. cbn in Hj. apply lookup_delete_Some in Hj as [_ Hj].
  exact (Hr j cl Hj).
Qed.

Lemma restartsStale_startResumed cl r w :
  restartsStale w -> restartsStale (fst (startResumed cl r w)).
Proof.
  intros Hr. destruct r as [st|]; [|exact Hr].
  unfold startResumed, startFinally.
  destruct (startBody_fields cl (set_audioContextRef (Some st) w))
    as (t & _ & _ & _ & _ & _ & F6 & _).
  cbv zeta in F6. revert F6.
  generalize (startBody cl (set_audioContextRef (Some st) w)).
  intros wb F6. cbn in F6. cbn. revert Hr. by apply restartsStale_eq.
Qed.

Lemma restartsStale_step e w : restartsStale w -> restartsStale (step e w).
Proof.
  intros Hr. destruct e as [cl win| |cl win|cl p|i r| |id|id win|st]; cbn [step].
  - by apply restartsStale_startCall.
  - by apply restartsStale_stop.
  - unfold toggleCall. destruct (toggleInProgressRef w); [exact Hr|].
    destruct (cl_isPlaying cl).
    + cbn [fst]. apply restartsStale_toggleFinally, restartsStale_stop. exact Hr.
    + pose proof (restartsStale_startCall cl win true
                    (set_toggleInProgressRef true w) Hr) as H1. revert H1.
      generalize (startCall cl win true (set_toggleInProgressRef true w)).
      intros [w1 [o|]] H1; cbn in *; exact H1.
  - unfold updateSettings.
    destruct (truthy_bpm p) eqn:Hp; destruct (cl_isPlaying cl) eqn:Hcl;
      cbn [andb]; try exact Hr.
    pose proof (restartsStale_stop (setSettings (merge (settings w) p) w) Hr) as H1.
    revert H1. generalize (stop (setSettings (merge (settings w) p) w)).
    intros w1 H1 id cl' Hi. cbn in Hi.
    apply lookup_insert_Some in Hi as [[_ Hi]|[_ Hi]].
    + injection Hi as <-. exact Hcl.
    + exact (H1 id cl' Hi).
  - unfold resumeSettles. destruct (awaitingResume w !! i) as [fr|]; [|exact Hr].
    pose proof (restartsStale_startResumed (sf_closure fr) r
                  (set_awaitingResume (delete i (awaitingResume w)) w) Hr) as H1.
    revert H1.
    generalize (startResumed (sf_closure fr) r
                  (set_awaitingResume (delete i (awaitingResume w)) w)).
    intros [w1 o] H1. cbn in *. destruct (sf_toggle fr); [|exact H1].
    by apply restartsStale_toggleFinally.
  - unfold toggleSettles. destruct (togglesSettling w); [exact Hr|].
    cbn [fst]. by apply restartsStale_toggleFinally.
  - destruct (fireInterval_fields id w) as (_ & _ & _ & _ & _ & F6).
    revert Hr. by apply restartsStale_eq.
  - unfold fireTimeout. destruct (timeouts w !! id) as [[|cl]|]; [| |exact Hr].
    + by apply (restartsStale_delete w id).
    + apply restartsStale_startCall. by apply (restartsStale_delete w id).
  - destruct (audioContextRef w); exact Hr.
Qed.

Lemma restartsStale_run es w : restartsStale w -> restartsStale (run es w).
Proof.
  revert w. induction es as [|e es IH]; intros w Hr; [exact Hr|].
  change (run (e :: es) w) with (run es (step e w)).
  apply IH. by apply restartsStale_step.
Qed.

Lemma restartsStale_mounted st : restartsStale (mounted st).
Proof. intros id cl Hi. cbn in Hi. rewrite lookup_empty in Hi. discriminate. Qed.

Lemma oneStart_mounted st : oneStart (mounted st).
Proof. reflexivity. Qed.

End MetronomeRestart.

Section MetronomeGuards.
Import Metronome.

(** X1. In every state the hook reaches, whatever closures the calls
    carried, at most one call of [start] is suspended at [resume()];
    [startInProgressRef] is up exactly while one is, and every call of
    [start] made meanwhile returns at once and changes nothing. *)
Theorem start_calls_never_overlap (es : list Event) (st : option ContextState) :
  let w := run es (mounted st) in
  (length (awaitingResume w) <= 1)%nat /\
  (startInProgressRef w = true <-> awaitingResume w <> []) /\
  (awaitingResume w <> [] ->
     forall cl win byT, startCall cl win byT w = (w, Settled Fulfilled)).
Proof.
  intros w. pose proof (oneStart_run es _ (oneStart_mounted st)) as Ho.
  fold w in Ho. unfold oneStart in Ho.
  assert (Hiff : startInProgressRef w = true <-> awaitingResume w <> []).
  { destruct (startInProgressRef w), (awaitingResume w); try discriminate;
      split; intros; congruence. }
  split; [|split].
  - rewrite Ho. destruct (startInProgressRef w); lia.
  - exact Hiff.
  - intros Hne cl win byT. apply startCall_guarded.
    apply Hiff in Hne. rewrite Hne. apply orb_true_r.
Qed.

(** X2. In every state the hook reaches, a timeout that fires never starts
    the metronome: the restart that [updateSettings] schedules calls the
    [start] of a render in which [isPlaying] was true, which returns at its
    first guard. Firing any timeout leaves the playing state, the interval,
    the beat counter, the display, the settings and the tones played as they
    were. *)
Theorem timeouts_never_start (es : list Event) (st : option ContextState)
    (id : nat) (win : Window) :
  let w := run es (mounted st) in
  let w' := fireTimeout id win w in
  isPlaying w' = isPlaying w /\ intervalRef w' = intervalRef w /\
  intervals w' = intervals w /\ played w' = played w /\
  beatCountRef w' = beatCountRef w /\ currentBeat w' = currentBeat w /\
  settings w' = settings w /\ audioContextRef w' = audioContextRef w /\
  startInProgressRef w' = startInProgressRef w /\
  awaitingResume w' = awaitingResume w /\
  timeouts w' = delete id (timeouts w).
Proof.
  intros w w'. pose proof (restartsStale_run es _ (restartsStale_mounted st)) as Hr.
  fold w in Hr. subst w'. clearbody w. unfold fireTimeout.
  destruct (timeouts w !! id) as [[|cl]|] eqn:Hi.
  - fields.
  - rewrite startCall_guarded by (rewrite (Hr id cl Hi); reflexivity). fields.
  - cbv zeta. rewrite delete_id by exact Hi. repeat split; reflexivity.
Qed.

(** X3. [updateSettings] with a (non-zero) bpm, called from a render in
    which the metronome is playing: the new settings are stored, the
    metronome is stopped and a restart is put on a 50 ms timeout; when that
    timeout fires, the [start] it calls is the one of the playing render and
    does nothing, so the metronome stays stopped, with no tone played and no
    interval scheduled. *)
Theorem bpm_change_stops_the_metronome (w : World) (cl : Closure)
    (p : PartialSettings) (win : Window) :
  cl_isPlaying cl = true ->
  truthy_bpm p = true ->
  let w1 := updateSettings cl p w in
  let id := nextTimerId w in
  let w2 := fireTimeout id win w1 in
  settings w1 = merge (settings w) p /\
  isPlaying w1 = false /\ intervalRef w1 = None /\
  timeouts w1 = <[id := RestartMetronome cl]> (timeouts w) /\
  w2 = set_timeouts (delete id (timeouts w1)) w1 /\
  isPlaying w2 = false /\ intervalRef w2 = None /\
  played w2 = played w /\ settings w2 = merge (settings w) p /\
  (intervalsTracked w -> intervals w2 = ∅).
Proof.
  intros Hcl Hp w1 id w2.
  assert (E1 : w1 = hostSetTimeout (RestartMetronome cl)
                      (stop (setSettings (merge (settings w) p) w))).
  { subst w1. unfold updateSettings. rewrite Hp, Hcl. reflexivity. }
  destruct (stop_fields (setSettings (merge (settings w) p) w))
    as (F1 & F2 & F3 & _ & _ & F6 & F7 & F8 & F9).
  pose proof (tracked_stop_empty (setSettings (merge (settings w) p) w)) as Ht.
  cbv zeta in F1, F2, F3, F6, F7, F8, F9.
  clearbody w1. revert E1 F1 F2 F3 F6 F7 F8 F9 Ht.
  generalize (stop (setSettings (merge (settings w) p) w)).
  intros ws E1 F1 F2 F3 F6 F7 F8 F9 Ht. cbn in F6, F7, F8, F9.
  assert (T1 : timeouts w1 = <[id := RestartMetronome cl]> (timeouts w)).
  { rewrite E1. unfold hostSetTimeout. cbn. rewrite F6, F7. reflexivity. }
  assert (E2 : w2 = set_timeouts (delete id (timeouts w1)) w1).
  { subst w2. unfold fireTimeout. rewrite T1, lookup_insert_eq.
    rewrite startCall_guarded by (rewrite Hcl; reflexivity). reflexivity. }
  clearbody w2. rewrite E2, E1. cbn. rewrite F1, F2, F8, F9.
  repeat split; try reflexivity.
  - rewrite F6, F7. reflexivity.
  - intros Htr. apply Ht. exact Htr.
Qed.

End MetronomeGuards.

Section MetronomeInterval.
Import Metronome.

Lemma playsOne_eq w w' :
  isPlaying w' = isPlaying w -> intervalRef w' = intervalRef w ->
  intervals w' = intervals w -> awaitingResume w' = awaitingResume w ->
  playsOne w -> playsOne w'.
Proof. unfold playsOne, oneInterval. intros -> -> -> ->. trivial. Qed.

Lemma playsOne_hostSetTimeout t w : playsOne w -> playsOne (hostSetTimeout t w).
Proof. apply playsOne_eq; reflexivity. Qed.

Lemma oneInterval_stopped w : oneInterval w -> isPlaying w = false -> intervals w = ∅.
Proof. unfold oneInterval. intros H E. rewrite E in H. exact H. Qed.

Lemma playsOne_stop w : playsOne w -> playsOne (stop w).
Proof.
  intros [_ Hi]. destruct (stop_fields w) as (F1 & F2 & F3 & _ & F5 & _).
  cbv zeta in *. revert F1 F2 F3 F5. generalize (stop w).
  intros ws F1 F2 F3 F5. split; [intros _; exact F1|].
  unfold oneInterval in *. rewrite F1, F3.
  destruct (isPlaying w).
  - destruct Hi as (id & t & -> & ->). apply delete_singleton_eq.
  - rewrite Hi. destruct (intervalRef w); [apply delete_empty|reflexivity].
Qed.

(** Once the audio context is there, [start] leaves one interval behind
    when none was scheduled. *)
Lemma playsOne_startBody cl w :
  intervals w = ∅ -> awaitingResume w = [] ->
  forall b, playsOne (set_startInProgressRef b (startBody cl w)).
Proof.
  intros Hi Ha b. destruct (startBody_fields cl w)
    as (t & F1 & F2 & F3 & _ & F5 & _).
  cbv zeta in *. revert F1 F2 F3 F5. generalize (startBody cl w).
  intros wb F1 F2 F3 F5. split.
  - cbn. rewrite F5, Ha. intros Hne. contradiction.
  - unfold oneInterval. cbn. rewrite F1, F2, F3, Hi.
    exists (nextTimerId w), t. split; [reflexivity|apply insert_empty].
Qed.

Lemma playsOne_startCall cl win byT w :
  oneStart w -> cl_isPlaying cl = isPlaying w ->
  playsOne w -> playsOne (fst (startCall cl win byT w)).
Proof.
  intros Ho Hsee Hp. generalize (startCall_case cl win byT w).
  generalize (startCall cl win byT w).
  intros r Hc. destruct Hc as [Hg|e Hcl Hs Hctx|Hcl Hs Hctx|c Hcl Hs Hctx Hne].
  - exact Hp.
  - rewrite Hcl in Hsee. destruct Hp as [Hp1 Hp2]. split.
    + intros _. reflexivity.
    + unfold oneInterval in *. cbn. rewrite <- Hsee in Hp2. exact Hp2.
  - rewrite Hcl in Hsee. destruct Hp as [Hp1 Hp2]. split.
    + intros _. cbn. symmetry. exact Hsee.
    + exact Hp2.
  - rewrite Hcl in Hsee. destruct Hp as [Hp1 Hp2].
    unfold oneStart in Ho. rewrite Hs in Ho.
    apply (playsOne_startBody cl
             (set_audioContextRef (Some c) (set_startInProgressRef true w))).
    + cbn. apply oneInterval_stopped; [exact Hp2 | by symmetry].
    + cbn. by apply nil_length_inv.
Qed.

Lemma playsOne_startCall_ignored cl win byT w :
  cl_isPlaying cl = true -> fst (startCall cl win byT w) = w.
Proof.
  intros Hcl. rewrite startCall_guarded by (rewrite Hcl; reflexivity). reflexivity.
Qed.

Lemma playsOne_startResumed cl r w :
  intervals w = ∅ -> awaitingResume w = [] ->
  playsOne (fst (startResumed cl r w)).
Proof.
  intros Hi Ha. destruct r as [st|].
  - unfold startResumed, startFinally. cbn [fst].
    by apply (playsOne_startBody cl (set_audioContextRef (Some st) w)).
  - split; [intros _; reflexivity|]. unfold oneInterval. cbn. exact Hi.
Qed.

Lemma playsOne_fireInterval id w : playsOne w -> playsOne (fireInterval id w).
Proof.
  intros [Hp1 Hp2]. destruct (fireInterval_fields id w) as (F1 & F2 & F3 & _ & F5 & _).
  cbv zeta in *. revert F1 F2 F3 F5. generalize (fireInterval id w).
  intros wf F1 F2 F3 F5. split; [rewrite F5, F1; exact Hp1|].
  unfold oneInterval in *. rewrite F1, F2, F3. destruct (isPlaying w).
  - destruct Hp2 as (id0 & t & Hr & Hm). exists id0. rewrite Hm.
    destruct (decide (id0 = id)) as [->|Hne].
    + rewrite lookup_singleton_eq. eexists. split; [exact Hr|].
      apply insert_singleton_eq.
    + rewrite lookup_singleton_ne by exact Hne. by exists t.
  - rewrite Hp2, lookup_empty. reflexivity.
Qed.

Lemma playsOne_step e w :
  oneStart w -> restartsStale w -> seesPlaying e w = true ->
  playsOne w -> playsOne (step e w).
Proof.
  intros Ho Hr Hsee Hp.
  destruct e as [cl win| |cl win|cl p|i r| |id|id win|st]; cbn [step seesPlaying] in *.
  - apply eqb_prop in Hsee. by apply playsOne_startCall.
  - by apply playsOne_stop.
  - apply eqb_prop in Hsee. unfold toggleCall.
    destruct (toggleInProgressRef w); [exact Hp|].
    destruct (cl_isPlaying cl) eqn:Hcl.
    + cbn [fst]. apply playsOne_hostSetTimeout, playsOne_stop. exact Hp.
    + pose proof (playsOne_startCall cl win true (set_toggleInProgressRef true w)
                    Ho ltac:(rewrite Hcl; exact Hsee) Hp) as H1.
      revert H1. generalize (startCall cl win true (set_toggleInProgressRef true w)).
      intros [w1 [o|]] H1; cbn in *; exact H1.
  - unfold updateSettings. destruct (truthy_bpm p && cl_isPlaying cl).
    + apply playsOne_hostSetTimeout, playsOne_stop. exact Hp.
    + exact Hp.
  - unfold resumeSettles. destruct (awaitingResume w !! i) as [fr|] eqn:Hi; [|exact Hp].
    destruct (oneStart_lookup w i fr Ho Hi) as [_ Hd].
    destruct Hp as [Hp1 Hp2].
    assert (Hne : awaitingResume w <> []) by (intros E; rewrite E in Hi; discriminate).
    pose proof (oneInterval_stopped w Hp2 (Hp1 Hne)) as He.
    pose proof (playsOne_startResumed (sf_closure fr) r
                  (set_awaitingResume (delete i (awaitingResume w)) w) He Hd) as H1.
    revert H1.
    generalize (startResumed (sf_closure fr) r
                  (set_awaitingResume (delete i (awaitingResume w)) w)).
    intros [w1 o] H1. cbn in *. destruct (sf_toggle fr); [|exact H1].
    by apply playsOne_hostSetTimeout.
  - unfold toggleSettles. destruct (togglesSettling w); [exact Hp|].
    cbn [fst]. by apply playsOne_hostSetTimeout.
  - by apply playsOne_fireInterval.
  - unfold fireTimeout. destruct (timeouts w !! id) as [[|cl]|] eqn:Hi;
      [exact Hp| |exact Hp].
    rewrite playsOne_startCall_ignored by exact (Hr id cl Hi). exact Hp.
  - destruct (audioContextRef w); exact Hp.
Qed.

Lemma playsOne_run es w :
  oneStart w -> restartsStale w -> upToDate es w = true ->
  playsOne w -> playsOne (run es w).
Proof.
  revert w. induction es as [|e es IH]; intros w Ho Hr Hu Hp; [exact Hp|].
  change (run (e :: es) w) with (run es (step e w)).
  cbn [upToDate] in Hu. apply andb_true_iff in Hu as [He Hes].
  apply IH; [by apply oneStart_step | by apply restartsStale_step | exact Hes |].
  by apply playsOne_step.
Qed.

(** X4. When every call of [start], [toggle] and [updateSettings] comes
    from a render that has seen the current [isPlaying], the hook keeps
    exactly one interval while it plays, the one [intervalRef] holds, and
    none while it is stopped: every interval of the host's table is the one
    the ref tracks, and in a stopped metronome no interval can fire. *)
Theorem playing_means_one_interval (es : list Event) (st : option ContextState) :
  upToDate es (mounted st) = true ->
  let w := run es (mounted st) in
  oneInterval w /\ intervalsTracked w /\
  (isPlaying w = false -> forall id, fireInterval id w = w).
Proof.
  intros Hu w.
  assert (Hp : playsOne w).
  { apply playsOne_run; [apply oneStart_mounted | apply restartsStale_mounted
                         | exact Hu |].
    split; [intros H; exact (False_ind _ (H eq_refl)) | reflexivity]. }
  destruct Hp as [_ Hi]. split; [exact Hi|]. unfold oneInterval in Hi. split.
  - intros id t Hid. destruct (isPlaying w).
    + destruct Hi as (id0 & t0 & Hr & Hm). rewrite Hm in Hid.
      apply lookup_singleton_Some in Hid as [<- _]. exact Hr.
    + rewrite Hi, lookup_empty in Hid. discriminate.
  - intros Hs id. rewrite Hs in Hi. unfold fireInterval.
    rewrite Hi, lookup_empty. reflexivity.
Qed.

End MetronomeInterval.

Section MetronomeSound.
Import Metronome.

Lemma stop_audio w :
  audioContextRef (stop w) = audioContextRef w /\
  beatCountRef (stop w) = beatCountRef w /\ now (stop w) = now w.
Proof. unfold stop. destruct (intervalRef w); fields. Qed.

(** X5. [start] does not clear an interval that is already scheduled. When
    a call of [start] gets past the guards although an interval [id0] is
    running (its closure is of a render in which [isPlaying] was still
    false), the new interval takes the place of [id0] in [intervalRef];
    [stop] then clears the new one only, and [id0] goes on firing and
    sounding beats in a metronome whose [isPlaying] is false. *)
Theorem stale_start_leaves_an_interval (w : World) (cl : Closure)
    (win : Window) (c : ContextState) (id0 : nat) (t0 : IntervalTask) :
  cl_isPlaying cl = false ->
  startInProgressRef w = false ->
  contextFor win w = Some c -> c <> suspended ->
  intervals w !! id0 = Some t0 ->
  id0 <> nextTimerId w ->
  let w1 := fst (startCall cl win false w) in
  let w2 := stop w1 in
  intervalRef w1 = Some (nextTimerId w) /\
  intervals w1 !! id0 = Some t0 /\
  is_Some (intervals w1 !! nextTimerId w) /\
  isPlaying w2 = false /\ intervalRef w2 = None /\
  intervals w2 !! nextTimerId w = None /\
  intervals w2 !! id0 = Some t0 /\
  played (fireInterval id0 w2)
  = (Qmax (now w2) (it_due t0), beatTone (it_settings t0) (beatCountRef w2))
    :: played w2.
Proof.
  intros Hcl Hs Hctx Hne Hid Hfresh w1 w2.
  assert (E1 : w1 = set_startInProgressRef false
                      (startBody cl
                         (set_audioContextRef (Some c)
                            (set_startInProgressRef true w)))).
  { subst w1. rewrite (startCall_eq _ _ _ _ _ Hcl Hs Hctx). cbv zeta.
    destruct c; try reflexivity. contradiction. }
  destruct (startBody_fields cl
              (set_audioContextRef (Some c) (set_startInProgressRef true w)))
    as (t & F1 & F2 & F3 & _ & _ & _ & _ & _ & _ & F10).
  cbv zeta in F1, F2, F3, F10. clearbody w1. revert E1 F1 F2 F3 F10.
  generalize (startBody cl
                (set_audioContextRef (Some c) (set_startInProgressRef true w))).
  intros wb E1 F1 F2 F3 F10. cbn in F2, F3, F10.
  assert (R1 : intervalRef w1 = Some (nextTimerId w)) by (rewrite E1; exact F2).
  assert (I1 : intervals w1 = <[nextTimerId w := t]> (intervals w))
    by (rewrite E1; exact F3).
  assert (A1 : audioContextRef w1 = Some c) by (rewrite E1; exact F10).
  clear E1 F1 F2 F3 F10 wb.
  destruct (stop_fields w1) as (G1 & G2 & G3 & _).
  destruct (stop_audio w1) as (G4 & _).
  fold w2 in G1, G2, G3, G4. rewrite R1, I1 in G3. rewrite A1 in G4.
  clearbody w2.
  assert (L2 : intervals w2 !! id0 = Some t0).
  { rewrite G3, lookup_delete_ne, lookup_insert_ne by congruence. exact Hid. }
  split; [exact R1|].
  split; [rewrite I1, lookup_insert_ne by congruence; exact Hid|].
  split; [rewrite I1, lookup_insert_eq; by eexists|].
  split; [exact G1|]. split; [exact G2|].
  split; [rewrite G3; apply lookup_delete_eq|].
  split; [exact L2|].
  destruct t0 as [d due s]. cbn [it_due it_settings].
  destruct (fireInterval_facts id0 w2 d due s c L2 G4) as (_ & Fp & _).
  exact Fp.
Qed.

Lemma fireInterval_setSettings s id w :
  fireInterval id (setSettings s w) = setSettings s (fireInterval id w).
Proof.
  unfold fireInterval. cbn.
  destruct (intervals w !! id) as [t|]; [|reflexivity].
  unfold intervalCallback, createSound. cbn.
  destruct (audioContextRef w); [|reflexivity].
  destruct (soundShape _ _). reflexivity.
Qed.

(** X6. The callback of the interval sounds the settings of the render
    whose [start] scheduled it. [start] stores them with the interval, and
    an [updateSettings] that does not restart (no bpm given, or called from
    a render in which the metronome was not playing) changes
    [settings] only: the next firing plays the same tone, at the same time,
    as it would have without the update. *)
Theorem running_interval_keeps_its_settings (w : World) (cl : Closure)
    (p : PartialSettings) (id : nat) (task : IntervalTask) (c : ContextState) :
  truthy_bpm p && cl_isPlaying cl = false ->
  intervals w !! id = Some task ->
  audioContextRef w = Some c ->
  let w' := updateSettings cl p w in
  settings w' = merge (settings w) p /\
  isPlaying w' = isPlaying w /\ intervals w' = intervals w /\
  fireInterval id w' = setSettings (merge (settings w) p) (fireInterval id w) /\
  played (fireInterval id w')
  = (Qmax (now w) (it_due task), beatTone (it_settings task) (beatCountRef w))
    :: played w /\
  forall cl0 w0 c0, audioContextRef w0 = Some c0 ->
    exists t, intervals (startBody cl0 w0) !! nextTimerId w0 = Some t /\
              it_settings t = cl_settings cl0.
Proof.
  intros Hp Hid Hc w'. subst w'. unfold updateSettings. rewrite Hp.
  split; [reflexivity|]. split; [reflexivity|]. split; [reflexivity|].
  split; [apply fireInterval_setSettings|]. split.
  - rewrite fireInterval_setSettings. destruct task as [d due s].
    destruct (fireInterval_facts id w d due s c Hid Hc) as (_ & Fp & _).
    exact Fp.
  - intros cl0 w0 c0 H0.
    destruct (startBody_facts cl0 w0 c0 H0) as (_ & _ & F3 & _).
    cbv zeta in F3. rewrite F3, lookup_insert_eq. eexists. split; reflexivity.
Qed.

Lemma succ_mod_one (n ts : nat) :
  (2 <= ts)%nat -> (n mod ts = 0)%nat -> (S n mod ts = 1)%nat.
Proof.
  intros Hts Hn.
  replace (S n) with (n + 1)%nat by lia.
  rewrite Nat.Div0.add_mod, Hn. cbn [Nat.add].
  rewrite Nat.Div0.mod_mod. apply Nat.mod_small. lia.
Qed.

(** X7. What the interval's callback shows in [currentBeat]. The beat
    that sounds is the one numbered by the counter before the increment,
    [n]; the display is computed from the counter after it,
    [(n + 1) % timeSignature + 1]. So the display runs one beat ahead of the
    sound: when the accented first beat of a bar sounds (time signature at
    least 2), [currentBeat] is 2; it is 1 while the last beat of a bar
    sounds; and with a time signature of 0 it is NaN. *)
Theorem display_runs_one_beat_ahead (w : World) (id : nat) (task : IntervalTask)
    (c : ContextState) :
  intervals w !! id = Some task ->
  audioContextRef w = Some c ->
  let s := it_settings task in
  let n := beatCountRef w in
  let w' := fireInterval id w in
  played w' = (Qmax (now w) (it_due task), beatTone s n) :: played w /\
  currentBeat w' = S <$> JS.rem (S n) (timeSignature s) /\
  (isAccentBeat s n = true -> (2 <= timeSignature s)%nat ->
     currentBeat w' = Some 2%nat) /\
  ((2 <= timeSignature s)%nat -> (n mod timeSignature s = timeSignature s - 1)%nat ->
     currentBeat w' = Some 1%nat) /\
  (timeSignature s = O -> currentBeat w' = None).
Proof.
  intros Hid Hc s n w'. destruct task as [d due s0]. cbn [it_settings it_due] in *.
  destruct (fireInterval_facts id w d due s0 c Hid Hc) as (_ & Fp & _).
  fold w' in Fp.
  assert (Hb : currentBeat w' = S <$> JS.rem (S n) (timeSignature s)).
  { subst w'. unfold fireInterval. rewrite Hid. cbn -[createSound].
    unfold intervalCallback. cbn -[createSound].
    destruct (createSound_fields (sound s0)
                (beatFrequency (isAccentBeat s0 (beatCountRef w))) 0.1%Q
                (beatVolume s0 (isAccentBeat s0 (beatCountRef w)))
                (set_now (Qmax (now w) due) w)) as (_ & _ & _ & _ & _ & F & _).
    cbv zeta in F. cbn -[createSound] in F. rewrite F. reflexivity. }
  clearbody w'. split; [exact Fp|]. split; [exact Hb|]. rewrite Hb.
  split; [|split].
  - intros Hacc Hts. unfold isAccentBeat in Hacc.
    apply andb_true_iff in Hacc as [_ Hrem].
    apply rem_is_zero_spec in Hrem. unfold JS.rem in *.
    destruct (timeSignature s) as [|ts] eqn:Ets; [lia|].
    injection Hrem as Hrem. cbn [fmap option_fmap option_map].
    rewrite succ_mod_one by (lia || exact Hrem). reflexivity.
  - intros Hts Hlast. unfold JS.rem.
    destruct (timeSignature s) as [|ts] eqn:Ets; [lia|].
    cbn [fmap option_fmap option_map]. f_equal. f_equal.
    replace (S n) with (n + 1)%nat by lia.
    rewrite Nat.Div0.add_mod, Hlast.
    rewrite (Nat.mod_small 1) by lia.
    replace (S ts - 1 + 1)%nat with (S ts) by lia.
    apply Nat.Div0.mod_same.
  - intros ->. reflexivity.
Qed.

(** X8. [testSound] never rejects and leaves the metronome alone: neither
    the part that runs at the call nor the part that runs after [resume()]
    touches the playing state, the interval, the beat counter, the display,
    the guards or the timers. It sounds at most one tone, at full gain for
    half a second, and does so whenever the audio context is there (resumed
    if need be); the frequency is 440 Hz passed through the sound setting of
    the render: 880 for click, 440 for beep and digital, 220 for wood. *)
Theorem testSound_leaves_the_metronome_alone (cl : Closure) (win : Window)
    (resumed : option ContextState) (w : World) :
  let r := testSoundCall cl win w in
  let tone := testTone (sound (cl_settings cl)) in
  sameBeat w (fst r) /\
  sameBeat w (testSoundResumed cl resumed w) /\
  (forall e, snd r <> Settled (Rejected e)) /\
  match contextFor win w with
  | None => snd r = Settled Fulfilled /\ played (fst r) = played w
  | Some suspended =>
      snd r = Suspended /\ played (fst r) = played w /\
      played (testSoundResumed cl resumed (fst r))
      = match resumed with
        | Some _ => (now w, tone) :: played w
        | None => played w
        end
  | Some _ =>
      snd r = Settled Fulfilled /\ played (fst r) = (now w, tone) :: played w
  end /\
  tone_gain tone = 1%Q /\ tone_duration tone = 0.5%Q /\
  (tone_frequency tone ==
   match sound (cl_settings cl) with
   | click => 880
   | wood => 220
   | beep | digital => 440
   end)%Q.
Proof.
  intros r tone. subst r tone.
  unfold testSoundCall, testSoundResumed, contextFor, createSound, testTone, sameBeat.
  split; [|split; [|split; [|split]]].
  - destruct (audioContextRef w) as [[]|] eqn:Ha; [| | |destruct win as [| |[]]];
      cbn; rewrite ?Ha; try destruct (soundShape _ _); cbn; rewrite ?Ha;
      repeat split; reflexivity.
  - destruct resumed as [st|]; cbn; try destruct (soundShape _ _);
      repeat split; reflexivity.
  - intros e.
    destruct (audioContextRef w) as [[]|] eqn:Ha; [| | |destruct win as [| |[]]];
      cbn; rewrite ?Ha; discriminate.
  - destruct (audioContextRef w) as [[]|] eqn:Ha; [| | |destruct win as [| |[]]];
      cbn; rewrite ?Ha; try destruct resumed; cbn;
      try destruct (soundShape _ _); repeat split; reflexivity.
  - destruct (sound (cl_settings cl)); cbn; repeat split; reflexivity.
Qed.

End MetronomeSound.

(** ** The debounced slider: what is scheduled, and when *)

Section SliderSchedule.
Import DebouncedSlider.
Context {T : Type} `{EqDecision T}.
Variable debounceMs : Z.
Implicit Types (s : State T) (v : T).

Lemma pendingShown_eq s s' :
  isPending s' = isPending s -> timeoutRef s' = timeoutRef s ->
  timeouts s' = timeouts s -> pendingShown s -> pendingShown s'.
Proof. unfold pendingShown. intros -> -> ->. trivial. Qed.

Lemma pendingShown_step e s :
  settled s -> (e = OnEnd -> isInteractingRef s = true) ->
  pendingShown s -> pendingShown (step debounceMs e s).
Proof.
  intros [Ht He] Hb Hp. destruct e as [| |v|u|id]; cbn [step].
  - destruct (handleStart_facts s Ht) as (A1 & _).
    unfold handleStart in *.
    destruct (cancelSave_frame (setIsInteracting true (set_isInteractingRef true s)))
      as (_ & _ & _ & _ & _ & F6 & _).
    cbv zeta in A1, F6. unfold pendingShown. rewrite F6. exact A1.
  - specialize (He (Hb eq_refl)). unfold pendingShown. cbn.
    exists (nextTimerId s), (mkTimeout (now s + debounceMs) SaveLive).
    split; [reflexivity|]. rewrite He. apply insert_empty.
  - destruct (isInteractingRef s) eqn:Hi.
    + rewrite handleChange_interacting by exact Hi. exact Hp.
    + unfold handleChange.
      change (isInteractingRef (setValue v (set_valueRef v s)))
        with (isInteractingRef s).
      rewrite Hi.
      assert (Ht0 : tracked (setValue v (set_valueRef v s))) by exact Ht.
      pose proof (tracked_cancel _ Ht0) as Hc. revert Hc.
      generalize (cancelSave (setValue v (set_valueRef v s))).
      intros sc Hc. unfold pendingShown. cbn.
      eexists _, _. split; [reflexivity|]. rewrite Hc. apply insert_empty.
  - unfold renderWith, initialValueEffect.
    destruct (decide (u = initialValue s)); [exact Hp|].
    change (isInteractingRef (set_initialValue u s)) with (isInteractingRef s).
    destruct (isInteractingRef s); exact Hp.
  - unfold fireTimeout. destruct (timeouts s !! id) as [t|] eqn:Hid; [|exact Hp].
    unfold pendingShown in *. cbn. destruct (isPending s).
    + destruct Hp as (id0 & t0 & Hr & Hm). rewrite Hm in Hid |- *.
      apply lookup_singleton_Some in Hid as [<- _]. apply delete_singleton_eq.
    + rewrite Hp, lookup_empty in Hid. discriminate.
Qed.

Lemma pendingShown_run es s :
  settled s -> bracketed debounceMs es s = true ->
  pendingShown s -> pendingShown (run debounceMs es s).
Proof.
  revert s. induction es as [|e es IH]; intros s Hs Hb Hp; [exact Hp|].
  change (run debounceMs (e :: es) s) with (run debounceMs es (step debounceMs e s)).
  cbn [bracketed] in Hb. apply andb_true_iff in Hb as [He Hes].
  assert (Hend : e = OnEnd -> isInteractingRef s = true) by (intros ->; exact He).
  apply IH; [by apply settled_step | exact Hes | by apply pendingShown_step].
Qed.

Lemma settled_mounted v0 : settled (mounted v0).
Proof. split; [by apply tracked_empty | reflexivity]. Qed.

(** X9. As long as [onEnd] is only called during an interaction, in every
    state the hook reaches at most one save is scheduled, it is the one
    [timeoutRef] holds, and [isPending] is true exactly while one is
    scheduled. *)
Theorem isPending_tells_a_save_is_scheduled (v0 : T) (es : list (Event T)) :
  bracketed debounceMs es (mounted v0) = true ->
  let s := run debounceMs es (mounted v0) in
  (isPending s = true <-> timeouts s <> ∅) /\
  (forall i j ti tj,
     timeouts s !! i = Some ti -> timeouts s !! j = Some tj ->
     i = j /\ timeoutRef s = Some i).
Proof.
  intros Hb s.
  pose proof (pendingShown_run es _ (settled_mounted v0) Hb eq_refl) as Hp.
  fold s in Hp. unfold pendingShown in Hp. split.
  - destruct (isPending s).
    + destruct Hp as (id & t & _ & Hm). rewrite Hm. split; [|reflexivity].
      intros _ He. apply (f_equal (fun m => m !! id)) in He.
      rewrite lookup_singleton_eq, lookup_empty in He. discriminate.
    + rewrite Hp. split; [discriminate|]. intros Hne. contradiction.
  - intros i j ti tj Hi Hj. destruct (isPending s).
    + destruct Hp as (id & t & Hr & Hm). rewrite Hm in Hi, Hj.
      apply lookup_singleton_Some in Hi as [<- _].
      apply lookup_singleton_Some in Hj as [<- _]. by split.
    + rewrite Hp, lookup_empty in Hi. discriminate.
Qed.

(** X10. As long as [onEnd] is only called during an interaction, no save
    is scheduled while the user interacts: [onStart] has cancelled the one
    that was pending, [onChange] schedules none, and so no timeout can fire
    and call [onSave] before [onEnd]. *)
Theorem no_save_during_an_interaction (v0 : T) (es : list (Event T)) :
  bracketed debounceMs es (mounted v0) = true ->
  let s := run debounceMs es (mounted v0) in
  isInteracting s = true ->
  timeouts s = ∅ /\ isPending s = false /\
  (forall id, fireTimeout id s = s) /\
  (forall vs id, saved (fireTimeout id (changes debounceMs vs s)) = saved s).
Proof.
  intros Hb s Hi.
  assert (Hsync : isInteracting s = isInteractingRef s)
    by (apply interacting_sync; reflexivity).
  rewrite Hsync in Hi.
  destruct (settled_run debounceMs es _ (settled_mounted v0) Hb) as [_ He].
  fold s in He. specialize (He Hi).
  pose proof (pendingShown_run es _ (settled_mounted v0) Hb eq_refl) as Hp.
  fold s in Hp. unfold pendingShown in Hp.
  split; [exact He|]. split; [|split].
  - destruct (isPending s); [|reflexivity].
    destruct Hp as (id & t & _ & Hm). rewrite He in Hm.
    apply (f_equal (fun m => m !! id)) in Hm.
    rewrite lookup_singleton_eq, lookup_empty in Hm. discriminate.
  - intros id. apply fireTimeout_none. rewrite He. apply lookup_empty.
  - intros vs id. unfold changes.
    destruct (changes_facts debounceMs vs s Hi) as (F1 & _ & _ & _ & _ & F6 & _).
    cbv zeta in F1, F6. rewrite fireTimeout_none; [exact F6|].
    rewrite F1, He. apply lookup_empty.
Qed.

End SliderSchedule.

Section SliderSaves.
Import DebouncedSlider.
Context {T : Type} `{EqDecision T}.
Variable debounceMs : Z.
Implicit Types (s : State T) (v : T).

(** One [onChange] outside an interaction. *)
Lemma handleChange_idle v s :
  tracked s -> isInteractingRef s = false ->
  let s' := handleChange debounceMs v s in
  timeouts s' = {[ nextTimerId s := mkTimeout (now s + debounceMs) (SaveCaptured v) ]} /\
  timeoutRef s' = Some (nextTimerId s) /\ isPending s' = true /\
  value s' = v /\ valueRef s' = v /\ isInteractingRef s' = false /\
  saved s' = saved s /\ now s' = now s /\ nextTimerId s' = S (nextTimerId s) /\
  initialValue s' = initialValue s.
Proof.
  intros Ht Hi. unfold handleChange.
  change (isInteractingRef (setValue v (set_valueRef v s)))
    with (isInteractingRef s).
  rewrite Hi.
  assert (Ht0 : tracked (setValue v (set_valueRef v s))) by exact Ht.
  pose proof (tracked_cancel _ Ht0) as Hc.
  destruct (cancelSave_frame (setValue v (set_valueRef v s)))
    as (F1 & F2 & _ & F4 & _ & _ & F7 & F8 & F9 & F10).
  cbv zeta in F1, F2, F4, F7, F8, F9, F10. revert Hc F1 F2 F4 F7 F8 F9 F10.
  generalize (cancelSave (setValue v (set_valueRef v s))).
  intros sc Hc F1 F2 F4 F7 F8 F9 F10. cbn in F1, F2, F4, F7, F8, F9, F10 |- *.
  rewrite Hc, F1, F2, F4, F7, F8, F9, F10, Hi, insert_empty.
  repeat split; reflexivity.
Qed.

Lemma changes_idle vs vn s :
  tracked s -> isInteractingRef s = false -> last vs = Some vn ->
  let s' := changes debounceMs vs s in
  let id := (nextTimerId s + length vs - 1)%nat in
  timeouts s' = {[ id := mkTimeout (now s + debounceMs) (SaveCaptured vn) ]} /\
  timeoutRef s' = Some id /\ isPending s' = true /\
  value s' = vn /\ valueRef s' = vn /\ isInteractingRef s' = false /\
  saved s' = saved s /\ now s' = now s /\
  initialValue s' = initialValue s.
Proof.
  revert s. induction vs as [|v vs IH]; intros s Ht Hi Hl; [discriminate|].
  destruct (handleChange_idle v s Ht Hi)
    as (A1 & A2 & A3 & A4 & A5 & A6 & A7 & A8 & A9 & A10).
  cbv zeta in *. unfold changes in *. cbn [fold_left length].
  destruct vs as [|v' vs'].
  - cbn in Hl. injection Hl as <-. cbn [fold_left].
    replace (nextTimerId s + S (length (@nil T)) - 1)%nat with (nextTimerId s)
      by (cbn; lia).
    repeat split; assumption.
  - assert (Ht1 : tracked (handleChange debounceMs v s))
      by (eapply tracked_singleton; eassumption).
    rewrite last_cons in Hl.
    assert (Hl' : last (v' :: vs') = Some vn).
    { destruct (last (v' :: vs')) eqn:E; [exact Hl|].
      apply last_None in E. discriminate. }
    destruct (IH (handleChange debounceMs v s) Ht1 A6 Hl')
      as (B1 & B2 & B3 & B4 & B5 & B6 & B7 & B8 & B9).
    rewrite A9, A8 in B1. rewrite A9 in B2.
    replace (S (nextTimerId s) + length (v' :: vs') - 1)%nat
      with (nextTimerId s + S (length (v' :: vs')) - 1)%nat in B1, B2 by lia.
    repeat split; try assumption; congruence.
Qed.

(** X11. [onChange] outside an interaction (a programmatic change). From a
    state whose scheduled timeout, if any, is the one [timeoutRef] holds, a
    series of such calls leaves exactly one timeout, due [debounceMs] after
    the last call, that saves the value of the last call: each call cancels
    the timeout of the one before. The value is the argument the callback
    closed over, not the live value: a render with another [initialValue]
    before the timeout fires does not change what is saved. *)
Theorem programmatic_changes_save_once (s : State T) (vs : list T) (vn : T) :
  tracked s ->
  isInteractingRef s = false ->
  last vs = Some vn ->
  let s' := changes debounceMs vs s in
  let id := (nextTimerId s + length vs - 1)%nat in
  timeouts s' = {[ id := mkTimeout (now s + debounceMs) (SaveCaptured vn) ]} /\
  timeoutRef s' = Some id /\ isPending s' = true /\ value s' = vn /\
  saved s' = saved s /\
  (forall u, saved (fireTimeout id (renderWith u s')) = vn :: saved s) /\
  timeouts (fireTimeout id s') = ∅ /\ isPending (fireTimeout id s') = false.
Proof.
  intros Ht Hi Hl s' id.
  destruct (changes_idle vs vn s Ht Hi Hl)
    as (B1 & B2 & B3 & B4 & B5 & B6 & B7 & B8 & B9).
  fold s' id in B1, B2, B3, B4, B5, B6, B7, B8, B9. clearbody s' id.
  split; [exact B1|]. split; [exact B2|]. split; [exact B3|].
  split; [exact B4|]. split; [exact B7|]. split; [|split].
  - intros u. unfold renderWith, initialValueEffect.
    destruct (decide (u = initialValue s')).
    + unfold fireTimeout. rewrite B1, lookup_singleton_eq. cbn. by rewrite B7.
    + change (isInteractingRef (set_initialValue u s')) with (isInteractingRef s').
      rewrite B6. unfold fireTimeout. cbn. rewrite B1, lookup_singleton_eq. cbn.
      by rewrite B7.
  - unfold fireTimeout. rewrite B1, lookup_singleton_eq. cbn.
    rewrite B1. apply delete_singleton_eq.
  - unfold fireTimeout. rewrite B1, lookup_singleton_eq. reflexivity.
Qed.

(** X12. [handleEnd] does not cancel a scheduled timeout, it only
    overwrites [timeoutRef]. When [onEnd] is called twice in a row (with no
    timeout scheduled before), two saves are scheduled and [timeoutRef]
    holds the second. Left alone, both fire and [onSave] is called twice
    with the live value. A following [onStart] cancels the second only: the
    first is still scheduled during the new interaction, and fires in the
    middle of it. *)
Theorem second_onEnd_leaves_a_save_behind (s : State T) :
  timeouts s = ∅ ->
  let n := nextTimerId s in
  let due := mkTimeout (now s + debounceMs) SaveLive in
  let s2 := handleEnd debounceMs (handleEnd debounceMs s) in
  timeouts s2 = <[S n := due]> {[ n := due ]} /\
  timeoutRef s2 = Some (S n) /\
  saved (fireTimeout (S n) (fireTimeout n s2)) = valueRef s :: valueRef s :: saved s /\
  let s3 := handleStart s2 in
  isInteracting s3 = true /\ isPending s3 = false /\
  timeouts s3 = {[ n := due ]} /\
  saved (fireTimeout n s3) = valueRef s :: saved s.
Proof.
  intros He n due s2.
  assert (T2 : timeouts s2 = <[S n := due]> {[ n := due ]}).
  { subst s2. cbn. rewrite He, insert_empty. reflexivity. }
  assert (R2 : timeoutRef s2 = Some (S n)) by reflexivity.
  assert (V2 : valueRef s2 = valueRef s) by reflexivity.
  assert (S2 : saved s2 = saved s) by reflexivity.
  assert (Ln : (<[S n := due]> ({[ n := due ]} : gmap nat (Timeout T))) !! n = Some due).
  { rewrite lookup_insert_ne by lia. apply lookup_singleton_eq. }
  clearbody s2. split; [exact T2|]. split; [exact R2|]. split.
  - unfold fireTimeout at 2. rewrite T2, Ln. cbn.
    unfold fireTimeout. cbn. rewrite T2.
    rewrite lookup_delete_ne, lookup_insert_eq by lia. cbn.
    by rewrite V2, S2.
  - intros s3.
    assert (E3 : timeouts s3 = {[ n := due ]}).
    { subst s3. unfold handleStart, cancelSave. cbn. rewrite R2. cbn. rewrite T2.
      rewrite delete_insert_eq. apply delete_id.
      rewrite lookup_singleton_ne by lia. reflexivity. }
    destruct (handleStart_frame s2) as (_ & F2 & F3 & _ & F5).
    fold s3 in F2, F3, F5.
    assert (P3 : isPending s3 = false).
    { subst s3. unfold handleStart.
      destruct (cancelSave_frame (setIsInteracting true (set_isInteractingRef true s2)))
        as (_ & _ & _ & _ & _ & F6 & _). exact F6. }
    clearbody s3. split; [exact F3|]. split; [exact P3|]. split; [exact E3|].
    unfold fireTimeout. rewrite E3, lookup_singleton_eq. cbn.
    by rewrite F2, F5, V2, S2.
Qed.

(** X13. The unmount cleanup clears the timeout [timeoutRef] holds. As
    long as [onEnd] was only called during an interaction that is the only
    one there is, so after unmount no timeout is left: a save that was still
    pending is never made, and the last value is lost. *)
Theorem unmount_drops_the_pending_save (v0 : T) (es : list (Event T)) :
  bracketed debounceMs es (mounted v0) = true ->
  let s := run debounceMs es (mounted v0) in
  timeouts (unmount s) = ∅ /\
  saved (unmount s) = saved s /\
  forall id, saved (fireTimeout id (unmount s)) = saved s.
Proof.
  intros Hb s. pose proof (tracked_reachable debounceMs v0 es Hb) as Ht.
  fold s in Ht. clearbody s.
  assert (He : timeouts (unmount s) = ∅).
  { unfold unmount. destruct (timeoutRef s) as [id|] eqn:Hr.
    - cbn. apply map_eq. intros i. rewrite lookup_empty.
      destruct (decide (id = i)) as [->|Hne]; [apply lookup_delete_eq|].
      rewrite lookup_delete_ne by exact Hne.
      destruct (timeouts s !! i) as [t|] eqn:Hi; [|reflexivity].
      specialize (Ht i t Hi). congruence.
    - apply map_eq. intros i. rewrite lookup_empty.
      destruct (timeouts s !! i) as [t|] eqn:Hi; [|reflexivity].
      specialize (Ht i t Hi). congruence. }
  assert (Hs : saved (unmount s) = saved s).
  { unfold unmount. destruct (timeoutRef s); reflexivity. }
  split; [exact He|]. split; [exact Hs|].
  intros id. rewrite fireTimeout_none; [exact Hs|].
  rewrite He. apply lookup_empty.
Qed.

End SliderSaves.

(** ** The wake lock: release, and which mechanism holds the screen *)

Section WakeLockRelease.
Import WakeLock.

Ltac wl_cases s :=
  destruct s as [a b [[[]]|] [[[]]|] d].

Ltac wl_close :=
  repeat split; try reflexivity; intros;
  repeat match goal with H : Some _ = Some _ |- _ => injection H as <- end;
  cbn in *; congruence.

(** X14. [disableWakeLock] never throws, whatever [NoSleep.disable()] and
    [release()] do. It leaves [isWakeLockActive] false and no unreleased
    sentinel in [wakeLockRef]; the NoSleep instance is kept, disabled if its
    [disable()] returned and as it was if it threw; the support flag is not
    touched. *)
Theorem disableWakeLock_releases (p : ReleasePlatform) (s : State) :
  let r := disableWakeLock p s in
  snd r = inr tt /\
  isWakeLockActive (fst r) = false /\
  (forall lock, wakeLockRef (fst r) = Some lock -> released lock = true) /\
  (forall lock, wakeLockRef s = Some lock -> released lock = false ->
     wakeLockRef (fst r) = None) /\
  noSleepRef (fst r)
  = (if noSleepDisables p then (fun _ => mkNoSleep false) <$> noSleepRef s
     else noSleepRef s) /\
  isWakeLockSupported (fst r) = isWakeLockSupported s /\
  hasInitializedRef (fst r) = hasInitializedRef s.
Proof.
  wl_cases s; destruct p as [[] []]; cbn; wl_close.
Qed.

(** X15. [disableWakeLock] is idempotent: a second call, on a platform that
    behaves the same, changes nothing; and once [NoSleep.disable()] has
    returned in the first call, a second call changes nothing whatever the
    platform does. *)
Theorem disableWakeLock_idempotent (p p' : ReleasePlatform) (s : State) :
  let s1 := fst (disableWakeLock p s) in
  fst (disableWakeLock p s1) = s1 /\
  (noSleepDisables p = true -> fst (disableWakeLock p' s1) = s1) /\
  (noSleepRef s = None -> fst (disableWakeLock p' s1) = s1).
Proof.
  wl_cases s; destruct p as [[] []]; destruct p' as [[] []]; cbn; wl_close.
Qed.

(** X16. The first mechanism that succeeds wins. When the NoSleep fallback
    succeeds, [enableWakeLock] does not request the native lock:
    [wakeLockRef] is left as it was. When the fallback fails and the native
    request is granted, the new sentinel is stored in [wakeLockRef]. When
    both fail, [wakeLockRef] is left as it was. Whenever the call resolves
    to true, one of the two mechanisms is engaged. *)
Theorem enableWakeLock_first_success_wins (p : Platform) (s : State) :
  let r := enableWakeLock p s in
  (fallbackSucceeds p s = true ->
     wakeLockRef (fst r) = wakeLockRef s /\
     noSleepRef (fst r) = Some (mkNoSleep true)) /\
  (fallbackSucceeds p s = false -> nativeSucceeds p = true ->
     wakeLockRef (fst r) = Some (mkSentinel false)) /\
  (fallbackSucceeds p s = false -> nativeSucceeds p = false ->
     wakeLockRef (fst r) = wakeLockRef s) /\
  (snd r = inr true -> engaged (fst r) = true) /\
  isWakeLockSupported (fst r) = isWakeLockSupported s.
Proof.
  wl_cases s; destruct p as [[] [] [] [] []]; cbn; wl_close.
Qed.

(** X17. The release listener of the native sentinel clears
    [wakeLockRef], and sets [isWakeLockActive] to false only when there is
    no NoSleep instance. After [enableWakeLock] in a window where
    [new NoSleep()] returns there is one, enabled or not. So when
    [NoSleep.enable()] rejects and the native lock is granted, and the
    browser then releases that lock, [isWakeLockActive] stays true although
    neither mechanism is engaged any more. *)
Theorem release_keeps_active_flag (p : Platform) (s : State) :
  hasWindow p = true -> noSleepConstructs p = true ->
  noSleepEnables p = false ->
  hasNativeApi p = true -> nativeGrants p = true ->
  from_option ns_enabled false (noSleepRef s) = false ->
  let s1 := fst (enableWakeLock p s) in
  let s2 := fst (onRelease s1) in
  snd (enableWakeLock p s) = inr true /\
  isWakeLockActive s1 = true /\ engaged s1 = true /\
  snd (onRelease s1) = inr tt /\
  wakeLockRef s2 = None /\
  isWakeLockActive s2 = true /\ engaged s2 = false.
Proof.
  intros H1 H2 H3 H4 H5 H6. destruct p as [w0 c0 e0 a0 g0].
  cbn in H1, H2, H3, H4, H5. subst.
  destruct s as [a b [[[]]|] [[[]]|] d]; cbn in H6; try discriminate;
    cbn; repeat split; reflexivity.
Qed.

(** X18. The support check runs once, in the first effect that finds a
    window: it sets [isWakeLockSupported] to true when the native API is in
    [navigator] (without building a NoSleep instance) or else when a
    NoSleep instance is there or can be built, and to false otherwise; a
    second run changes nothing, whatever the platform has become. *)
Theorem supportEffect_runs_once (p p' : Platform) (nav nav' : bool) (s : State) :
  hasInitializedRef s = false ->
  hasWindow p = true ->
  let r := supportEffect p nav s in
  snd r = inr tt /\
  hasInitializedRef (fst r) = true /\
  isWakeLockSupported (fst r)
  = nav || bool_decide (is_Some (noSleepRef s)) || noSleepConstructs p /\
  (nav = true -> noSleepRef (fst r) = noSleepRef s) /\
  isWakeLockActive (fst r) = isWakeLockActive s /\
  supportEffect p' nav' (fst r) = (fst r, inr tt).
Proof.
  intros Hi Hw. destruct p as [w0 c0 e0 a0 g0]. cbn in Hw. subst w0.
  destruct s as [a b l n d]. cbn in Hi. subst d.
  destruct n as [[[]]|]; destruct nav, c0; cbn;
    rewrite ?andb_false_r; wl_close.
Qed.

End WakeLockRelease.

(** ** The practice timers: what is inserted, and when the counter runs *)

Section OptimizedTimerRows.
Import Session MobileOptimizedTimer.

Lemma savePracticeSession_rows b s :
  let s' := savePracticeSession b s in
  user s' = user s /\ song s' = song s /\
  intervalRef s' = intervalRef s /\ isRunning s' = isRunning s /\
  (inserted s' = inserted s \/
   exists r, inserted s' = r :: inserted s /\ b = InsertOk /\
             rowOk (user s) (song s) r).
Proof.
  unfold savePracticeSession.
  destruct (user s) as [u|] eqn:Hu; [|cbv zeta; rewrite Hu; auto 6].
  destruct (sessionRef s) as [session|]; [|cbv zeta; rewrite Hu; auto 6].
  destruct (0 <? durationMinutes session) eqn:Hm;
    [|cbv zeta; cbn; rewrite Hu; auto 6].
  apply Z.ltb_lt in Hm.
  destruct b; cbv zeta; cbn; rewrite Hu; repeat split; auto.
  right. eexists. split; [reflexivity|]. split; [reflexivity|].
  unfold rowOk. cbn. repeat split. lia.
Qed.

Lemma rows_step e s :
  let s' := step e s in
  user s' = user s /\ song s' = song s /\
  (inserted s' = inserted s \/
   exists r, inserted s' = r :: inserted s /\ acceptedStops [e] = 1%nat /\
             rowOk (user s) (song s) r).
Proof.
  destruct e as [t|t|t t' b|]; cbn [step].
  - destruct (isRunning s); [cbv zeta; auto|].
    unfold handleStart. destruct (isPaused s); cbv zeta; cbn; auto.
  - destruct (isRunning s); cbv zeta; cbn; auto.
  - unfold handleStop. destruct (Nat.eqb (time s) 0 || isSaving s); [cbv zeta; auto|].
    match goal with |- context [savePracticeSession b ?x] =>
      destruct (savePracticeSession_rows b x) as (F1 & F2 & _ & _ & F5);
      revert F1 F2 F5; generalize (savePracticeSession b x) end.
    intros s1 F1 F2 F5. cbn in F1, F2, F5. cbv zeta. cbn.
    split; [exact F1|]. split; [exact F2|].
    destruct F5 as [F5|(r & F5 & -> & Hr)]; [by left|].
    right. exists r. split; [exact F5|]. split; [reflexivity | exact Hr].
  - unfold tick. destruct (intervalRef s); cbv zeta; cbn; auto.
Qed.

Lemma acceptedStops_cons e es :
  acceptedStops (e :: es) = (acceptedStops [e] + acceptedStops es)%nat.
Proof.
  unfold acceptedStops. cbn. destruct e as [| |? ? []|]; reflexivity.
Qed.

Lemma rows_run es s :
  Forall (rowOk (user s) (song s)) (inserted s) ->
  let s' := run es s in
  user s' = user s /\ song s' = song s /\
  Forall (rowOk (user s) (song s)) (inserted s') /\
  (length (inserted s') <= length (inserted s) + acceptedStops es)%nat.
Proof.
  revert s. induction es as [|e es IH]; intros s Hf.
  - cbv zeta. cbn. repeat split; [exact Hf | lia].
  - change (run (e :: es) s) with (run es (step e s)).
    destruct (rows_step e s) as (E1 & E2 & E3). cbv zeta in E1, E2, E3.
    assert (Hf' : Forall (rowOk (user (step e s)) (song (step e s)))
                    (inserted (step e s))).
    { rewrite E1, E2. destruct E3 as [->|(r & -> & _ & Hr)]; [exact Hf|].
      by constructor. }
    destruct (IH (step e s) Hf') as (I1 & I2 & I3 & I4). cbv zeta in *.
    rewrite E1, E2 in *. rewrite acceptedStops_cons.
    split; [exact I1|]. split; [exact I2|]. split; [exact I3|].
    destruct E3 as [E3|(r & E3 & Hc & _)]; rewrite E3 in I4;
      cbn [length] in I4; lia.
Qed.

(** X19. MobileOptimizedTimer, in every state it reaches: every row it
    has inserted carries the signed-in user, the song of the component and
    at least one minute (a session that rounds to zero minutes is not
    inserted); without a signed-in user nothing is inserted; and there are
    at most as many rows as stop presses whose insert the backend
    accepted. *)
Theorem optimized_timer_rows (es : list Event) (t : Z) (u : option nat)
    (sg : nat) (n : string) :
  let s := run es (mounted t u sg n) in
  Forall (rowOk u sg) (inserted s) /\
  (u = None -> inserted s = []) /\
  (length (inserted s) <= acceptedStops es)%nat.
Proof.
  intros s. destruct (rows_run es (mounted t u sg n) ltac:(constructor))
    as (_ & _ & I3 & I4).
  fold s in I3, I4. cbn in I3, I4. split; [exact I3|]. split; [|exact I4].
  intros ->. destruct (inserted s) as [|r l]; [reflexivity|].
  apply Forall_cons in I3 as [(_ & _ & Hu) _]. discriminate.
Qed.

Lemma ticksWhileRunning_step e s :
  ticksWhileRunning s -> ticksWhileRunning (step e s).
Proof.
  unfold ticksWhileRunning. intros Hs.
  destruct e as [t|t|t t' b|]; cbn [step].
  - destruct (isRunning s) eqn:Hr; [rewrite Hr; exact Hs|].
    unfold handleStart. destruct (isPaused s); cbn; by eexists.
  - destruct (isRunning s) eqn:Hr; [|rewrite Hr; exact Hs]. reflexivity.
  - unfold handleStop. destruct (Nat.eqb (time s) 0 || isSaving s); [exact Hs|].
    match goal with |- context [savePracticeSession b ?x] =>
      destruct (savePracticeSession_rows b x) as (_ & _ & F3 & F4 & _);
      revert F3 F4; generalize (savePracticeSession b x) end.
    intros s1 F3 F4. cbn in F3, F4 |- *. rewrite F3, F4. reflexivity.
  - unfold tick. destruct (intervalRef s) eqn:Hi; [|rewrite Hi; exact Hs].
    cbn. rewrite Hi. exact Hs.
Qed.

Lemma ticksWhileRunning_run es s :
  ticksWhileRunning s -> ticksWhileRunning (run es s).
Proof.
  revert s. induction es as [|e es IH]; intros s Hs; [exact Hs|].
  change (run (e :: es) s) with (run es (step e s)).
  apply IH. by apply ticksWhileRunning_step.
Qed.

(** X20. MobileOptimizedTimer, in every state it reaches: the tick
    interval exists exactly while the timer is running. So a tick advances
    [time] and the session's [duration] by one while running, and while
    paused or stopped no tick can change anything: paused time never enters
    the duration that is saved. *)
Theorem optimized_timer_counts_while_running (es : list Event) (t : Z)
    (u : option nat) (sg : nat) (n : string) :
  let s := run es (mounted t u sg n) in
  (isRunning s = true <-> is_Some (intervalRef s)) /\
  (isRunning s = false -> step Tick s = s) /\
  (isRunning s = true ->
     time (step Tick s) = S (time s) /\
     duration <$> sessionRef (step Tick s) = Some (S (time s))) /\
  (isPaused s = true -> isRunning s = false).
Proof.
  intros s.
  pose proof (ticksWhileRunning_run es (mounted t u sg n) eq_refl) as Ht.
  destruct (timerInv_run es _ (timerInv_mounted t u sg n))
    as (session & Hs & _ & Hr & _).
  fold s in Ht, Hs, Hr. clearbody s. unfold ticksWhileRunning in Ht.
  split; [|split; [|split]].
  - destruct (isRunning s); [by split|]. rewrite Ht.
    split; [discriminate | intros [x Hx]; discriminate].
  - intros Hf. rewrite Hf in Ht. cbn. unfold tick. rewrite Ht. reflexivity.
  - intros Hf. rewrite Hf in Ht. destruct Ht as [id Hid]. cbn. unfold tick.
    rewrite Hid, Hs. split; reflexivity.
  - intros Hp. destruct (isRunning s); [|reflexivity].
    specialize (Hr eq_refl). congruence.
Qed.

(** X21. MobileOptimizedTimer, when the insert fails: the error is caught
    and the stop goes on as after a success. No row is inserted, the counter
    is reset to zero and [sessionRef] is replaced by a fresh session, so the
    practice time of the failed save is gone; the component is left exactly
    as after stopping a session too short to be saved. *)
Theorem optimized_failed_insert_discards_session (es : list Event)
    (t0 t t' : Z) (u : option nat) (sg : nat) (n : string) :
  let s := run es (mounted t0 u sg n) in
  let s' := step (PressStop t t' InsertError) s in
  inserted s' = inserted s /\
  ((0 < time s)%nat ->
     time s' = O /\ isRunning s' = false /\ isPaused s' = false /\
     intervalRef s' = None /\ isSaving s' = false /\
     sessionRef s' = Some (freshSession t' (songNotes s))) /\
  ((JS.round_div (Z.of_nat (time s)) 60 <= 0) ->
     step (PressStop t t' InsertOk) s = s').
Proof.
  intros s s'.
  destruct (timerInv_run es _ (timerInv_mounted t0 u sg n))
    as (session & Hs & _ & _ & Hd & Hsv).
  fold s in Hs, Hd, Hsv. subst s'. clearbody s. cbn [step]. unfold handleStop.
  rewrite Hsv, orb_false_r.
  destruct (Nat.eqb_spec (time s) 0) as [E|E].
  - split; [reflexivity|]. split; [lia|]. reflexivity.
  - unfold savePracticeSession. cbn. rewrite Hs. cbn.
    unfold durationMinutes. cbn. rewrite Hd.
    destruct (user s) as [usr|]; cbn.
    + destruct (0 <? JS.round_div (Z.of_nat (time s)) 60) eqn:Hm; cbn.
      * split; [reflexivity|]. split; [intros _; repeat split; reflexivity|].
        apply Z.ltb_lt in Hm. lia.
      * split; [reflexivity|]. split; [intros _; repeat split; reflexivity|].
        reflexivity.
    + split; [reflexivity|].
      split; [intros _; repeat split; try reflexivity; exact Hsv|].
      reflexivity.
Qed.

End OptimizedTimerRows.

Section PracticeTimerRows.
Import Session MobilePracticeTimer.

Lemma round_div_nonneg (a b : Z) : 0 <= a -> 0 < b -> 0 <= JS.round_div a b.
Proof. intros Ha Hb. unfold JS.round_div. apply Z.div_pos; lia. Qed.

Lemma durationMinutes_nonneg t session : 0 <= durationMinutes t session.
Proof.
  unfold durationMinutes, JS.max. apply round_div_nonneg; lia.
Qed.

Lemma mob_savePracticeSession_rows t b s :
  let s' := savePracticeSession t b s in
  user s' = user s /\ song s' = song s /\
  (inserted s' = inserted s \/
   exists r, inserted s' = r :: inserted s /\ b = InsertOk /\
             rowOk (user s) (song s) r).
Proof.
  unfold savePracticeSession.
  destruct (user s) as [u|] eqn:Hu; [|cbv zeta; rewrite Hu; auto 6].
  destruct (sessionRef s) as [session|]; [|cbv zeta; rewrite Hu; auto 6].
  destruct (Nat.eqb (seconds s) 0); [cbv zeta; rewrite Hu; auto 6|].
  destruct b; cbv zeta; cbn; rewrite Hu; repeat split; auto.
  right. eexists. split; [reflexivity|]. split; [reflexivity|].
  unfold rowOk. cbn. repeat split. apply durationMinutes_nonneg.
Qed.

Lemma mob_rows_step e s :
  let s' := step e s in
  user s' = user s /\ song s' = song s /\
  (inserted s' = inserted s \/
   exists r, inserted s' = r :: inserted s /\ acceptedStops [e] = 1%nat /\
             rowOk (user s) (song s) r).
Proof.
  destruct e as [t|t b|]; cbn [step].
  - unfold handlePlayPause. destruct (isRunning s), (isPaused s); cbv zeta; cbn; auto.
  - destruct (Nat.eqb (seconds s) 0 || isSaving s); [cbv zeta; auto|].
    unfold handleStop.
    destruct (mob_savePracticeSession_rows t b s) as (F1 & F2 & F5).
    cbv zeta in F1, F2, F5. revert F1 F2 F5. generalize (savePracticeSession t b s).
    intros s1 F1 F2 F5. cbv zeta. cbn.
    split; [exact F1|]. split; [exact F2|].
    destruct F5 as [F5|(r & F5 & -> & Hr)]; [by left|].
    right. exists r. split; [exact F5|]. split; [reflexivity | exact Hr].
  - unfold tick. destruct (isRunning s && negb (isPaused s)); cbv zeta; cbn; auto.
Qed.

Lemma mob_acceptedStops_cons e es :
  acceptedStops (e :: es) = (acceptedStops [e] + acceptedStops es)%nat.
Proof.
  unfold acceptedStops. cbn. destruct e as [|? []|]; reflexivity.
Qed.

Lemma mob_rows_run es s :
  Forall (rowOk (user s) (song s)) (inserted s) ->
  let s' := run es s in
  user s' = user s /\ song s' = song s /\
  Forall (rowOk (user s) (song s)) (inserted s') /\
  (length (inserted s') <= length (inserted s) + acceptedStops es)%nat.
Proof.
  revert s. induction es as [|e es IH]; intros s Hf.
  - cbv zeta. cbn. repeat split; [exact Hf | lia].
  - change (run (e :: es) s) with (run es (step e s)).
    destruct (mob_rows_step e s) as (E1 & E2 & E3). cbv zeta in E1, E2, E3.
    assert (Hf' : Forall (rowOk (user (step e s)) (song (step e s)))
                    (inserted (step e s))).
    { rewrite E1, E2. destruct E3 as [->|(r & -> & _ & Hr)]; [exact Hf|].
      by constructor. }
    destruct (IH (step e s) Hf') as (I1 & I2 & I3 & I4). cbv zeta in *.
    rewrite E1, E2 in *. rewrite mob_acceptedStops_cons.
    split; [exact I1|]. split; [exact I2|]. split; [exact I3|].
    destruct E3 as [E3|(r & E3 & Hc & _)]; rewrite E3 in I4;
      cbn [length] in I4; lia.
Qed.

(** X22. MobilePracticeTimer, in every state it reaches: every row it has
    inserted carries the signed-in user, the song of the component and a
    number of minutes that is not negative, whatever the clock readings
    were ([Math.max(0, ...)] before the rounding); without a signed-in user
    nothing is inserted; and there are at most as many rows as stop presses
    whose insert the backend accepted. *)
Theorem practice_timer_rows (es : list Event) (t : Z) (u : option nat)
    (sg : nat) (n : string) :
  let s := run es (mounted t u sg n) in
  Forall (rowOk u sg) (inserted s) /\
  (u = None -> inserted s = []) /\
  (length (inserted s) <= acceptedStops es)%nat.
Proof.
  intros s. destruct (mob_rows_run es (mounted t u sg n) ltac:(constructor))
    as (_ & _ & I3 & I4).
  fold s in I3, I4. cbn in I3, I4. split; [exact I3|]. split; [|exact I4].
  intros ->. destruct (inserted s) as [|r l]; [reflexivity|].
  apply Forall_cons in I3 as [(_ & _ & Hu) _]. discriminate.
Qed.

Lemma closed_pauseLength t t' l z :
  Forall (fun p => isOpen p = false) l ->
  foldr (fun p a => pauseLength t p + a) z l
  = foldr (fun p a => pauseLength t' p + a) 0 l + z.
Proof.
  induction 1 as [|p l Hp _ IH]; cbn; [lia|].
  rewrite IH. unfold pauseLength, isOpen in *.
  destruct (p_end p); [cbn; lia | discriminate].
Qed.

(** The practice time of a session whose last pause is open: the span up
    to the start of that pause, minus the closed pauses. *)
Lemma durationMinutes_open_pause t session closedPart tp :
  Forall (fun p => isOpen p = false) closedPart ->
  pauses session = closedPart ++ [mkPause tp None] ->
  durationMinutes t session
  = JS.round_div
      (Z.max 0 (tp - startTime session
                - foldr (fun p a => pauseLength 0 p + a) 0 closedPart))
      60000.
Proof.
  intros Hc Hp. rewrite mobile_durationMinutes, Hp, foldr_app. cbn [foldr].
  rewrite (closed_pauseLength t 0 closedPart _ Hc).
  change (pauseLength t (mkPause tp None)) with (t - tp).
  f_equal. f_equal. lia.
Qed.

(** X23. MobilePracticeTimer, stop pressed while paused (in a run in which
    that has not happened before): the time spent in the pause that is still
    open is not counted. The minutes saved are those of the span from the
    start to the beginning of that pause minus the closed pauses, whenever
    the stop comes; two stops at different times leave the component in the
    same state. *)
Theorem stop_while_paused_saves_time_before_pause (es : list Event)
    (t0 t t' : Z) (u : option nat) (sg : nat) (n : string) (b : Backend) :
  neverStopsPaused es (mounted t0 u sg n) = true ->
  let s := run es (mounted t0 u sg n) in
  isPaused s = true ->
  step (PressStop t b) s = step (PressStop t' b) s /\
  exists session closedPart tp,
    sessionRef s = Some session /\
    pauses session = closedPart ++ [mkPause tp None] /\
    durationMinutes t session
    = JS.round_div
        (Z.max 0 (tp - startTime session
                  - foldr (fun p a => pauseLength 0 p + a) 0 closedPart))
        60000.
Proof.
  intros Hn s Hp.
  destruct (mob_timerInv_run es _ (mob_timerInv_mounted t0 u sg n) Hn)
    as (session & Hs & Hw & _).
  fold s in Hs, Hw. clearbody s. rewrite Hp in Hw.
  destruct Hw as (closedPart & Hc & tp & Hl).
  pose proof (durationMinutes_open_pause t session closedPart tp Hc Hl) as Dt.
  pose proof (durationMinutes_open_pause t' session closedPart tp Hc Hl) as Dt'.
  split.
  - cbn [step]. destruct (Nat.eqb (seconds s) 0 || isSaving s); [reflexivity|].
    unfold handleStop, savePracticeSession. rewrite Hs.
    destruct (user s); [|reflexivity].
    destruct (Nat.eqb (seconds s) 0); [reflexivity|].
    rewrite Dt, Dt'. reflexivity.
  - exists session, closedPart, tp. split; [exact Hs|]. split; [exact Hl|exact Dt].
Qed.

(** X24. MobilePracticeTimer, when the insert fails: the error is caught,
    no row is inserted, and the stop goes on: the counter is reset to zero,
    the timer is neither running nor paused and [onStop] is called, so the
    practice time of the failed save is gone. *)
Theorem practice_failed_insert_discards_session (s : State) (t : Z) :
  isSaving s = false ->
  (0 < seconds s)%nat ->
  let s' := step (PressStop t InsertError) s in
  inserted s' = inserted s /\
  seconds s' = O /\ isRunning s' = false /\ isPaused s' = false /\
  isSaving s' = false /\ stopped s' = true /\
  sessionRef s' = sessionRef s.
Proof.
  intros Hsv Hsec s'. subst s'. cbn [step]. rewrite Hsv, orb_false_r.
  destruct (Nat.eqb_spec (seconds s) 0) as [E|E]; [lia|].
  unfold handleStop, savePracticeSession.
  destruct (user s); [|cbn; rewrite Hsv; repeat split; reflexivity].
  destruct (sessionRef s) eqn:Hs; [|cbn; rewrite Hsv, Hs; repeat split; reflexivity].
  destruct (Nat.eqb_spec (seconds s) 0) as [E'|E']; [lia|].
  cbn. rewrite Hs. repeat split; reflexivity.
Qed.

End PracticeTimerRows.

(** ** The display of the elapsed time *)

Section TimeDisplayFacts.
Import TimeDisplay.

Lemma hasColon_app a b : hasColon (a +:+ b) = hasColon a || hasColon b.
Proof.
  induction a as [|c a IH]; [reflexivity|]. simpl. rewrite IH.
  by rewrite orb_assoc.
Qed.

Lemma beforeColon_app a r :
  hasColon a = false -> beforeColon (a +:+ String ":" r) = a.
Proof.
  induction a as [|c a IH]; simpl; [reflexivity|]. intros Hc.
  apply orb_false_iff in Hc as [Hc Ha]. rewrite Hc, IH by exact Ha. reflexivity.
Qed.

Lemma afterColon_app a r :
  hasColon a = false -> afterColon (a +:+ String ":" r) = r.
Proof.
  induction a as [|c a IH]; simpl; [reflexivity|]. intros Hc.
  apply orb_false_iff in Hc as [Hc Ha]. rewrite Hc. by apply IH.
Qed.

Lemma digit_not_colon x : Ascii.eqb (pretty_N_char x) ":" = false.
Proof. unfold pretty_N_char. by repeat case_match. Qed.

Lemma hasColon_pretty_N_go x s :
  hasColon (pretty_N_go x s) = hasColon s.
Proof.
  revert s. induction (N.lt_wf_0 x) as [x _ IH]; intros s.
  assert (x = 0 \/ 0 < x)%N as [->|Hx] by lia.
  - by rewrite pretty_N_go_0.
  - rewrite pretty_N_go_step by exact Hx. rewrite IH by (by apply N.div_lt).
    cbn. by rewrite digit_not_colon.
Qed.

(** A number's digits hold no colon. *)
Lemma hasColon_toString n : hasColon (toString n) = false.
Proof.
  unfold toString, pretty, pretty_nat, pretty, pretty_N.
  destruct (decide (N.of_nat n = 0%N)); [reflexivity|].
  apply hasColon_pretty_N_go.
Qed.

Lemma toString_small x : (x < 10)%nat ->
  toString x = String (pretty_N_char (N.of_nat x)) EmptyString.
Proof.
  intros Hx. unfold toString, pretty, pretty_nat, pretty, pretty_N.
  destruct (decide (N.of_nat x = 0%N)) as [E|E]; [by rewrite E|].
  rewrite pretty_N_go_step by lia.
  rewrite N.div_small, N.mod_small by lia. by rewrite pretty_N_go_0.
Qed.

Lemma toString_two x : (10 <= x < 100)%nat ->
  toString x = twoDigits x.
Proof.
  intros Hx. unfold toString, pretty, pretty_nat, pretty, pretty_N, twoDigits.
  destruct (decide (N.of_nat x = 0%N)) as [E|E]; [lia|].
  assert (Hd : (0 < N.of_nat x `div` 10 < 10)%N).
  { split; [apply N.div_str_pos; lia|].
    apply N.Div0.div_lt_upper_bound; lia. }
  rewrite pretty_N_go_step by lia.
  rewrite pretty_N_go_step by lia.
  rewrite (N.div_small (N.of_nat x `div` 10)), (N.mod_small (N.of_nat x `div` 10))
    by lia.
  rewrite pretty_N_go_0.
  rewrite !Nat2N.inj_div, !Nat2N.inj_mod. reflexivity.
Qed.

(** Below 100, padding to two places gives the two digits. *)
Lemma padStart_two x : (x < 100)%nat -> padStart 2 (toString x) = twoDigits x.
Proof.
  intros Hx. destruct (Nat.lt_ge_cases x 10) as [Hs|Hb].
  - rewrite toString_small by exact Hs. unfold padStart, twoDigits.
    rewrite Nat.div_small, Nat.mod_small by lia. reflexivity.
  - rewrite toString_two by lia. reflexivity.
Qed.

Lemma hasColon_twoDigits x : hasColon (twoDigits x) = false.
Proof. unfold twoDigits. cbn. by rewrite !digit_not_colon. Qed.

Lemma twoDigits_inj x y :
  (x < 100)%nat -> (y < 100)%nat -> twoDigits x = twoDigits y -> x = y.
Proof.
  intros Hx Hy H. unfold twoDigits in H.
  assert (Hx1 : (x / 10 < 10)%nat) by (apply Nat.Div0.div_lt_upper_bound; lia).
  assert (Hy1 : (y / 10 < 10)%nat) by (apply Nat.Div0.div_lt_upper_bound; lia).
  pose proof (Nat.mod_upper_bound x 10 ltac:(lia)) as Hx2.
  pose proof (Nat.mod_upper_bound y 10 ltac:(lia)) as Hy2.
  pose proof (Nat.div_mod_eq x 10) as Ex.
  pose proof (Nat.div_mod_eq y 10) as Ey.
  revert H Hx1 Hx2 Hy1 Hy2 Ex Ey.
  generalize (x / 10)%nat (x mod 10)%nat (y / 10)%nat (y mod 10)%nat.
  intros qx rx qy ry H Hx1 Hx2 Hy1 Hy2 Ex Ey.
  injection H as H1 H2.
  apply pretty_N_char_inj in H1; try lia.
  apply pretty_N_char_inj in H2; try lia.
Qed.

(** The fields of a time, and the string in terms of them. *)
Lemma formatTime_fields n :
  let h := (n / 3600)%nat in
  let m := ((n mod 3600) / 60)%nat in
  let s := (n mod 60)%nat in
  (m < 60)%nat /\ (s < 60)%nat /\ n = (3600 * h + 60 * m + s)%nat /\
  formatTime n
  = if (0 <? h)%nat
    then toString h +:+ String ":" (twoDigits m +:+ String ":" (twoDigits s))
    else toString m +:+ String ":" (twoDigits s).
Proof.
  intros h m s.
  assert (Hm : (m < 60)%nat).
  { subst m. apply Nat.Div0.div_lt_upper_bound.
    pose proof (Nat.mod_upper_bound n 3600 ltac:(lia)). lia. }
  assert (Hs : (s < 60)%nat) by (subst s; apply Nat.mod_upper_bound; lia).
  split; [exact Hm|]. split; [exact Hs|]. split.
  - subst h m s.
    pose proof (Nat.div_mod_eq n 3600) as E1.
    pose proof (Nat.div_mod_eq (n mod 3600) 60) as E2.
    assert (E3 : ((n mod 3600) mod 60 = n mod 60)%nat).
    { replace 3600%nat with (60 * 60)%nat by reflexivity.
      rewrite Nat.Div0.mod_mul_r.
      rewrite (Nat.mul_comm 60 ((n / 60) mod 60)), Nat.Div0.mod_add.
      apply Nat.Div0.mod_mod. }
    lia.
  - unfold formatTime. fold h m s.
    rewrite !padStart_two by lia. destruct (0 <? h)%nat; reflexivity.
Qed.

(** X25. [formatTime] shows every number of seconds differently: two
    times with the same display are the same. The minutes and seconds
    fields are below 60 and always two digits wide once an hours field, or
    for the seconds a minutes field, stands before them, so the string can
    be read back. *)
Theorem formatTime_inj (a b : nat) : formatTime a = formatTime b -> a = b.
Proof.
  destruct (formatTime_fields a) as (Ham & Has & Ea & Fa).
  destruct (formatTime_fields b) as (Hbm & Hbs & Eb & Fb).
  cbv zeta in *. rewrite Fa, Fb. clear Fa Fb.
  set (ha := (a / 3600)%nat) in *. set (ma := ((a mod 3600) / 60)%nat) in *.
  set (sa := (a mod 60)%nat) in *.
  set (hb := (b / 3600)%nat) in *. set (mb := ((b mod 3600) / 60)%nat) in *.
  set (sb := (b mod 60)%nat) in *.
  clearbody ha ma sa hb mb sb. intros H.
  pose proof (f_equal beforeColon H) as Hb.
  pose proof (f_equal afterColon H) as Ha. clear H.
  destruct (Nat.ltb_spec 0 ha) as [Hha|Hha];
    destruct (Nat.ltb_spec 0 hb) as [Hhb|Hhb];
    rewrite !beforeColon_app in Hb by apply hasColon_toString;
    rewrite !afterColon_app in Ha by apply hasColon_toString.
  - apply (inj pretty) in Hb.
    pose proof (f_equal beforeColon Ha) as Hm.
    pose proof (f_equal afterColon Ha) as Hs.
    rewrite !beforeColon_app in Hm by apply hasColon_twoDigits.
    rewrite !afterColon_app in Hs by apply hasColon_twoDigits.
    apply twoDigits_inj in Hm; [|lia|lia].
    apply twoDigits_inj in Hs; [|lia|lia]. lia.
  - apply (f_equal hasColon) in Ha.
    rewrite hasColon_app, !hasColon_twoDigits in Ha. cbn in Ha. discriminate.
  - apply (f_equal hasColon) in Ha.
    rewrite hasColon_app, !hasColon_twoDigits in Ha. cbn in Ha. discriminate.
  - apply (inj pretty) in Hb.
    apply twoDigits_inj in Ha; [|lia|lia]. lia.
Qed.

End TimeDisplayFacts.

(** ** The desktop timer *)

Section DesktopTimerFacts.
Import Session PracticeTimer.
Variable trim : string -> string.

Lemma desktop_timerInv_mounted t u sg n : timerInv u sg (mounted t u sg n).
Proof.
  eexists. split; [reflexivity|]. split; [apply wellPaused_nil|].
  repeat split; try reflexivity; try discriminate. constructor.
Qed.

Lemma desktop_savePracticeSession_facts b s u sg :
  user s = u -> song s = sg ->
  Forall (fun r => 1 <= nr_duration_minutes r /\ nr_song_id r = sg /\
                   u = Some (nr_user_id r)) (inserted s) ->
  let s' := savePracticeSession trim b s in
  sessionRef s' = sessionRef s /\ isPaused s' = isPaused s /\
  isRunning s' = isRunning s /\ seconds s' = seconds s /\
  songNotes s' = songNotes s /\ user s' = u /\ song s' = sg /\
  (isSaving s = false -> isSaving s' = false) /\
  Forall (fun r => 1 <= nr_duration_minutes r /\ nr_song_id r = sg /\
                   u = Some (nr_user_id r)) (inserted s').
Proof.
  intros Hu Hg Hf. unfold savePracticeSession.
  destruct (user s) as [usr|] eqn:Eu;
    [|cbv zeta; rewrite Eu; repeat split; trivial].
  destruct (sessionRef s) as [session|] eqn:Es;
    [|cbv zeta; rewrite Eu; repeat split; trivial].
  destruct (Nat.eqb (seconds s) 0);
    [cbv zeta; rewrite Eu; repeat split; trivial|].
  destruct b; cbv zeta; cbn; rewrite ?Eu, ?Es; repeat split; trivial.
  constructor; [|exact Hf]. cbn. repeat split; try congruence.
  unfold durationMinutes, JS.max. lia.
Qed.

Lemma desktop_timerInv_step u sg e s :
  timerInv u sg s -> timerInv u sg (step trim e s).
Proof.
  intros Hinv. pose proof Hinv as (session & Hs & Hw & Hr & He & Hsv & Hu & Hg & Hf).
  destruct e as [t|t t' b|]; cbn [step].
  - unfold handlePlayPause. destruct (isRunning s) eqn:Hrun; cbn [negb].
    + destruct (isPaused s) eqn:Hp; cbn [negb].
      * exists (closeLastPause t session). cbn. rewrite Hs. cbn.
        split; [reflexivity|]. split; [by apply wellPaused_close|].
        split; [discriminate|]. split; [rewrite Hrun; discriminate|].
        repeat split; assumption.
      * exists (pushPause t session). cbn. rewrite Hs. cbn.
        split; [reflexivity|]. split; [by apply wellPaused_push|].
        split; [intros _; exact Hrun|]. split; [rewrite Hrun; discriminate|].
        repeat split; assumption.
    + specialize (He eq_refl).
      assert (Hp : isPaused s = false).
      { destruct (isPaused s); [|reflexivity]. specialize (Hr eq_refl). congruence. }
      assert (Hsess : (if (0 <? length (pauses session))%nat
                       then closeLastPause t session else session) = session)
        by (rewrite He; reflexivity).
      exists session. cbn -[Nat.ltb]. rewrite Hs. cbn -[Nat.ltb]. rewrite Hsess.
      split; [reflexivity|]. split; [rewrite He; apply wellPaused_nil|].
      split; [discriminate|]. split; [discriminate|].
      repeat split; assumption.
  - destruct (Nat.eqb (seconds s) 0 || isSaving s); [exact Hinv|].
    unfold handleStop.
    match goal with |- context [savePracticeSession trim b ?x] =>
      destruct (desktop_savePracticeSession_facts b x u sg Hu Hg Hf)
        as (F1 & F2 & F3 & F4 & F5 & F6 & F7 & F8 & F9);
      revert F1 F2 F3 F4 F5 F6 F7 F8 F9;
      generalize (savePracticeSession trim b x) end.
    intros s1 F1 F2 F3 F4 F5 F6 F7 F8 F9.
    cbn in F1, F2, F3, F4, F5, F6, F7, F8, F9.
    eexists. cbn. split; [reflexivity|]. rewrite F2, F3.
    split; [apply wellPaused_nil|]. split; [discriminate|].
    split; [reflexivity|]. split; [exact (F8 Hsv)|].
    split; [exact F6|]. split; [exact F7|exact F9].
  - unfold tick. destruct (isRunning s && negb (isPaused s)) eqn:Hc; [|exact Hinv].
    apply andb_true_iff in Hc as [Hrun _].
    exists (set_duration (S (seconds s)) session). cbn. rewrite Hs. cbn.
    split; [reflexivity|]. split; [exact Hw|]. split; [exact Hr|].
    split; [rewrite Hrun; discriminate|]. repeat split; assumption.
Qed.

Lemma desktop_timerInv_run u sg es s :
  timerInv u sg s -> timerInv u sg (run trim es s).
Proof.
  revert s. induction es as [|e es IH]; intros s Hs; [exact Hs|].
  change (run trim (e :: es) s) with (run trim es (step trim e s)).
  apply IH. by apply desktop_timerInv_step.
Qed.

(** X26. The desktop PracticeTimer, in every state it reaches by play,
    pause, resume, stop and ticks: the pause list has at most one open
    pause, and has one exactly when the timer is paused; every row inserted
    carries the signed-in user, the song and at least one minute; and a stop
    with a positive counter, a signed-in user and an insert that the backend
    accepts inserts exactly one row, with
    [Math.max(1, Math.round(seconds / 60))] minutes taken from the tick
    counter, so that no session is too short to be saved. *)
Theorem desktop_timer_saves_at_least_a_minute (es : list Event) (t0 : Z)
    (u : option nat) (sg : nat) (n : string) :
  let s := run trim es (mounted t0 u sg n) in
  pauseInvariant (isPaused s) (pausesOf s) /\
  Forall (fun r => 1 <= nr_duration_minutes r /\ nr_song_id r = sg /\
                   u = Some (nr_user_id r)) (inserted s) /\
  forall t t' usr,
    u = Some usr -> (0 < seconds s)%nat ->
    inserted (step trim (PressStop t t' InsertOk) s)
    = mkNotedRow usr sg
        (Z.max 1 (JS.round_div (Z.of_nat (seconds s)) 60))
        (notesOrNull trim (songNotes s))
      :: inserted s /\
    seconds (step trim (PressStop t t' InsertOk) s) = O.
Proof.
  intros s.
  destruct (desktop_timerInv_run u sg es _ (desktop_timerInv_mounted t0 u sg n))
    as (session & Hs & Hw & _ & _ & Hsv & Hu & Hg & Hf).
  fold s in Hs, Hw, Hsv, Hu, Hg, Hf. clearbody s.
  split; [|split].
  - unfold pausesOf. rewrite Hs. cbn. by apply wellPaused_invariant.
  - exact Hf.
  - intros t t' usr -> Hsec. cbn [step]. rewrite Hsv, orb_false_r.
    destruct (Nat.eqb_spec (seconds s) 0) as [E|E]; [lia|].
    unfold handleStop, savePracticeSession. cbn. rewrite Hu, Hs. cbn.
    destruct (Nat.eqb_spec (seconds s) 0) as [E'|E']; [lia|].
    cbn. rewrite Hg. split; reflexivity.
Qed.

End DesktopTimerFacts.

(** ** MobileOptimizedTimer together with its metronome *)

Section TimerWithMetronomeFacts.
Import Session Metronome.

Lemma sameRender_refl cl : TimerWithMetronome.sameRender cl cl = true.
Proof.
  unfold TimerWithMetronome.sameRender. cbv zeta.
  rewrite eqb_reflx, Z.eqb_refl, Nat.eqb_refl, eqb_reflx.
  assert (Hq : Qeq_bool (volume (cl_settings cl)) (volume (cl_settings cl)) = true)
    by (apply Qeq_bool_iff; reflexivity).
  rewrite Hq. destruct (sound (cl_settings cl)); reflexivity.
Qed.

Lemma sameRender_isPlaying a b :
  TimerWithMetronome.sameRender a b = true -> cl_isPlaying a = cl_isPlaying b.
Proof.
  unfold TimerWithMetronome.sameRender. cbv zeta. intros H.
  repeat (apply andb_true_iff in H as [H _]). by apply eqb_prop.
Qed.

Lemma calm_stop w :
  calm w -> calm (stop w) /\ currentClosure (stop w) = currentClosure w /\
            played (stop w) = played w.
Proof.
  intros (H1 & H2 & H3 & H4 & H5).
  pose proof (restartsStale_stop w H4) as H4'.
  destruct (stop_fields w) as (F1 & F2 & F3 & F4 & F5 & F6 & F7 & F8 & F9).
  cbv zeta in *. revert H4' F1 F2 F3 F4 F5 F6 F7 F8 F9. generalize (stop w).
  intros ws H4' F1 F2 F3 F4 F5 F6 F7 F8 F9.
  split; [|split; [|exact F9]].
  - unfold calm. rewrite F1, F3, F4, F5, H2, H3, H5.
    repeat split; try assumption. destruct (intervalRef w); [apply delete_empty|reflexivity].
  - unfold currentClosure. rewrite F1, F8, H1. reflexivity.
Qed.

Lemma calm_fireInterval id w : intervals w = ∅ -> fireInterval id w = w.
Proof. intros He. unfold fireInterval. rewrite He, lookup_empty. reflexivity. Qed.

Lemma fireTimeout_stale id win w :
  restartsStale w ->
  let w' := fireTimeout id win w in
  isPlaying w' = isPlaying w /\ settings w' = settings w /\
  intervals w' = intervals w /\ startInProgressRef w' = startInProgressRef w /\
  awaitingResume w' = awaitingResume w /\ played w' = played w /\
  restartsStale w'.
Proof.
  intros Hr. pose proof (restartsStale_step (TimeoutFires id win) w Hr) as Hr'.
  cbn [step] in Hr'. revert Hr'. unfold fireTimeout.
  destruct (timeouts w !! id) as [[|cl]|] eqn:Hi; intros Hr'.
  - cbv zeta. repeat split; try reflexivity. exact Hr'.
  - revert Hr'.
    rewrite startCall_guarded by (rewrite (Hr id cl Hi); reflexivity).
    intros Hr'. cbv zeta. repeat split; try reflexivity. exact Hr'.
  - cbv zeta. repeat split; try reflexivity. exact Hr.
Qed.

Lemma calm_fireTimeout id win w :
  calm w ->
  calm (fireTimeout id win w) /\
  currentClosure (fireTimeout id win w) = currentClosure w /\
  played (fireTimeout id win w) = played w.
Proof.
  intros (H1 & H2 & H3 & H4 & H5).
  destruct (fireTimeout_stale id win w H4) as (F1 & F2 & F3 & F4 & F5 & F6 & F7).
  cbv zeta in *. revert F1 F2 F3 F4 F5 F6 F7. generalize (fireTimeout id win w).
  intros wf F1 F2 F3 F4 F5 F6 F7. split; [|split; [|exact F6]].
  - unfold calm. rewrite F1, F3, F4, F5. repeat split; assumption.
  - unfold currentClosure. rewrite F1, F2. reflexivity.
Qed.

(** What [start] leaves once it is past the guards and the audio context
    is there, from a world [x] that agrees with the hook at rest [w]. *)
Lemma startBody_from_calm cl x w c :
  audioContextRef x = Some c ->
  intervals x = ∅ -> awaitingResume x = [] ->
  timeouts x = timeouts w -> settings x = settings w ->
  nextTimerId x = nextTimerId w -> now x = now w -> played x = played w ->
  restartsStale w ->
  let w' := set_startInProgressRef false (startBody cl x) in
  startInProgressRef w' = false /\ awaitingResume w' = [] /\
  restartsStale w' /\ settings w' = settings w /\
  isPlaying w' = true /\
  (exists t, intervalRef w' = Some (nextTimerId w) /\
             intervals w' = {[ nextTimerId w := t ]}) /\
  played w' = (now w, beatTone (cl_settings cl) O) :: played w.
Proof.
  intros Hc Hi Ha Ht Hs Hn Hnow Hp Hr.
  destruct (startBody_fields cl x) as (t & F1 & F2 & F3 & _ & F5 & F6 & _ & F8 & _).
  destruct (startBody_facts cl x c Hc) as (_ & _ & _ & G4 & _).
  cbv zeta in *. revert F1 F2 F3 F5 F6 F8 G4. generalize (startBody cl x).
  intros wb F1 F2 F3 F5 F6 F8 G4. cbn.
  rewrite ?F1, ?F2, ?F3, ?F5, ?F8, ?G4, ?Hi, ?Ha, ?Hs, ?Hn, ?Hnow, ?Hp.
  split; [reflexivity|]. split; [reflexivity|]. split.
  { intros id cl' Hid. cbn in Hid. rewrite F6, Ht in Hid. exact (Hr id cl' Hid). }
  split; [reflexivity|]. split; [reflexivity|]. split; [|reflexivity].
  exists t. split; [reflexivity|]. apply insert_empty.
Qed.

(** [start] with its [resume()], from the hook at rest: either nothing but
    the audio context has changed, or the metronome plays, beat 0 has
    sounded and one interval is scheduled. *)
Lemma startAndSettle_calm cl win resumed w :
  calm w -> cl_isPlaying cl = false ->
  let w' := fst (startAndSettle cl win resumed w) in
  startInProgressRef w' = false /\ awaitingResume w' = [] /\
  restartsStale w' /\ settings w' = settings w /\
  ((audioFails win resumed w /\
    isPlaying w' = false /\ intervals w' = ∅ /\ played w' = played w) \/
   (~ audioFails win resumed w /\
    isPlaying w' = true /\
    (exists t, intervalRef w' = Some (nextTimerId w) /\
               intervals w' = {[ nextTimerId w := t ]}) /\
    played w' = (now w, beatTone (cl_settings cl) O) :: played w)).
Proof.
  intros (H1 & H2 & H3 & H4 & H5) Hcl. unfold startAndSettle.
  destruct (contextFor win w) as [c|] eqn:Hctx.
  - rewrite (startCall_eq cl win false w c Hcl H2 Hctx). cbv zeta.
    assert (Hok : forall c' x,
              audioContextRef x = Some c' ->
              intervals x = ∅ -> awaitingResume x = [] ->
              timeouts x = timeouts w -> settings x = settings w ->
              nextTimerId x = nextTimerId w -> now x = now w ->
              played x = played w ->
              ~ audioFails win resumed w ->
              let w' := set_startInProgressRef false (startBody cl x) in
              startInProgressRef w' = false /\ awaitingResume w' = [] /\
              restartsStale w' /\ settings w' = settings w /\
              ((audioFails win resumed w /\
                isPlaying w' = false /\ intervals w' = ∅ /\ played w' = played w) \/
               (~ audioFails win resumed w /\
                isPlaying w' = true /\
                (exists t, intervalRef w' = Some (nextTimerId w) /\
                           intervals w' = {[ nextTimerId w := t ]}) /\
                played w' = (now w, beatTone (cl_settings cl) O) :: played w))).
    { intros c' x A1 A2 A3 A4 A5 A6 A7 A8 Hna.
      destruct (startBody_from_calm cl x w c' A1 A2 A3 A4 A5 A6 A7 A8 H4)
        as (B1 & B2 & B3 & B4 & B5 & B6 & B7).
      cbv zeta in *. split; [exact B1|]. split; [exact B2|]. split; [exact B3|].
      split; [exact B4|]. right. repeat split; assumption. }
    assert (Hna : c <> suspended \/ is_Some resumed -> ~ audioFails win resumed w).
    { intros Hn [Hf|[Hf1 Hf2]]; [congruence|].
      destruct Hn as [Hn|[x Hn]]; congruence. }
    destruct c.
    + (* suspended: the call waits for resume() *)
      unfold resumeSettles. cbn -[startBody startResumed]. rewrite H3.
      cbn -[startBody startResumed].
      destruct resumed as [st|].
      * unfold startResumed, startFinally.
        match goal with |- context [startBody cl ?x] =>
          pose proof (Hok st x eq_refl H5 eq_refl eq_refl eq_refl eq_refl
                        eq_refl eq_refl (Hna (or_intror (mk_is_Some _ _ eq_refl))))
            as Hres;
          revert Hres; generalize (startBody cl x) end.
        intros wb Hres. exact Hres.
      * cbn. rewrite ?H1, ?H5. split; [reflexivity|]. split; [reflexivity|].
        split; [exact H4|]. split; [reflexivity|]. left.
        split; [right; by split|]. repeat split; reflexivity.
    + cbn -[startBody].
      assert (Hn1 : ~ audioFails win resumed w) by (apply Hna; left; discriminate).
      match goal with |- context [startBody cl ?x] =>
        pose proof (Hok running x eq_refl H5 H3 eq_refl eq_refl eq_refl
                      eq_refl eq_refl Hn1) as Hres;
        revert Hres; generalize (startBody cl x) end.
      intros wb Hres. exact Hres.
    + cbn -[startBody].
      assert (Hn1 : ~ audioFails win resumed w) by (apply Hna; left; discriminate).
      match goal with |- context [startBody cl ?x] =>
        pose proof (Hok closed x eq_refl H5 H3 eq_refl eq_refl eq_refl
                      eq_refl eq_refl Hn1) as Hres;
        revert Hres; generalize (startBody cl x) end.
      intros wb Hres. exact Hres.
  - destruct (startCall_no_context cl win false w Hcl H2 Hctx) as [e ->].
    cbn. rewrite ?H5. split; [reflexivity|]. split; [exact H3|].
    split; [exact H4|]. split; [reflexivity|]. left.
    split; [by left|]. repeat split; reflexivity.
Qed.

Lemma calm_tame w : calm w -> tame w.
Proof.
  intros (H1 & H2 & H3 & H4 & H5). unfold tame, oneInterval. rewrite H1.
  repeat split; assumption.
Qed.

Lemma tame_stopped w : tame w -> isPlaying w = false -> calm w.
Proof.
  intros (H2 & H3 & H4 & H5) H1. unfold oneInterval in H5. rewrite H1 in H5.
  repeat split; assumption.
Qed.

Lemma calm_setSettings m w : calm w -> calm (setSettings m w).
Proof. intros H. exact H. Qed.

(** The [updateSettings] of the effect, called from the current render. *)
Lemma updateSettings_tame b w :
  b <> 0 -> tame w ->
  let w' := updateSettings (currentClosure w) (TimerWithMetronome.bpmOnly b) w in
  calm w' /\ settings w' = merge (settings w) (TimerWithMetronome.bpmOnly b) /\
  played w' = played w.
Proof.
  intros Hb (H2 & H3 & H4 & H5). unfold updateSettings.
  assert (Ht : truthy_bpm (TimerWithMetronome.bpmOnly b) = true).
  { unfold truthy_bpm. cbn. destruct (Z.eqb_spec b 0); [contradiction|reflexivity]. }
  rewrite Ht. cbn [andb currentClosure cl_isPlaying].
  set (m := merge (settings w) (TimerWithMetronome.bpmOnly b)).
  destruct (isPlaying w) eqn:Hp.
  - destruct (stop_fields (setSettings m w)) as (F1 & F2 & F3 & F4 & F5 & F6 & F7 & F8 & F9).
    cbv zeta in F1, F2, F3, F4, F5, F6, F7, F8, F9.
    revert F1 F2 F3 F4 F5 F6 F7 F8 F9. generalize (stop (setSettings m w)).
    intros ws F1 F2 F3 F4 F5 F6 F7 F8 F9.
    cbn in F3, F4, F5, F6, F7, F8, F9.
    unfold oneInterval in H5. rewrite Hp in H5. destruct H5 as (id & t & Hr & Hm).
    rewrite Hr, Hm in F3.
    cbv zeta. split; [|split; [exact F8 | exact F9]].
    unfold calm. cbn. rewrite F1, F3, F4, F5, H2, H3.
    split; [reflexivity|]. split; [reflexivity|]. split; [reflexivity|].
    split; [|apply delete_singleton_eq].
    intros j cl' Hj. cbn in Hj. rewrite F6 in Hj.
    apply lookup_insert_Some in Hj as [[_ Hj]|[_ Hj]].
    + injection Hj as <-. exact Hp.
    + exact (H4 j cl' Hj).
  - cbv zeta. split; [|split; reflexivity].
    unfold oneInterval in H5. rewrite Hp in H5.
    unfold calm. cbn. rewrite Hp, H2, H3, H5. repeat split. exact H4.
Qed.

Lemma songBpm_nonzero sg b : TimerWithMetronome.songBpm sg = Some b -> b <> 0.
Proof.
  unfold TimerWithMetronome.songBpm.
  destruct (TimerWithMetronome.metronome_bpm sg) as [x|]; [|discriminate].
  destruct (Z.eqb_spec x 0); [discriminate|]. intros [= <-]. assumption.
Qed.

Lemma commit_same t c :
  TimerWithMetronome.sameRender
    (currentClosure (TimerWithMetronome.metronome c))
    (TimerWithMetronome.rendered c) = true ->
  TimerWithMetronome.commit t c = c.
Proof. intros H. unfold TimerWithMetronome.commit. rewrite H. reflexivity. Qed.

Lemma commit_diff t c :
  TimerWithMetronome.sameRender
    (currentClosure (TimerWithMetronome.metronome c))
    (TimerWithMetronome.rendered c) = false ->
  TimerWithMetronome.commit t c = TimerWithMetronome.sessionEffect t c.
Proof. intros H. unfold TimerWithMetronome.commit. rewrite H. reflexivity. Qed.

(** The effect, run in the current render of a tame hook: the hook is at
    rest afterwards, and [rendered] holds the closure the effect ran in. *)
Lemma sessionEffect_tame t c :
  tame (TimerWithMetronome.metronome c) ->
  (isPlaying (TimerWithMetronome.metronome c) = true ->
     is_Some (TimerWithMetronome.songBpm (TimerWithMetronome.song c))) ->
  let c' := TimerWithMetronome.sessionEffect t c in
  calm (TimerWithMetronome.metronome c') /\
  TimerWithMetronome.rendered c'
  = currentClosure (TimerWithMetronome.metronome c) /\
  TimerWithMetronome.song c' = TimerWithMetronome.song c /\
  TimerWithMetronome.timer c' = TimerWithMetronome.resetSession t c /\
  played (TimerWithMetronome.metronome c')
  = played (TimerWithMetronome.metronome c) /\
  settings (TimerWithMetronome.metronome c')
  = match TimerWithMetronome.songBpm (TimerWithMetronome.song c) with
    | Some b => merge (settings (TimerWithMetronome.metronome c))
                  (TimerWithMetronome.bpmOnly b)
    | None => settings (TimerWithMetronome.metronome c)
    end.
Proof.
  destruct c as [tm w sg rd]. cbn [TimerWithMetronome.metronome
    TimerWithMetronome.rendered TimerWithMetronome.song]. intros Ht Hsong.
  unfold TimerWithMetronome.sessionEffect.
  cbn [TimerWithMetronome.metronome TimerWithMetronome.song
       TimerWithMetronome.timer].
  destruct (TimerWithMetronome.songBpm sg) as [b|] eqn:Hb.
  - pose proof (songBpm_nonzero sg b Hb) as Hb0.
    destruct (updateSettings_tame b w Hb0 Ht) as (C1 & C2 & C3).
    cbv zeta in C1, C2, C3. revert C1 C2 C3.
    generalize (updateSettings (currentClosure w) (TimerWithMetronome.bpmOnly b) w).
    intros w1 C1 C2 C3. cbv zeta. cbn.
    split; [exact C1|]. split; [reflexivity|]. split; [reflexivity|].
    split; [reflexivity|]. split; [exact C3 | exact C2].
  - assert (Hp : isPlaying w = false).
    { destruct (isPlaying w); [|reflexivity].
      destruct (Hsong eq_refl) as [x Hx]. discriminate. }
    cbv zeta. cbn. split; [by apply tame_stopped|]. repeat split; reflexivity.
Qed.

Lemma merge_bpmOnly_twice s b :
  merge (merge s (TimerWithMetronome.bpmOnly b)) (TimerWithMetronome.bpmOnly b)
  = merge s (TimerWithMetronome.bpmOnly b).
Proof. reflexivity. Qed.

(** The renders after a handler: they leave the hook at rest, and the
    timer as it was unless the effect has run. *)
Lemma settle_tame t c :
  tame (TimerWithMetronome.metronome c) ->
  cl_isPlaying (TimerWithMetronome.rendered c) = false ->
  (isPlaying (TimerWithMetronome.metronome c) = true ->
     is_Some (TimerWithMetronome.songBpm (TimerWithMetronome.song c))) ->
  let c' := TimerWithMetronome.settle t c in
  TimerWithMetronome.quiet c' /\
  TimerWithMetronome.song c' = TimerWithMetronome.song c /\
  played (TimerWithMetronome.metronome c') = played (TimerWithMetronome.metronome c) /\
  (if TimerWithMetronome.sameRender
        (currentClosure (TimerWithMetronome.metronome c))
        (TimerWithMetronome.rendered c)
   then c' = c
   else TimerWithMetronome.timer c' = TimerWithMetronome.resetSession t c).
Proof.
  intros Ht Hrd Hsong. cbv zeta. unfold TimerWithMetronome.settle.
  destruct (TimerWithMetronome.sameRender
              (currentClosure (TimerWithMetronome.metronome c))
              (TimerWithMetronome.rendered c)) eqn:Hsame.
  - (* no new function: no effect *)
    rewrite !(commit_same t c Hsame).
    assert (Hp : isPlaying (TimerWithMetronome.metronome c) = false).
    { apply sameRender_isPlaying in Hsame. cbn in Hsame. congruence. }
    split; [|split; [reflexivity|split; reflexivity]].
    split; [exact Hsame | by apply tame_stopped].
  - (* the effect runs *)
    rewrite (commit_diff t c Hsame).
    destruct (sessionEffect_tame t c Ht Hsong) as (A1 & A2 & A3 & A4 & A5 & A6).
    cbv zeta in A1, A2, A3, A4, A5, A6.
    revert A1 A2 A3 A4 A5 A6. generalize (TimerWithMetronome.sessionEffect t c).
    intros c1 A1 A2 A3 A4 A5 A6.
    destruct (TimerWithMetronome.sameRender
                (currentClosure (TimerWithMetronome.metronome c1))
                (TimerWithMetronome.rendered c1)) eqn:Hsame1.
    + rewrite !(commit_same t c1 Hsame1).
      split; [split; assumption|]. split; [exact A3|]. split; assumption.
    + rewrite (commit_diff t c1 Hsame1).
      assert (Hsong1 : isPlaying (TimerWithMetronome.metronome c1) = true ->
                is_Some (TimerWithMetronome.songBpm (TimerWithMetronome.song c1))).
      { destruct A1 as (A1 & _). rewrite A1. discriminate. }
      destruct (sessionEffect_tame t c1 (calm_tame _ A1) Hsong1)
        as (B1 & B2 & B3 & B4 & B5 & B6).
      cbv zeta in B1, B2, B3, B4, B5, B6.
      assert (E : currentClosure
                    (TimerWithMetronome.metronome
                       (TimerWithMetronome.sessionEffect t c1))
                  = TimerWithMetronome.rendered
                      (TimerWithMetronome.sessionEffect t c1)).
      { rewrite B2. unfold currentClosure. f_equal.
        - destruct B1 as (B1 & _). destruct A1 as (A1 & _). congruence.
        - rewrite B6, A3, A6.
          destruct (TimerWithMetronome.songBpm (TimerWithMetronome.song c));
            reflexivity. }
      assert (Htm : TimerWithMetronome.timer (TimerWithMetronome.sessionEffect t c1)
                    = TimerWithMetronome.resetSession t c).
      { rewrite B4. unfold TimerWithMetronome.resetSession. rewrite A4, A3.
        reflexivity. }
      revert B1 B3 B5 E Htm. generalize (TimerWithMetronome.sessionEffect t c1).
      intros c2 B1 B3 B5 E Htm.
      rewrite commit_same by (rewrite E; apply sameRender_refl).
      split; [split; [rewrite E; apply sameRender_refl | exact B1]|].
      split; [congruence|]. split; [congruence | exact Htm].
Qed.

End TimerWithMetronomeFacts.

Section TimerWithMetronomeRuns.
Import Session Metronome.

Lemma quiet_rendered c :
  TimerWithMetronome.quiet c ->
  cl_isPlaying (TimerWithMetronome.rendered c) = false.
Proof.
  intros [Hs (Hp & _)]. apply sameRender_isPlaying in Hs. cbn in Hs. congruence.
Qed.

(** A handler other than the metronome button leaves the hook at rest, in
    the same render. *)
Lemma handle_quiet e c :
  TimerWithMetronome.quiet c ->
  (forall win resumed, e <> TimerWithMetronome.MetronomeClick win resumed) ->
  let c' := TimerWithMetronome.handle e c in
  TimerWithMetronome.quiet c' /\
  TimerWithMetronome.song c' = TimerWithMetronome.song c /\
  played (TimerWithMetronome.metronome c') = played (TimerWithMetronome.metronome c) /\
  TimerWithMetronome.timer c'
  = match e with
    | TimerWithMetronome.TimerEvent e =>
        MobileOptimizedTimer.step e (TimerWithMetronome.timer c)
    | _ => TimerWithMetronome.timer c
    end.
Proof.
  intros [Hs Hc] Hne. destruct e as [e|win resumed|id|id win]; cbn.
  - destruct (TimerWithMetronome.callsStop e (TimerWithMetronome.timer c)).
    + destruct (calm_stop _ Hc) as (S1 & S2 & S3).
      split; [split; [cbn; rewrite S2; exact Hs | exact S1]|].
      split; [reflexivity|]. split; [exact S3 | reflexivity].
    + repeat split; try assumption; apply Hc.
  - exfalso. by apply (Hne win resumed).
  - destruct Hc as (H1 & H2 & H3 & H4 & H5).
    rewrite (calm_fireInterval id _ H5).
    split; [split; [exact Hs | repeat split; assumption]|].
    repeat split; reflexivity.
  - destruct (calm_fireTimeout id win _ Hc) as (S1 & S2 & S3).
    split; [split; [cbn; rewrite S2; exact Hs | exact S1]|].
    split; [reflexivity|]. split; [exact S3 | reflexivity].
Qed.

(** The metronome button, from the hook at rest: [start] either fails and
    changes nothing that is seen, or leaves the metronome playing with beat
    0 sounded. *)
Lemma metronomeClick_tame win resumed c :
  TimerWithMetronome.quiet c ->
  let w := TimerWithMetronome.metronome c in
  let c' := TimerWithMetronome.metronomeClick win resumed c in
  let w' := TimerWithMetronome.metronome c' in
  tame w' /\
  TimerWithMetronome.song c' = TimerWithMetronome.song c /\
  TimerWithMetronome.rendered c' = TimerWithMetronome.rendered c /\
  TimerWithMetronome.timer c' = TimerWithMetronome.timer c /\
  settings w' = settings w /\
  (isPlaying w' = true ->
     is_Some (TimerWithMetronome.songBpm (TimerWithMetronome.song c))) /\
  (is_Some (TimerWithMetronome.songBpm (TimerWithMetronome.song c)) ->
   ~ audioFails win resumed w ->
   isPlaying w' = true /\
   played w' = (now w, beatTone (cl_settings (TimerWithMetronome.rendered c)) O)
               :: played w) /\
  (isPlaying w' = false -> played w' = played w).
Proof.
  intros Hq. pose proof (quiet_rendered c Hq) as Hrd. destruct Hq as [Hs Hc].
  cbv zeta. unfold TimerWithMetronome.metronomeClick.
  destruct (TimerWithMetronome.songBpm (TimerWithMetronome.song c)) as [b|] eqn:Hb.
  - rewrite Hrd.
    destruct (startAndSettle_calm (TimerWithMetronome.rendered c) win resumed
                (TimerWithMetronome.metronome c) Hc Hrd)
      as (A1 & A2 & A3 & A4 & A5).
    cbv zeta in A1, A2, A3, A4, A5. revert A1 A2 A3 A4 A5.
    generalize (fst (startAndSettle (TimerWithMetronome.rendered c) win resumed
                       (TimerWithMetronome.metronome c))).
    intros w1 A1 A2 A3 A4 A5. cbn.
    assert (Ht : tame w1).
    { unfold tame, oneInterval. split; [exact A1|]. split; [exact A2|].
      split; [exact A3|].
      destruct A5 as [(_ & -> & Hi & _)|(_ & -> & (t & Hr & Hi) & _)];
        [exact Hi | by exists (nextTimerId (TimerWithMetronome.metronome c)), t]. }
    split; [exact Ht|]. split; [reflexivity|]. split; [reflexivity|].
    split; [reflexivity|]. split; [exact A4|]. split; [intros _; by eexists|].
    split.
    + intros _ Hna. destruct A5 as [(Hf & _)|(_ & Hp & _ & Hpl)];
        [contradiction|by split].
    + intros Hp. destruct A5 as [(_ & _ & _ & Hpl)|(_ & Hp' & _)];
        [exact Hpl | congruence].
  - split; [by apply calm_tame|]. split; [reflexivity|]. split; [reflexivity|].
    split; [reflexivity|]. split; [reflexivity|]. split; [|split].
    + destruct Hc as (Hp & _). rewrite Hp. discriminate.
    + intros [x Hx]. discriminate.
    + reflexivity.
Qed.

(** One event with its renders keeps the component quiet. *)
Lemma quiet_step te c :
  TimerWithMetronome.quiet c ->
  TimerWithMetronome.quiet (TimerWithMetronome.step te c) /\
  TimerWithMetronome.song (TimerWithMetronome.step te c) = TimerWithMetronome.song c.
Proof.
  intros Hq. pose proof (quiet_rendered c Hq) as Hrd.
  destruct te as [t e]. unfold TimerWithMetronome.step. cbn [fst snd].
  assert (Hcases : (exists win resumed,
                      e = TimerWithMetronome.MetronomeClick win resumed)
                   \/ forall win resumed,
                        e <> TimerWithMetronome.MetronomeClick win resumed).
  { destruct e; try (right; discriminate). left. by eexists _, _. }
  destruct Hcases as [(win & resumed & ->)|Hne].
  - cbn [TimerWithMetronome.handle].
    destruct (metronomeClick_tame win resumed c Hq)
      as (A1 & A2 & A3 & A4 & A5 & A6 & _).
    cbv zeta in A1, A2, A3, A4, A5, A6. revert A1 A2 A3 A4 A5 A6.
    generalize (TimerWithMetronome.metronomeClick win resumed c).
    intros c1 A1 A2 A3 A4 A5 A6.
    destruct (settle_tame t c1 A1 ltac:(rewrite A3; exact Hrd)
                ltac:(rewrite A2; exact A6)) as (B1 & B2 & _).
    split; [exact B1 | congruence].
  - destruct (handle_quiet e c Hq Hne) as (A1 & A2 & _).
    cbv zeta in A1, A2. revert A1 A2. generalize (TimerWithMetronome.handle e c).
    intros c1 A1 A2. destruct A1 as [As Ac].
    unfold TimerWithMetronome.settle. rewrite !(commit_same t c1 As).
    split; [by split | exact A2].
Qed.

Lemma quiet_run es c :
  TimerWithMetronome.quiet c ->
  TimerWithMetronome.quiet (TimerWithMetronome.run es c) /\
  TimerWithMetronome.song (TimerWithMetronome.run es c) = TimerWithMetronome.song c.
Proof.
  revert c. induction es as [|te es IH]; intros c Hq; [by split|].
  change (TimerWithMetronome.run (te :: es) c) with (TimerWithMetronome.run es (TimerWithMetronome.step te c)).
  destruct (quiet_step te c Hq) as [Hq' Hs'].
  destruct (IH _ Hq') as [I1 I2]. split; [exact I1 | congruence].
Qed.

Lemma calm_mounted st : calm (Metronome.mounted st).
Proof.
  repeat split; try reflexivity. apply restartsStale_mounted.
Qed.

Lemma quiet_mounted t u songId sg st :
  TimerWithMetronome.quiet (TimerWithMetronome.mounted t u songId sg st) /\
  TimerWithMetronome.song (TimerWithMetronome.mounted t u songId sg st) = sg.
Proof.
  unfold TimerWithMetronome.mounted.
  set (c0 := TimerWithMetronome.mkComponent
               (MobileOptimizedTimer.mounted t u songId
                  (TimerWithMetronome.song_notes sg))
               (Metronome.mounted st) sg
               (currentClosure (Metronome.mounted st))).
  destruct (sessionEffect_tame t c0 (calm_tame _ (calm_mounted st))
              ltac:(discriminate)) as (A1 & A2 & A3 & _).
  cbv zeta in A1, A2, A3. revert A1 A2 A3.
  generalize (TimerWithMetronome.sessionEffect t c0). intros c1 A1 A2 A3.
  destruct (settle_tame t c1 (calm_tame _ A1) ltac:(rewrite A2; reflexivity)
              ltac:(destruct A1 as (-> & _); discriminate)) as (B1 & B2 & _).
  split; [exact B1|]. rewrite B2, A3. reflexivity.
Qed.

(** X27. MobileOptimizedTimer with its metronome: in every state the
    component reaches, once the renders that follow an event have run, the
    metronome is stopped and no interval is scheduled. The metronome button
    (which exists only for a song with a bpm) does start the metronome, and
    beat 0 sounds; but the render that follows gives the first effect a new
    [updateSettings], the effect calls it with the song's bpm while
    [isPlaying] is true, and that stops the metronome for good. *)
Theorem metronome_never_keeps_playing (es : list (Z * TimerWithMetronome.Event))
    (t : Z) (u : option nat) (songId : nat) (sg : TimerWithMetronome.Song)
    (st : option ContextState) :
  let c := TimerWithMetronome.run es (TimerWithMetronome.mounted t u songId sg st) in
  let w := TimerWithMetronome.metronome c in
  isPlaying w = false /\ intervals w = ∅ /\ awaitingResume w = [] /\
  TimerWithMetronome.sameRender (currentClosure w)
    (TimerWithMetronome.rendered c) = true /\
  forall t' win resumed,
    let c' := TimerWithMetronome.step (t', TimerWithMetronome.MetronomeClick win resumed) c in
    let w' := TimerWithMetronome.metronome c' in
    isPlaying w' = false /\ intervals w' = ∅ /\
    (is_Some (TimerWithMetronome.songBpm sg) -> ~ audioFails win resumed w ->
     played w' = (now w, beatTone (cl_settings (TimerWithMetronome.rendered c)) O)
                 :: played w).
Proof.
  intros c w.
  destruct (quiet_mounted t u songId sg st) as [Hq0 Hs0].
  destruct (quiet_run es _ Hq0) as [Hq Hs]. fold c in Hq, Hs. rewrite Hs0 in Hs.
  subst w. clearbody c.
  pose proof Hq as [Hsame (H1 & H2 & H3 & H4 & H5)].
  split; [exact H1|]. split; [exact H5|]. split; [exact H3|]. split; [exact Hsame|].
  intros t' win resumed. cbv zeta.
  destruct (quiet_step (t', TimerWithMetronome.MetronomeClick win resumed) c Hq)
    as [(_ & G1 & _ & _ & _ & G5) _].
  split; [exact G1|]. split; [exact G5|]. intros Hb Hna.
  unfold TimerWithMetronome.step. cbn [fst snd TimerWithMetronome.handle].
  destruct (metronomeClick_tame win resumed c Hq)
    as (A1 & A2 & A3 & A4 & A5 & A6 & A7 & _).
  cbv zeta in A1, A2, A3, A4, A5, A6, A7. rewrite Hs in A7.
  destruct (A7 Hb Hna) as [_ Hpl]. revert A1 A2 A3 A6 Hpl.
  generalize (TimerWithMetronome.metronomeClick win resumed c).
  intros c1 A1 A2 A3 A6 Hpl.
  destruct (settle_tame t' c1 A1 ltac:(rewrite A3; by apply quiet_rendered)
              ltac:(rewrite A2; exact A6)) as (_ & _ & B3 & _).
  cbv zeta in B3. rewrite B3. exact Hpl.
Qed.

End TimerWithMetronomeRuns.

Section TimerUnderTheMetronome.
Import Session Metronome.

Lemma savePracticeSession_flags b s :
  MobileOptimizedTimer.isSaving s = false ->
  let s' := MobileOptimizedTimer.savePracticeSession b s in
  MobileOptimizedTimer.isSaving s' = false /\
  MobileOptimizedTimer.isPaused s' = MobileOptimizedTimer.isPaused s /\
  MobileOptimizedTimer.isRunning s' = MobileOptimizedTimer.isRunning s /\
  MobileOptimizedTimer.intervalRef s' = MobileOptimizedTimer.intervalRef s /\
  MobileOptimizedTimer.songNotes s' = MobileOptimizedTimer.songNotes s.
Proof.
  intros Hs. unfold MobileOptimizedTimer.savePracticeSession.
  destruct (MobileOptimizedTimer.user s) as [u|];
    [|cbv zeta; repeat split; try reflexivity; exact Hs].
  destruct (MobileOptimizedTimer.sessionRef s) as [session|];
    [|cbv zeta; repeat split; try reflexivity; exact Hs].
  cbv zeta. destruct (0 <? MobileOptimizedTimer.durationMinutes session);
    [destruct b|]; repeat split; reflexivity.
Qed.

Lemma steady_step e s :
  MobileOptimizedTimer.steady s ->
  MobileOptimizedTimer.steady (MobileOptimizedTimer.step e s).
Proof.
  intros (H1 & H2 & H3). split; [by apply ticksWhileRunning_step|].
  destruct e as [t|t|t t' b|]; cbn [MobileOptimizedTimer.step].
  - destruct (MobileOptimizedTimer.isRunning s) eqn:Hr; [by rewrite Hr|].
    unfold MobileOptimizedTimer.handleStart.
    destruct (MobileOptimizedTimer.isPaused s) eqn:Hp; cbn; rewrite ?Hp;
      (split; [discriminate|exact H3]).
  - destruct (MobileOptimizedTimer.isRunning s) eqn:Hr; [|by rewrite Hr].
    cbn. split; [reflexivity|exact H3].
  - unfold MobileOptimizedTimer.handleStop.
    destruct (Nat.eqb (MobileOptimizedTimer.time s) 0
              || MobileOptimizedTimer.isSaving s); [by split|].
    cbv zeta.
    match goal with |- context [MobileOptimizedTimer.savePracticeSession b ?x] =>
      destruct (savePracticeSession_flags b x H3) as (F1 & F2 & F3 & _);
      revert F1 F2 F3;
      generalize (MobileOptimizedTimer.savePracticeSession b x)
    end.
    intros s1 F1 F2 F3. cbn in F1, F2, F3. cbn. rewrite F1, F3. by split.
  - unfold MobileOptimizedTimer.tick.
    destruct (MobileOptimizedTimer.intervalRef s); [cbn|]; by split.
Qed.

Lemma steady_resetSession t c :
  MobileOptimizedTimer.steady (TimerWithMetronome.timer c) ->
  MobileOptimizedTimer.steady (TimerWithMetronome.resetSession t c).
Proof. intros H. exact H. Qed.

(** What one event with its renders does to the timer: the handler's own
    work, and then perhaps the first effect. *)
Lemma timer_step te c :
  TimerWithMetronome.quiet c ->
  let tm := match snd te with
            | TimerWithMetronome.TimerEvent e =>
                MobileOptimizedTimer.step e (TimerWithMetronome.timer c)
            | _ => TimerWithMetronome.timer c
            end in
  let c' := TimerWithMetronome.step te c in
  TimerWithMetronome.timer c' = tm \/
  TimerWithMetronome.timer c'
  = MobileOptimizedTimer.set_sessionRef (Some (freshSession (fst te) EmptyString))
      (MobileOptimizedTimer.setSongNotes
         (TimerWithMetronome.song_notes (TimerWithMetronome.song c)) tm).
Proof.
  intros Hq. pose proof (quiet_rendered c Hq) as Hrd.
  destruct te as [t e]. unfold TimerWithMetronome.step. cbn [fst snd].
  assert (Hcases : (exists win resumed,
                      e = TimerWithMetronome.MetronomeClick win resumed)
                   \/ forall win resumed,
                        e <> TimerWithMetronome.MetronomeClick win resumed).
  { destruct e; try (right; discriminate). left. by eexists _, _. }
  destruct Hcases as [(win & resumed & ->)|Hne].
  - cbn [TimerWithMetronome.handle].
    destruct (metronomeClick_tame win resumed c Hq)
      as (A1 & A2 & A3 & A4 & A5 & A6 & _).
    cbv zeta in A1, A2, A3, A4, A5, A6. revert A1 A2 A3 A4 A5 A6.
    generalize (TimerWithMetronome.metronomeClick win resumed c).
    intros c1 A1 A2 A3 A4 A5 A6.
    destruct (settle_tame t c1 A1 ltac:(rewrite A3; exact Hrd)
                ltac:(rewrite A2; exact A6)) as (_ & _ & _ & B4).
    cbv zeta in B4. cbv zeta.
    destruct (TimerWithMetronome.sameRender _ _).
    + left. rewrite B4. exact A4.
    + right. rewrite B4. unfold TimerWithMetronome.resetSession.
      rewrite A2, A4. reflexivity.
  - destruct (handle_quiet e c Hq Hne) as (A1 & A2 & _ & A4).
    cbv zeta in A1, A2, A4. revert A1 A2 A4.
    generalize (TimerWithMetronome.handle e c).
    intros c1 A1 A2 A4. destruct A1 as [As Ac].
    unfold TimerWithMetronome.settle. rewrite !(commit_same t c1 As).
    left. cbv zeta. rewrite A4. destruct e; reflexivity.
Qed.

Lemma steady_timer_step te c :
  TimerWithMetronome.quiet c ->
  MobileOptimizedTimer.steady (TimerWithMetronome.timer c) ->
  MobileOptimizedTimer.steady
    (TimerWithMetronome.timer (TimerWithMetronome.step te c)).
Proof.
  intros Hq Hs.
  assert (Htm : MobileOptimizedTimer.steady
                  match snd te with
                  | TimerWithMetronome.TimerEvent e =>
                      MobileOptimizedTimer.step e (TimerWithMetronome.timer c)
                  | _ => TimerWithMetronome.timer c
                  end).
  { destruct (snd te); try exact Hs. by apply steady_step. }
  destruct (timer_step te c Hq) as [-> | ->]; exact Htm.
Qed.

Lemma steady_timer_run es c :
  TimerWithMetronome.quiet c ->
  MobileOptimizedTimer.steady (TimerWithMetronome.timer c) ->
  MobileOptimizedTimer.steady
    (TimerWithMetronome.timer (TimerWithMetronome.run es c)).
Proof.
  revert c. induction es as [|te es IH]; intros c Hq Hs; [exact Hs|].
  change (TimerWithMetronome.run (te :: es) c)
    with (TimerWithMetronome.run es (TimerWithMetronome.step te c)).
  apply IH; [by apply quiet_step | by apply steady_timer_step].
Qed.

Lemma steady_timer_mounted t u songId sg st :
  MobileOptimizedTimer.steady
    (TimerWithMetronome.timer (TimerWithMetronome.mounted t u songId sg st)).
Proof.
  unfold TimerWithMetronome.mounted.
  set (c0 := TimerWithMetronome.mkComponent
               (MobileOptimizedTimer.mounted t u songId
                  (TimerWithMetronome.song_notes sg))
               (Metronome.mounted st) sg
               (currentClosure (Metronome.mounted st))).
  assert (H0 : MobileOptimizedTimer.steady
                 (TimerWithMetronome.timer (TimerWithMetronome.sessionEffect t c0))).
  { split; [reflexivity|]. split; [discriminate|reflexivity]. }
  destruct (sessionEffect_tame t c0 (calm_tame _ (calm_mounted st))
              ltac:(discriminate)) as (A1 & A2 & A3 & _).
  cbv zeta in A1, A2, A3. revert H0 A1 A2 A3.
  generalize (TimerWithMetronome.sessionEffect t c0). intros c1 H0 A1 A2 A3.
  destruct (settle_tame t c1 (calm_tame _ A1) ltac:(rewrite A2; reflexivity)
              ltac:(destruct A1 as (-> & _); discriminate)) as (_ & _ & _ & B4).
  cbv zeta in B4. destruct (TimerWithMetronome.sameRender _ _).
  - rewrite B4. exact H0.
  - rewrite B4. exact H0.
Qed.

(** A tick that finds no interval changes nothing. *)
Lemma idle_ticks ts c :
  TimerWithMetronome.quiet c ->
  MobileOptimizedTimer.intervalRef (TimerWithMetronome.timer c) = None ->
  TimerWithMetronome.run
    (map (fun t => (t, TimerWithMetronome.TimerEvent MobileOptimizedTimer.Tick)) ts) c
  = c.
Proof.
  intros [Hs Hc] Hi. induction ts as [|t ts IH]; [reflexivity|].
  cbn [map]. 
  change (TimerWithMetronome.run (?te :: ?es) c)
    with (TimerWithMetronome.run es (TimerWithMetronome.step te c)).
  assert (Hstep : TimerWithMetronome.step
                    (t, TimerWithMetronome.TimerEvent MobileOptimizedTimer.Tick) c
                  = c).
  { unfold TimerWithMetronome.step. cbn [fst snd TimerWithMetronome.handle
      TimerWithMetronome.callsStop MobileOptimizedTimer.step].
    unfold MobileOptimizedTimer.tick. rewrite Hi.
    assert (Hc0 : TimerWithMetronome.mkComponent (TimerWithMetronome.timer c)
                    (TimerWithMetronome.metronome c) (TimerWithMetronome.song c)
                    (TimerWithMetronome.rendered c) = c) by (destruct c; reflexivity).
    rewrite Hc0. unfold TimerWithMetronome.settle.
    rewrite !(commit_same t c Hs). reflexivity. }
  rewrite Hstep. exact IH.
Qed.

(** X28. MobileOptimizedTimer with its metronome: starting the metronome
    while the timer is paused throws the practice session away. The click
    starts the metronome, the render that follows runs the first effect
    again, and the effect replaces [sessionRef.current] by an empty session
    and the notes field by the song's notes. The counter on the screen keeps
    its value, so the stop button stays enabled; but a stop pressed then,
    after any number of seconds, stores no row whatever the backend answers,
    because the session's duration is 0. *)
Theorem metronome_click_while_paused_loses_the_session
    (es : list (Z * TimerWithMetronome.Event)) (t0 : Z) (u : option nat)
    (songId : nat) (sg : TimerWithMetronome.Song) (st : option ContextState)
    (t1 : Z) (win : Window) (resumed : option ContextState)
    (ts : list Z) (t2 t3 t4 : Z) (b : Backend) :
  let c := TimerWithMetronome.run es
             (TimerWithMetronome.mounted t0 u songId sg st) in
  MobileOptimizedTimer.isPaused (TimerWithMetronome.timer c) = true ->
  is_Some (TimerWithMetronome.songBpm sg) ->
  ~ audioFails win resumed (TimerWithMetronome.metronome c) ->
  let c1 := TimerWithMetronome.step
              (t1, TimerWithMetronome.MetronomeClick win resumed) c in
  let c2 := TimerWithMetronome.run
              (map (fun t => (t, TimerWithMetronome.TimerEvent
                                   MobileOptimizedTimer.Tick)) ts) c1 in
  let c3 := TimerWithMetronome.step
              (t2, TimerWithMetronome.TimerEvent
                     (MobileOptimizedTimer.PressStop t3 t4 b)) c2 in
  MobileOptimizedTimer.sessionRef (TimerWithMetronome.timer c1)
  = Some (freshSession t1 EmptyString) /\
  MobileOptimizedTimer.songNotes (TimerWithMetronome.timer c1)
  = TimerWithMetronome.song_notes sg /\
  MobileOptimizedTimer.time (TimerWithMetronome.timer c1)
  = MobileOptimizedTimer.time (TimerWithMetronome.timer c) /\
  MobileOptimizedTimer.isPaused (TimerWithMetronome.timer c1) = true /\
  c2 = c1 /\
  MobileOptimizedTimer.inserted (TimerWithMetronome.timer c3)
  = MobileOptimizedTimer.inserted (TimerWithMetronome.timer c) /\
  MobileOptimizedTimer.time (TimerWithMetronome.timer c3) = O /\
  MobileOptimizedTimer.isPaused (TimerWithMetronome.timer c3)
  = Nat.eqb (MobileOptimizedTimer.time (TimerWithMetronome.timer c)) 0.
Proof.
  intros c Hp Hb Hna.
  destruct (quiet_mounted t0 u songId sg st) as [Hq0 Hs0].
  pose proof (steady_timer_run es _ Hq0 (steady_timer_mounted t0 u songId sg st))
    as Hst.
  destruct (quiet_run es _ Hq0) as [Hq Hs]. fold c in Hq, Hs, Hst.
  rewrite Hs0 in Hs. clearbody c.
  (* the click *)
  assert (Hc1 : TimerWithMetronome.quiet
                  (TimerWithMetronome.step
                     (t1, TimerWithMetronome.MetronomeClick win resumed) c) /\
                TimerWithMetronome.timer
                  (TimerWithMetronome.step
                     (t1, TimerWithMetronome.MetronomeClick win resumed) c)
                = TimerWithMetronome.resetSession t1 c).
  { split; [by apply quiet_step|].
    unfold TimerWithMetronome.step. cbn [fst snd TimerWithMetronome.handle].
    destruct (metronomeClick_tame win resumed c Hq)
      as (A1 & A2 & A3 & A4 & A5 & A6 & A7 & _).
    cbv zeta in A1, A2, A3, A4, A5, A6, A7. rewrite Hs in A7.
    destruct (A7 Hb Hna) as [Hpl _]. revert A1 A2 A3 A4 A6 Hpl.
    generalize (TimerWithMetronome.metronomeClick win resumed c).
    intros c1 A1 A2 A3 A4 A6 Hpl.
    destruct (settle_tame t1 c1 A1 ltac:(rewrite A3; by apply quiet_rendered)
                ltac:(rewrite A2; exact A6)) as (_ & _ & _ & B4).
    cbv zeta in B4.
    assert (Hd : TimerWithMetronome.sameRender
                   (currentClosure (TimerWithMetronome.metronome c1))
                   (TimerWithMetronome.rendered c1) = false).
    { destruct (TimerWithMetronome.sameRender _ _) eqn:E; [|reflexivity].
      apply sameRender_isPlaying in E. cbn in E. rewrite Hpl, A3 in E.
      rewrite (quiet_rendered c Hq) in E. discriminate. }
    rewrite Hd in B4. rewrite B4. unfold TimerWithMetronome.resetSession.
    rewrite A2, A4. reflexivity. }
  cbv zeta. destruct Hc1 as [Hq1 Ht1]. revert Hq1 Ht1.
  generalize (TimerWithMetronome.step
                (t1, TimerWithMetronome.MetronomeClick win resumed) c).
  intros c1 Hq1 Ht1.
  destruct Hst as (S1 & S2 & S3). pose proof (S2 Hp) as Hr.
  unfold MobileOptimizedTimer.ticksWhileRunning in S1. rewrite Hr in S1.
  assert (Hi1 : MobileOptimizedTimer.intervalRef (TimerWithMetronome.timer c1) = None)
    by (rewrite Ht1; exact S1).
  rewrite (idle_ticks ts c1 Hq1 Hi1).
  split; [rewrite Ht1; reflexivity|]. split; [rewrite Ht1; unfold TimerWithMetronome.resetSession; cbn; rewrite Hs;
          reflexivity|].
  split; [rewrite Ht1; reflexivity|]. split; [rewrite Ht1; exact Hp|].
  split; [reflexivity|].
  (* the stop *)
  assert (Hne : forall win resumed,
             TimerWithMetronome.TimerEvent (MobileOptimizedTimer.PressStop t3 t4 b)
             <> TimerWithMetronome.MetronomeClick win resumed) by discriminate.
  destruct (timer_step
              (t2, TimerWithMetronome.TimerEvent
                     (MobileOptimizedTimer.PressStop t3 t4 b)) c1 Hq1) as [E|E];
    cbn [fst snd] in E; rewrite E; clear E; rewrite Ht1;
    unfold TimerWithMetronome.resetSession;
    cbn [MobileOptimizedTimer.step]; unfold MobileOptimizedTimer.handleStop;
    cbn [MobileOptimizedTimer.time MobileOptimizedTimer.isSaving
         MobileOptimizedTimer.set_sessionRef MobileOptimizedTimer.setSongNotes];
    rewrite S3, orb_false_r;
    destruct (Nat.eqb (MobileOptimizedTimer.time (TimerWithMetronome.timer c)) 0)
      eqn:Hz;
    try (apply Nat.eqb_eq in Hz);
    unfold MobileOptimizedTimer.savePracticeSession;
    cbn; destruct (MobileOptimizedTimer.user (TimerWithMetronome.timer c));
    cbn; repeat split; try reflexivity; try assumption.
Qed.

End TimerUnderTheMetronome.

(** ** The minutes that are persisted *)

Section PersistedDuration.
Import Session Metronome.











End PersistedDuration.

(** ** The theorems at concrete states *)

Section MetronomeWitnesses.
Import Metronome.

(** X3 at the hook that plays at 120 bpm: after [updateSettings({ bpm: 90 })]
    and the restart timeout, the metronome is stopped. *)
Lemma bpm_change_stops_the_metronome_witness :
  cl_isPlaying (currentClosure Examples.playing) = true /\
  truthy_bpm Examples.slower = true /\
  isPlaying
    (fireTimeout (nextTimerId Examples.playing) NoWindow
       (updateSettings (currentClosure Examples.playing) Examples.slower
          Examples.playing)) = false.
Proof.
  split; [reflexivity|]. split; [reflexivity|].
  exact (proj1 (proj2 (proj2 (proj2 (proj2 (proj2
           (bpm_change_stops_the_metronome Examples.playing
              (currentClosure Examples.playing) Examples.slower NoWindow
              eq_refl eq_refl))))))).
Defined.

(** X4 at a start from the first render: one interval. *)
Lemma playing_means_one_interval_witness :
  upToDate [CallStart (currentClosure Examples.hook) NoWindow]
    (mounted (Some running)) = true /\
  oneInterval (run [CallStart (currentClosure Examples.hook) NoWindow]
                 (mounted (Some running))).
Proof.
  split; [reflexivity|].
  exact (proj1 (playing_means_one_interval
                  [CallStart (currentClosure Examples.hook) NoWindow]
                  (Some running) eq_refl)).
Defined.

(** X5 at the playing hook and the [start] of the first render: the first
    interval survives [stop]. *)
Lemma stale_start_leaves_an_interval_witness :
  cl_isPlaying (currentClosure Examples.hook) = false /\
  intervals Examples.playing !! 1%nat = Some Examples.firstTask /\
  intervals
    (stop (fst (startCall (currentClosure Examples.hook) NoWindow false
                  Examples.playing))) !! 1%nat
  = Some Examples.firstTask.
Proof.
  assert (H : intervals Examples.playing !! 1%nat = Some Examples.firstTask)
    by (vm_compute; reflexivity).
  split; [reflexivity|]. split; [exact H|].
  exact (proj1 (proj2 (proj2 (proj2 (proj2 (proj2 (proj2
           (stale_start_leaves_an_interval Examples.playing
              (currentClosure Examples.hook) NoWindow running 1%nat
              Examples.firstTask eq_refl eq_refl eq_refl
              ltac:(discriminate) H ltac:(vm_compute; lia))))))))).
Defined.

(** X6 at the playing hook: after [updateSettings({ volume: 0.5 })] the
    interval still has the settings of its start. *)
Lemma running_interval_keeps_its_settings_witness :
  truthy_bpm Examples.softer && cl_isPlaying (currentClosure Examples.playing)
  = false /\
  intervals
    (updateSettings (currentClosure Examples.playing) Examples.softer
       Examples.playing)
  = intervals Examples.playing.
Proof.
  split; [reflexivity|].
  exact (proj1 (proj2 (proj2
           (running_interval_keeps_its_settings Examples.playing
              (currentClosure Examples.playing) Examples.softer 1%nat
              Examples.firstTask running eq_refl
              ltac:(vm_compute; reflexivity) eq_refl)))).
Defined.

(** X7 at the playing hook: the first firing of the interval sounds beat 1
    of the counter and shows [(1 + 1) % 4 + 1 = 3]. *)
Lemma display_runs_one_beat_ahead_witness :
  intervals Examples.playing !! 1%nat = Some Examples.firstTask /\
  beatCountRef Examples.playing = 1%nat /\
  currentBeat (fireInterval 1 Examples.playing) = Some 3%nat.
Proof.
  assert (H : intervals Examples.playing !! 1%nat = Some Examples.firstTask)
    by (vm_compute; reflexivity).
  split; [exact H|]. split; [reflexivity|].
  exact (proj1 (proj2 (display_runs_one_beat_ahead Examples.playing 1%nat
                         Examples.firstTask running H eq_refl))).
Defined.

End MetronomeWitnesses.

Section SliderWitnesses.
Import DebouncedSlider.

(** X9 after one interaction: the save of [onEnd] is scheduled and
    [isPending] is true. *)
Lemma isPending_tells_a_save_is_scheduled_witness :
  bracketed 1000 [OnStart; OnChange 6%nat; OnEnd] (mounted 5%nat) = true /\
  (isPending (run 1000 [OnStart; OnChange 6%nat; OnEnd] (mounted 5%nat)) = true
   <-> timeouts (run 1000 [OnStart; OnChange 6%nat; OnEnd] (mounted 5%nat)) <> ∅).
Proof.
  split; [reflexivity|].
  exact (proj1 (isPending_tells_a_save_is_scheduled 1000 5%nat
                  [OnStart; OnChange 6%nat; OnEnd] eq_refl)).
Defined.

(** X10 in the middle of an interaction that follows a finished one: the
    save of the first has been cancelled. *)
Lemma no_save_during_an_interaction_witness :
  bracketed 1000 [OnStart; OnChange 6%nat; OnEnd; OnStart; OnChange 7%nat]
    (mounted 5%nat) = true /\
  isInteracting
    (run 1000 [OnStart; OnChange 6%nat; OnEnd; OnStart; OnChange 7%nat]
       (mounted 5%nat)) = true /\
  timeouts
    (run 1000 [OnStart; OnChange 6%nat; OnEnd; OnStart; OnChange 7%nat]
       (mounted 5%nat)) = ∅.
Proof.
  split; [reflexivity|]. split; [reflexivity|].
  exact (proj1 (no_save_during_an_interaction 1000 5%nat
                  [OnStart; OnChange 6%nat; OnEnd; OnStart; OnChange 7%nat]
                  eq_refl eq_refl)).
Defined.

(** X11 at the mounted hook: [onChange] 6 and then 7 save 7, once. *)
Lemma programmatic_changes_save_once_witness :
  tracked (mounted 5%nat) /\
  saved (fireTimeout 2 (renderWith 9%nat (changes 1000 [6%nat; 7%nat] (mounted 5%nat))))
  = [7%nat].
Proof.
  assert (H : tracked (mounted 5%nat)) by (by apply tracked_empty).
  split; [exact H|].
  exact (proj1 (proj2 (proj2 (proj2 (proj2 (proj2
           (programmatic_changes_save_once 1000 (mounted 5%nat)
              [6%nat; 7%nat] 7%nat H eq_refl eq_refl))))))
         9%nat).
Defined.

(** X12 at the mounted hook: two [onEnd] leave two saves, and [onSave] is
    called twice. *)
Lemma second_onEnd_leaves_a_save_behind_witness :
  timeouts (mounted 5%nat) = ∅ /\
  saved (fireTimeout 2 (fireTimeout 1
           (handleEnd 1000 (handleEnd 1000 (mounted 5%nat)))))
  = [5%nat; 5%nat].
Proof.
  split; [reflexivity|].
  exact (proj1 (proj2 (proj2
           (second_onEnd_leaves_a_save_behind 1000 (mounted 5%nat) eq_refl)))).
Defined.

(** X13 after one interaction: the unmount clears the scheduled save. *)
Lemma unmount_drops_the_pending_save_witness :
  bracketed 1000 [OnStart; OnChange 6%nat; OnEnd] (mounted 5%nat) = true /\
  timeouts (unmount (run 1000 [OnStart; OnChange 6%nat; OnEnd] (mounted 5%nat)))
  = ∅.
Proof.
  split; [reflexivity|].
  exact (proj1 (unmount_drops_the_pending_save 1000 5%nat
                  [OnStart; OnChange 6%nat; OnEnd] eq_refl)).
Defined.

(** X29 at the mounted hook: the user drags to 6, and a new
    [initialValue] of 9 arrives before the save fires; 9 is saved. *)
Lemma save_reads_live_value_witness :
  tracked (mounted 5%nat) /\
  9%nat <> initialValue (mounted 5%nat) /\
  saved (fireTimeout 1 (renderWith 9%nat
                          (interaction 1000 [6%nat] (mounted 5%nat))))
  = [9%nat].
Proof.
  assert (H : tracked (mounted 5%nat)) by (by apply tracked_empty).
  assert (Hu : 9%nat <> initialValue (mounted 5%nat)) by (cbn; lia).
  split; [exact H|]. split; [exact Hu|].
  exact (save_reads_live_value 1000 (mounted 5%nat) [6%nat] 6%nat 9%nat
           H eq_refl Hu).
Defined.

End SliderWitnesses.

Section WakeLockWitnesses.
Import WakeLock.

(** X17 where [NoSleep.enable()] rejects and the native lock is granted. *)
Lemma release_keeps_active_flag_witness :
  noSleepEnables (mkPlatform true true false true true) = false /\
  nativeGrants (mkPlatform true true false true true) = true /\
  isWakeLockActive
    (fst (onRelease (fst (enableWakeLock (mkPlatform true true false true true)
                            initial)))) = true /\
  engaged
    (fst (onRelease (fst (enableWakeLock (mkPlatform true true false true true)
                            initial)))) = false.
Proof.
  split; [reflexivity|]. split; [reflexivity|].
  exact (proj2 (proj2 (proj2 (proj2 (proj2
           (release_keeps_active_flag (mkPlatform true true false true true)
              initial eq_refl eq_refl eq_refl eq_refl eq_refl eq_refl)))))).
Defined.

(** X18 in a browser without the native API where NoSleep can be built. *)
Lemma supportEffect_runs_once_witness :
  hasInitializedRef initial = false /\
  isWakeLockSupported
    (fst (supportEffect (mkPlatform true true true false false) false initial))
  = true.
Proof.
  split; [reflexivity|].
  exact (proj1 (proj2 (proj2
           (supportEffect_runs_once (mkPlatform true true true false false)
              (mkPlatform true false false false false) false true initial
              eq_refl eq_refl)))).
Defined.

End WakeLockWitnesses.

Section TimerWitnesses.
Import Session.

(** X23 at a run of MobilePracticeTimer that starts at 0 and pauses at
    90000: a stop at 100000 and a stop at 500000 leave the same state. *)
Lemma stop_while_paused_witness :
  MobilePracticeTimer.isPaused
    (MobilePracticeTimer.run
       [MobilePracticeTimer.PressPlayPause 0; MobilePracticeTimer.Tick;
        MobilePracticeTimer.PressPlayPause 90000]
       (MobilePracticeTimer.mounted 0 (Some 7%nat) 3%nat EmptyString)) = true /\
  MobilePracticeTimer.step (MobilePracticeTimer.PressStop 100000 InsertOk)
    (MobilePracticeTimer.run
       [MobilePracticeTimer.PressPlayPause 0; MobilePracticeTimer.Tick;
        MobilePracticeTimer.PressPlayPause 90000]
       (MobilePracticeTimer.mounted 0 (Some 7%nat) 3%nat EmptyString))
  = MobilePracticeTimer.step (MobilePracticeTimer.PressStop 500000 InsertOk)
      (MobilePracticeTimer.run
         [MobilePracticeTimer.PressPlayPause 0; MobilePracticeTimer.Tick;
          MobilePracticeTimer.PressPlayPause 90000]
         (MobilePracticeTimer.mounted 0 (Some 7%nat) 3%nat EmptyString)).
Proof.
  split; [reflexivity|].
  exact (proj1 (stop_while_paused_saves_time_before_pause
                  [MobilePracticeTimer.PressPlayPause 0; MobilePracticeTimer.Tick;
                   MobilePracticeTimer.PressPlayPause 90000]
                  0 100000 500000 (Some 7%nat) 3%nat EmptyString InsertOk
                  eq_refl eq_refl)).
Defined.

(** X24 after one second of practice: the failed insert leaves no row and
    a counter of zero. *)
Lemma practice_failed_insert_witness :
  (0 < MobilePracticeTimer.seconds
         (MobilePracticeTimer.run
            [MobilePracticeTimer.PressPlayPause 0; MobilePracticeTimer.Tick]
            (MobilePracticeTimer.mounted 0 (Some 7%nat) 3%nat EmptyString)))%nat /\
  MobilePracticeTimer.seconds
    (MobilePracticeTimer.step (MobilePracticeTimer.PressStop 1000 InsertError)
       (MobilePracticeTimer.run
          [MobilePracticeTimer.PressPlayPause 0; MobilePracticeTimer.Tick]
          (MobilePracticeTimer.mounted 0 (Some 7%nat) 3%nat EmptyString))) = O.
Proof.
  split; [cbn; lia|].
  exact (proj1 (proj2
           (practice_failed_insert_discards_session
              (MobilePracticeTimer.run
                 [MobilePracticeTimer.PressPlayPause 0; MobilePracticeTimer.Tick]
                 (MobilePracticeTimer.mounted 0 (Some 7%nat) 3%nat EmptyString))
              1000 eq_refl ltac:(cbn; lia)))).
Defined.

(** X25 at 3599 seconds, written as a sum: both are shown as 59:59. *)
Lemma formatTime_inj_witness :
  TimeDisplay.formatTime (59 * 60 + 59) = TimeDisplay.formatTime 3599 /\
  (59 * 60 + 59 = 3599)%nat.
Proof.
  assert (H : TimeDisplay.formatTime (59 * 60 + 59) = TimeDisplay.formatTime 3599)
    by (vm_compute; reflexivity).
  split; [exact H|].
  exact (formatTime_inj (59 * 60 + 59) 3599 H).
Defined.

(** X28 at a practice of 40 seconds that is paused: a stop saves one
    minute; after a click on the metronome button it saves nothing. *)
Lemma metronome_click_while_paused_witness :
  MobileOptimizedTimer.isPaused (TimerWithMetronome.timer Examples.pausedTimer)
  = true /\
  MobileOptimizedTimer.inserted
    (TimerWithMetronome.timer
       (TimerWithMetronome.step
          (50000, TimerWithMetronome.TimerEvent
                    (MobileOptimizedTimer.PressStop 50000 50001 InsertOk))
          Examples.pausedTimer))
  = [mkRow 7 3 1 "scales"] /\
  MobileOptimizedTimer.inserted
    (TimerWithMetronome.timer
       (TimerWithMetronome.step
          (50000, TimerWithMetronome.TimerEvent
                    (MobileOptimizedTimer.PressStop 50000 50001 InsertOk))
          (TimerWithMetronome.run
             (map (fun t => (t, TimerWithMetronome.TimerEvent
                                  MobileOptimizedTimer.Tick)) [46000; 47000])
             (TimerWithMetronome.step
                (45000, TimerWithMetronome.MetronomeClick Metronome.NoWindow None)
                Examples.pausedTimer))))
  = [].
Proof.
  split; [vm_compute; reflexivity|]. split; [vm_compute; reflexivity|].
  exact (proj1 (proj2 (proj2 (proj2 (proj2 (proj2
           (metronome_click_while_paused_loses_the_session
              Examples.practiceThenPause 0 (Some 7%nat) 3%nat Examples.scales
              (Some Metronome.running) 45000 Metronome.NoWindow None
              [46000; 47000] 50000 50000 50001 InsertOk
              ltac:(vm_compute; reflexivity)
              ltac:(vm_compute; by eexists)
              ltac:(vm_compute; intros [H|[H _]]; discriminate H)))))))).
Defined.

End TimerWitnesses.
